(** * Chronological split and leakage-safe features of [06_train_test_split]

    A shallow embedding of the notebook [notebooks/06_train_test_split.ipynb]:
    the chronological split [int(len(df) * 0.9)], [create_lag_features],
    the spillover concatenation for the forecast segment and
    [enrich_features].

    Conventions of the embedding.
    - A pandas [float64] cell is an [option Q]: [None] is NaN (a missing
      value), [Some q] a finite value.  Arithmetic on present values is exact
      rational arithmetic; the rounding of binary64 sums and quotients is
      not represented.  The one place where the notebook's result depends on
      binary64 rounding, [int(len(df) * 0.9)], is modelled bit-exactly with
      [SpecFloat].
    - A timestamp of the [DatetimeIndex] is a [Z] (nanoseconds since the
      epoch).
    - A [DataFrame] is column-oriented, as in pandas: an index and an
      ordered association list of named columns.
    - [df.copy()] and item assignment [df[name] = ...] act on a heap of
      frames addressed by references; the two user functions of the
      notebook are written in a state-and-exception monad over that heap. *)

From Stdlib Require Import String Ascii.
From Stdlib Require Import List ZArith QArith Qround Bool Arith Lia.
From Stdlib Require Import Sorting.Sorted Sorting.Permutation.
From Stdlib Require Import DecimalString DecimalNat.
From Stdlib Require Import Floats.SpecFloat.
Import ListNotations.

Set Implicit Arguments.
Local Open Scope nat_scope.

(** ** Series *)

Abbreviation cell := (option Q) (only parsing).
Abbreviation Series := (list (option Q)) (only parsing).

(** Positional read; a position outside the series reads as missing. *)
Definition at_ (s : Series) (i : nat) : cell := nth i s None.

Definition nan_fill (n : nat) : Series := repeat None n.

(** [s.shift(k)] for [k >= 0]: every value moves [k] positions down, the
    first [k] positions become NaN, the length is unchanged. *)
Definition shift (k : nat) (s : Series) : Series :=
  firstn (length s) (nan_fill k ++ s).

(** The non-missing values of a window. *)
Fixpoint observed (win : Series) : list Q :=
  match win with
  | [] => []
  | Some q :: r => q :: observed r
  | None :: r => observed r
  end.

Definition Qsum (l : list Q) : Q := fold_right Qplus 0%Q l.

Definition Qmean (l : list Q) : Q :=
  (Qsum l / inject_Z (Z.of_nat (length l)))%Q.

(** The window of [rolling(window=w)] ending at position [i]: the positions
    [max(0, i+1-w) .. i]. *)
Definition window_at (w : nat) (s : Series) (i : nat) : Series :=
  firstn (Nat.min w (S i)) (skipn (S i - w) s).

(** [rolling(window=w).mean()] at one position.  pandas defaults
    [min_periods] to the window size: the result is NaN unless the window
    holds at least [w] non-missing observations (and at least one). *)
Definition rolling_mean_at (w : nat) (s : Series) (i : nat) : cell :=
  let obs := observed (window_at w s i) in
  if (w <=? length obs) && (0 <? length obs) then Some (Qmean obs) else None.

Definition rolling_mean (w : nat) (s : Series) : Series :=
  map (rolling_mean_at w s) (seq 0 (length s)).

(** *** The rolling mean as the statements read it

    [rolling_mean] above follows the pandas rule.  The statements about it
    are written with [mean_of] and [previous]: the plain mean of a window
    whose cells are all present, over the [w] rows before a row. *)

Fixpoint all_present (win : Series) : option (list Q) :=
  match win with
  | [] => Some []
  | Some q :: r => option_map (cons q) (all_present r)
  | None :: _ => None
  end.

Definition mean_of (win : Series) : cell :=
  match all_present win with
  | Some (q :: l) => Some (Qmean (q :: l))
  | _ => None
  end.

(** The [w] cells before position [i]: positions [i-w .. i-1]. *)
Definition previous (w : nat) (s : Series) (i : nat) : Series :=
  firstn w (skipn (i - w) s).

(** ** Elementwise operations used by [enrich_features] *)

Definition cell_map (f : Q -> Q) (c : cell) : cell := option_map f c.

(** [a - b] on two series of one length; NaN on either side gives NaN. *)
Definition cell_sub (a b : cell) : cell :=
  match a, b with
  | Some p, Some q => Some (p - q)%Q
  | _, _ => None
  end.

Definition series_sub (a b : Series) : Series :=
  map (fun ab => cell_sub (fst ab) (snd ab)) (combine a b).

(** [(s > 0).astype(int)]: a comparison with NaN is false. *)
Definition gt_zero (c : cell) : cell :=
  match c with
  | Some q => if Qle_bool q 0 then Some 0%Q else Some 1%Q
  | None => Some 0%Q
  end.

(** [s // 4]: floor division. *)
Definition floordiv (d : Z) (c : cell) : cell :=
  cell_map (fun q => inject_Z (Qfloor (q / inject_Z d))) c.

(** [s.clip(upper=u)]. *)
Definition clip_upper (u : Q) (c : cell) : cell :=
  cell_map (fun q => if Qle_bool q u then q else u) c.

(** [s.isin(values).astype(int)]: NaN is in no list of numbers. *)
Definition isin (values : list Q) (c : cell) : cell :=
  match c with
  | Some q => if existsb (Qeq_bool q) values then Some 1%Q else Some 0%Q
  | None => Some 0%Q
  end.

(** [df[cols].sum(axis=1)] on [n] rows: the row-wise sum skips NaN, so the
    sum of a row of NaNs is 0. *)
Definition row_sum (n : nat) (cols : list Series) : Series :=
  map (fun i => Some (Qsum (observed (map (fun c => at_ c i) cols)))) (seq 0 n).

(** ** Data frames *)

Abbreviation Columns := (list (string * list (option Q))) (only parsing).

Record DataFrame := mkDataFrame { index : list Z; columns : Columns }.

Module Frame.

Definition len (df : DataFrame) : nat := length (index df).

Fixpoint lookup (name : string) (cols : Columns) : option Series :=
  match cols with
  | [] => None
  | (n, s) :: rest => if String.eqb name n then Some s else lookup name rest
  end.

(** Item assignment on the column table: an existing name is overwritten
    in place, a new name is appended. *)
Fixpoint assign (name : string) (s : Series) (cols : Columns) : Columns :=
  match cols with
  | [] => [(name, s)]
  | (n, x) :: rest =>
      if String.eqb name n then (n, s) :: rest
      else (n, x) :: assign name s rest
  end.

Definition with_column (name : string) (s : Series) (df : DataFrame) :=
  mkDataFrame (index df) (assign name s (columns df)).

Definition has_column (name : string) (df : DataFrame) : bool :=
  match lookup name (columns df) with Some _ => true | None => false end.

Definition names (df : DataFrame) : list string := map fst (columns df).

(** A column read positionally; an absent column reads as missing. *)
Definition value (df : DataFrame) (name : string) (i : nat) : cell :=
  match lookup name (columns df) with
  | Some s => at_ s i
  | None => None
  end.

Definition map_columns (f : Series -> Series) (cols : Columns) : Columns :=
  map (fun c => (fst c, f (snd c))) cols.

(** Rows selected by position, in the order given. *)
Definition take_rows (ps : list nat) (df : DataFrame) : DataFrame :=
  mkDataFrame (map (fun p => nth p (index df) 0%Z) ps)
              (map_columns (fun s => map (at_ s) ps) (columns df)).

(** [df.iloc[:s]] and [df.iloc[s:]] for [s >= 0]. *)
Definition iloc_to (s : nat) (df : DataFrame) : DataFrame :=
  mkDataFrame (firstn s (index df)) (map_columns (firstn s) (columns df)).

Definition iloc_from (s : nat) (df : DataFrame) : DataFrame :=
  mkDataFrame (skipn s (index df)) (map_columns (skipn s) (columns df)).

(** [df.tail(n)]: the last [n] rows, all rows when there are fewer. *)
Definition tail (n : nat) (df : DataFrame) : DataFrame :=
  iloc_from (len df - n) df.

(** Stable insertion of a row position by its timestamp. *)
Fixpoint insert_by (key : nat -> Z) (p : nat) (l : list nat) : list nat :=
  match l with
  | [] => [p]
  | q :: rest =>
      if (key p <=? key q)%Z then p :: q :: rest
      else q :: insert_by key p rest
  end.

Definition argsort (idx : list Z) : list nat :=
  fold_right (insert_by (fun p => nth p idx 0%Z)) [] (seq 0 (length idx)).

(** [df.sort_index()]: rows in ascending order of timestamp. *)
Definition sort_index (df : DataFrame) : DataFrame :=
  take_rows (argsort (index df)) df.

Definition column_or_nan (name : string) (df : DataFrame) : Series :=
  match lookup name (columns df) with
  | Some s => s
  | None => nan_fill (len df)
  end.

(** [pd.concat([a, b])]: the rows of [a] followed by the rows of [b]; the
    columns are the union (those of [a] first), and a frame lacking a
    column contributes NaN for its rows. *)
Definition concat (a b : DataFrame) : DataFrame :=
  mkDataFrame
    (index a ++ index b)
    (map (fun c => (fst c, snd c ++ column_or_nan (fst c) b)) (columns a)
     ++ map (fun c => (fst c, nan_fill (len a) ++ snd c))
            (filter (fun c => negb (has_column (fst c) a)) (columns b))).

Definition mem (t : Z) (l : list Z) : bool := existsb (Z.eqb t) l.

Fixpoint insert_unique (t : Z) (l : list Z) : list Z :=
  match l with
  | [] => [t]
  | u :: rest =>
      if (t <? u)%Z then t :: l
      else if (t =? u)%Z then l
      else u :: insert_unique t rest
  end.

Definition unique_sorted (l : list Z) : list Z :=
  fold_right insert_unique [] l.

(** [a.difference(b)] on indexes: the labels of [a] absent from [b],
    without duplicates, ascending. *)
Definition difference (a b : list Z) : list Z :=
  unique_sorted (filter (fun t => negb (mem t b)) a).

(** The positions that carry label [t]. *)
Definition positions (idx : list Z) (t : Z) : list nat :=
  filter (fun p => (nth p idx 0 =? t)%Z) (seq 0 (length idx)).

(** [df.loc[labels]]: for each label in turn, every row that carries
    it. *)
Definition loc (labels : list Z) (df : DataFrame) : DataFrame :=
  take_rows (flat_map (positions (index df)) labels) df.

End Frame.

(** ** Column names *)

Definition decimal (n : nat) : string := NilEmpty.string_of_uint (Nat.to_uint n).

Definition lag_name (lag : nat) : string := ("lag_" ++ decimal lag)%string.
Definition roll_name (win : nat) : string := ("roll_mean_" ++ decimal win)%string.

Definition target : string := "use_house_overall"%string.

(** ** The split point [int(len(df) * 0.9)] in binary64 *)

Definition prec : Z := 53.
Definition emax : Z := 1024.

(** The literal [0.9]: the double [0x1.ccccccccccccdp-1]. *)
Definition ratio : spec_float := S754_finite false 8106479329266893 (-53).

(** Conversion of a Python integer to a float, correctly rounded. *)
Definition float_of_int (n : Z) : spec_float := binary_normalize prec emax n 0 false.

Definition float_mul : spec_float -> spec_float -> spec_float := SFmul prec emax.

(** [int(x)]: truncation toward zero; undefined on infinities and NaN,
    where Python raises. *)
Definition int_of_float (x : spec_float) : option Z :=
  match x with
  | S754_zero _ => Some 0%Z
  | S754_finite s m e =>
      let a := if (0 <=? e)%Z then (Zpos m * 2 ^ e)%Z else (Zpos m / 2 ^ (- e))%Z in
      Some (if s then (- a)%Z else a)
  | _ => None
  end.

(** [int(n * 0.9)] for a Python integer [n]. *)
Definition split_index (n : Z) : option Z :=
  int_of_float (float_mul (float_of_int n) ratio).

(** ** The heap of frames and the monad of the notebook *)

Definition ref := nat.
Definition heap := list DataFrame.

Inductive exn :=
| KeyError (name : string)
| OverflowError
| DanglingRef (r : ref).

Inductive result (A : Type) :=
| Ok (a : A)
| Raise (e : exn).
Arguments Ok {A} a.
Arguments Raise {A} e.

Definition M (A : Type) : Type := heap -> result A * heap.

Definition ret {A} (a : A) : M A := fun h => (Ok a, h).

Definition raise {A} (e : exn) : M A := fun h => (Raise e, h).

Definition bind {A B} (m : M A) (k : A -> M B) : M B :=
  fun h =>
    match m h with
    | (Ok a, h') => k a h'
    | (Raise e, h') => (Raise e, h')
    end.

Declare Scope py_scope.
Delimit Scope py_scope with py.
Notation "x <- m ;; k" := (bind m (fun x => k))
  (at level 61, m at next level, right associativity) : py_scope.
Notation "m ;; k" := (bind m (fun _ => k))
  (at level 61, right associativity) : py_scope.
Local Open Scope py_scope.

(** Replacement of the frame stored at a position. *)
Fixpoint update (r : ref) (df : DataFrame) (h : heap) : heap :=
  match h, r with
  | [], _ => []
  | _ :: rest, O => df :: rest
  | x :: rest, S r' => x :: update r' df rest
  end.

Definition new (df : DataFrame) : M ref := fun h => (Ok (length h), h ++ [df]).

Definition deref (r : ref) : M DataFrame :=
  fun h =>
    match nth_error h r with
    | Some df => (Ok df, h)
    | None => (Raise (DanglingRef r), h)
    end.

(** [df.copy()] *)
Definition copy (r : ref) : M ref := df <- deref r ;; new df.

(** [df[name]]: a missing column raises [KeyError]. *)
Definition getitem (r : ref) (name : string) : M Series :=
  df <- deref r ;;
  match Frame.lookup name (columns df) with
  | Some s => ret s
  | None => raise (KeyError name)
  end.

(** [df[names]] *)
Fixpoint getitems (r : ref) (names : list string) : M (list Series) :=
  match names with
  | [] => ret []
  | n :: rest => s <- getitem r n ;; ss <- getitems r rest ;; ret (s :: ss)
  end.

(** [df[name] = s]: mutates the frame stored at [r]. *)
Definition setitem (r : ref) (name : string) (s : Series) : M unit :=
  fun h =>
    match nth_error h r with
    | Some df => (Ok tt, update r (Frame.with_column name s df) h)
    | None => (Raise (DanglingRef r), h)
    end.

Fixpoint for_ {A} (l : list A) (body : A -> M unit) : M unit :=
  match l with
  | [] => ret tt
  | x :: rest => body x ;; for_ rest body
  end.

(** Methods that build a new frame from one or two existing ones. *)
Definition method1 (f : DataFrame -> DataFrame) (r : ref) : M ref :=
  df <- deref r ;; new (f df).

Definition method2 (f : DataFrame -> DataFrame -> DataFrame) (a b : ref) : M ref :=
  x <- deref a ;; y <- deref b ;; new (f x y).

(** ** [create_lag_features] *)

Definition create_lag_features (df : ref) (lags roll_windows : list nat) : M ref :=
  df <- copy df ;;
  for_ lags (fun lag =>
    x <- getitem df target ;;
    setitem df (lag_name lag) (shift lag x)) ;;
  for_ roll_windows (fun win =>
    x <- getitem df target ;;
    setitem df (roll_name win) (rolling_mean win (shift 1 x))) ;;
  ret df.

(** ** The cells of the notebook up to the lag features *)

Definition train_lags : list nat := [1; 2; 3; 6; 12; 24; 48].
Definition train_windows : list nat := [3; 6; 12; 24].
Definition forecast_lags : list nat := [1; 2; 3].
Definition forecast_windows : list nat := [3; 6; 12].
Definition spillover : nat := 12.

(** [df = df.sort_index()] and the split at [int(len(df) * 0.9)]. *)
Definition split (df : ref) : M (ref * ref) :=
  df <- method1 Frame.sort_index df ;;
  d <- deref df ;;
  match split_index (Z.of_nat (Frame.len d)) with
  | None => raise OverflowError
  | Some i =>
      train_df <- method1 (Frame.iloc_to (Z.to_nat i)) df ;;
      forecast_df <- method1 (Frame.iloc_from (Z.to_nat i)) df ;;
      ret (train_df, forecast_df)
  end.

(** [pd.concat([train_df.tail(12), forecast_df])], the frame handed to the
    generator for the forecast segment. *)
Definition spillover_input (train_df forecast_df : ref) : M ref :=
  t <- method1 (Frame.tail spillover) train_df ;;
  method2 Frame.concat t forecast_df.

(** [df.loc[df.index.difference(other.index)]] *)
Definition keep_new_rows (df other : ref) : M ref :=
  d <- deref df ;;
  o <- deref other ;;
  new (Frame.loc (Frame.difference (index d) (index o)) d).

Definition lag_cell (train_df forecast_df : ref) : M (ref * ref) :=
  train_df <- create_lag_features train_df train_lags train_windows ;;
  c <- spillover_input train_df forecast_df ;;
  forecast_df <- create_lag_features c forecast_lags forecast_windows ;;
  forecast_df <- keep_new_rows forecast_df train_df ;;
  ret (train_df, forecast_df).

(** ** [enrich_features] *)

(** [np.pi], the double [0x1.921fb54442d18p+1]. *)
Definition np_pi : Q := 884279719003555 # 281474976710656.

Definition appliance_cols : list string :=
  ["winecellar"; "barn"; "fridge"; "well"; "dishwasher"; "microwave"]%string.

Definition night_hours : list Q := [0; 1; 2; 3; 4; 5; 6; 22; 23]%Q.

Section Enrich.

(** Library functions the notebook calls and this development leaves
    open: the day of the year of a timestamp ([DatetimeIndex.dayofyear])
    and [np.sin], [np.cos]. *)
Variable dayofyear : Z -> Z.
Variables np_sin np_cos : Q -> Q.

Definition seasonal_angle (d : Q) : Q := (2 * np_pi * d / 365)%Q.

Definition enrich_features (df : ref) : M ref :=
  df <- copy df ;;
  (* Appliance sum *)
  d <- deref df ;;
  cols <- getitems df appliance_cols ;;
  setitem df "appliance_sum" (row_sum (Frame.len d) cols) ;;
  (* Furnace binary flag *)
  furnace <- getitem df "furnace" ;;
  setitem df "furnace_on" (map gt_zero furnace) ;;
  (* Net energy consumption *)
  lag_1 <- getitem df "lag_1" ;;
  solar <- getitem df "generated_solar" ;;
  setitem df "net_energy_lag_1" (series_sub lag_1 (shift 1 solar)) ;;
  (* Hour block *)
  hour <- getitem df "hour" ;;
  setitem df "hour_block" (map (floordiv 4) hour) ;;
  (* Weekend flag *)
  d <- deref df ;;
  wd <- getitems df ["wd_Saturday"; "wd_Sunday"]%string ;;
  setitem df "is_weekend" (map (clip_upper 1) (row_sum (Frame.len d) wd)) ;;
  (* Night flag *)
  hour <- getitem df "hour" ;;
  setitem df "is_night" (map (isin night_hours) hour) ;;
  (* Day of year *)
  d <- deref df ;;
  setitem df "dayofyear" (map (fun t => Some (inject_Z (dayofyear t))) (index d)) ;;
  doy <- getitem df "dayofyear" ;;
  setitem df "dayofyear_sin" (map (cell_map (fun x => np_sin (seasonal_angle x))) doy) ;;
  doy <- getitem df "dayofyear" ;;
  setitem df "dayofyear_cos" (map (cell_map (fun x => np_cos (seasonal_angle x))) doy) ;;
  ret df.

Definition enrich_cell (train_df forecast_df : ref) : M (ref * ref) :=
  train_df <- enrich_features train_df ;;
  forecast_df <- enrich_features forecast_df ;;
  ret (train_df, forecast_df).

(** The notebook from the sorted load to the two frames it writes. *)
Definition notebook (df : ref) : M (ref * ref) :=
  tf <- split df ;;
  tf <- lag_cell (fst tf) (snd tf) ;;
  enrich_cell (fst tf) (snd tf).

End Enrich.

(** ** The frames the two functions build

    The value-level reading of the two functions: the frame stored at the
    returned reference, as a function of the frame passed in.  [None] stands
    for a raised [KeyError]. *)

Definition add_lag (x : Series) (df : DataFrame) (lag : nat) : DataFrame :=
  Frame.with_column (lag_name lag) (shift lag x) df.

Definition add_roll (x : Series) (df : DataFrame) (win : nat) : DataFrame :=
  Frame.with_column (roll_name win) (rolling_mean win (shift 1 x)) df.

Definition lag_features (lags roll_windows : list nat) (df : DataFrame)
  : option DataFrame :=
  match Frame.lookup target (columns df) with
  | None =>
      match lags, roll_windows with
      | [], [] => Some df
      | _, _ => None
      end
  | Some x => Some (fold_left (add_roll x) roll_windows (fold_left (add_lag x) lags df))
  end.

Fixpoint lookups (names : list string) (cols : Columns) : option (list Series) :=
  match names with
  | [] => Some []
  | n :: rest =>
      match Frame.lookup n cols, lookups rest cols with
      | Some s, Some ss => Some (s :: ss)
      | _, _ => None
      end
  end.

Definition enrich_inputs : list string :=
  appliance_cols ++
  ["furnace"; "lag_1"; "generated_solar"; "hour"; "wd_Saturday"; "wd_Sunday"]%string.

Definition enrich_outputs : list string :=
  ["appliance_sum"; "furnace_on"; "net_energy_lag_1"; "hour_block";
   "is_weekend"; "is_night"; "dayofyear"; "dayofyear_sin"; "dayofyear_cos"]%string.

Section EnrichValue.

Variable dayofyear : Z -> Z.
Variables np_sin np_cos : Q -> Q.

Definition dayofyear_column (idx : list Z) : Series :=
  map (fun t => Some (inject_Z (dayofyear t))) idx.

(** The assignments of [enrich_features] in program order, given the
    columns it read. *)
Definition enrich_with (apps : list Series) (furnace lag_1 solar hour : Series)
  (wd : list Series) (df : DataFrame) : DataFrame :=
  let doy := dayofyear_column (index df) in
  Frame.with_column "dayofyear_cos"
    (map (cell_map (fun x => np_cos (seasonal_angle x))) doy)
  (Frame.with_column "dayofyear_sin"
    (map (cell_map (fun x => np_sin (seasonal_angle x))) doy)
  (Frame.with_column "dayofyear" doy
  (Frame.with_column "is_night" (map (isin night_hours) hour)
  (Frame.with_column "is_weekend"
    (map (clip_upper 1) (row_sum (Frame.len df) wd))
  (Frame.with_column "hour_block" (map (floordiv 4) hour)
  (Frame.with_column "net_energy_lag_1" (series_sub lag_1 (shift 1 solar))
  (Frame.with_column "furnace_on" (map gt_zero furnace)
  (Frame.with_column "appliance_sum" (row_sum (Frame.len df) apps)
    df)))))))).

Definition enriched (df : DataFrame) : option DataFrame :=
  let c := columns df in
  match lookups appliance_cols c,
        Frame.lookup "furnace" c, Frame.lookup "lag_1" c,
        Frame.lookup "generated_solar" c, Frame.lookup "hour" c,
        lookups ["wd_Saturday"; "wd_Sunday"]%string c with
  | Some apps, Some furnace, Some lag_1, Some solar, Some hour, Some wd =>
      Some (enrich_with apps furnace lag_1 solar hour wd df)
  | _, _, _, _, _, _ => None
  end.

End EnrichValue.

(** ** Running the notebook on an input table

    The kernel starts with an empty heap; [pd.read_csv] stores the table it
    parsed.  [frames] reads back the two frames a cell returns. *)

Definition load (df0 : DataFrame) : M ref := new df0.

Definition frames (m : M (ref * ref)) : result (DataFrame * DataFrame) :=
  match m [] with
  | (Ok (t, f), h) =>
      match nth_error h t, nth_error h f with
      | Some T, Some F => Ok (T, F)
      | None, _ => Raise (DanglingRef t)
      | _, None => Raise (DanglingRef f)
      end
  | (Raise e, _) => Raise e
  end.

(** The notebook through the split cell. *)
Definition split_run (df0 : DataFrame) : result (DataFrame * DataFrame) :=
  frames (df <- load df0 ;; split df).

(** The notebook through the lag-feature cell: [train_df] and
    [forecast_df] as they stand after [forecast_df.loc[...]]. *)
Definition lag_run (df0 : DataFrame) : result (DataFrame * DataFrame) :=
  frames (df <- load df0 ;; tf <- split df ;; lag_cell (fst tf) (snd tf)).

(** The whole notebook: the frames written to [train.csv] and
    [forecast.csv]. *)
Definition notebook_run (dayofyear : Z -> Z) (np_sin np_cos : Q -> Q)
  (df0 : DataFrame) : result (DataFrame * DataFrame) :=
  frames (df <- load df0 ;; notebook dayofyear np_sin np_cos df).

(** ** Well-formed frames and the observation table

    Every column of a frame has one cell per row. *)

Definition well_formed (df : DataFrame) : Prop :=
  Forall (fun c => length (snd c) = Frame.len df) (columns df).

(** One row per period: consecutive timestamps are one period apart. *)
Definition regular (period : Z) (idx : list Z) : Prop :=
  (0 < period)%Z /\
  forall i, S i < length idx -> nth (S i) idx 0%Z = (nth i idx 0 + period)%Z.

(** The cell of a series on the row stamped [t]; missing when no row
    carries that timestamp. *)
Definition at_time (idx : list Z) (s : Series) (t : Z) : cell :=
  match Frame.positions idx t with
  | p :: _ => at_ s p
  | [] => None
  end.

Definition precede (a b : list Z) : Prop :=
  forall t u, In t a -> In u b -> (t < u)%Z.

Definition disjoint (a b : list Z) : Prop :=
  forall t, In t a -> ~ In t b.

(** ** The frames of the lag-feature cell, as values *)

Definition sorted_input (df0 : DataFrame) : DataFrame := Frame.sort_index df0.

(** [train_df] and [forecast_df] right after the split at row [s]. *)
Definition train_rows (s : nat) (df0 : DataFrame) : DataFrame :=
  Frame.iloc_to s (sorted_input df0).

Definition forecast_rows (s : nat) (df0 : DataFrame) : DataFrame :=
  Frame.iloc_from s (sorted_input df0).

(** [pd.concat([train_df.tail(12), forecast_df])] *)
Definition forecast_input (T F0 : DataFrame) : DataFrame :=
  Frame.concat (Frame.tail spillover T) F0.

(** [forecast_df.loc[forecast_df.index.difference(train_df.index)]] *)
Definition keep_new (F1 T : DataFrame) : DataFrame :=
  Frame.loc (Frame.difference (index F1) (index T)) F1.

(** A column as a series; an absent column reads as the empty series. *)
Definition series_of (name : string) (df : DataFrame) : Series :=
  match Frame.lookup name (columns df) with
  | Some s => s
  | None => []
  end.

(** The frame a successful call of [create_lag_features] returns. *)
Definition generated (lags wins : list nat) (df : DataFrame) : DataFrame :=
  match lag_features lags wins df with
  | Some d => d
  | None => df
  end.

(** [train_df] after its call of [create_lag_features]. *)
Definition train_frame (s : nat) (df0 : DataFrame) : DataFrame :=
  generated train_lags train_windows (train_rows s df0).

(** The result of the call on the spillover concatenation. *)
Definition forecast_features (s : nat) (df0 : DataFrame) : DataFrame :=
  generated forecast_lags forecast_windows
    (forecast_input (train_frame s df0) (forecast_rows s df0)).

(** [forecast_df] once the rows already in [train_df] are dropped. *)
Definition forecast_frame (s : nat) (df0 : DataFrame) : DataFrame :=
  keep_new (forecast_features s df0) (train_frame s df0).

(** The names of all columns the two calls of [create_lag_features] write. *)
Definition feature_names : list string :=
  map lag_name train_lags ++ map roll_name train_windows.

Definition forecast_feature_names : list string :=
  map lag_name forecast_lags ++ map roll_name forecast_windows.

(** ** A small observation table

    Hourly rows with every column the notebook reads; used to run the
    notebook on concrete data. *)

Definition column_of (f : nat -> Q) (n : nat) : Series :=
  map (fun i => Some (f i)) (seq 0 n).

Definition hour_of (i : nat) : Q := inject_Z (Z.of_nat (i mod 24)).

Definition sample (n : nat) : DataFrame :=
  mkDataFrame
    (map (fun i => (1000 + Z.of_nat i)%Z) (seq 0 n))
    [ (target, column_of (fun i => inject_Z (Z.of_nat (10 * i))) n);
      ("winecellar"%string, column_of (fun _ => (1 # 10)%Q) n);
      ("barn"%string, column_of (fun _ => (2 # 10)%Q) n);
      ("fridge"%string, column_of (fun _ => (3 # 10)%Q) n);
      ("well"%string, column_of (fun _ => 0%Q) n);
      ("dishwasher"%string, column_of (fun _ => 0%Q) n);
      ("microwave"%string, column_of (fun _ => 0%Q) n);
      ("furnace"%string, column_of (fun i => inject_Z (Z.of_nat (i mod 2))) n);
      ("generated_solar"%string, column_of (fun i => inject_Z (Z.of_nat i)) n);
      ("hour"%string, column_of hour_of n);
      ("wd_Saturday"%string, column_of (fun _ => 0%Q) n);
      ("wd_Sunday"%string, column_of (fun _ => 1%Q) n) ].

(** The same rows, delivered latest first. *)
Definition sample_reversed (n : nat) : DataFrame :=
  Frame.take_rows (rev (seq 0 n)) (sample n).

(** Stand-ins for the library functions when the notebook is run on the
    sample: hourly stamps counted in days, and constant encodings. *)
Definition sample_dayofyear (t : Z) : Z := ((t - 1000) / 24 mod 365 + 1)%Z.
Definition sample_sin (_ : Q) : Q := 0%Q.
Definition sample_cos (_ : Q) : Q := 1%Q.

(** Decidable uniqueness of timestamps. *)
Fixpoint uniqueb (l : list Z) : bool :=
  match l with
  | [] => true
  | t :: rest => negb (Frame.mem t rest) && uniqueb rest
  end.

(** ** Calls seen from the caller

    [returns f df d]: called on a reference to the frame [df], in any
    heap, [f] raises nothing, leaves every frame of the heap as it was,
    and returns a fresh reference to the frame [d]. *)
Definition returns (f : ref -> M ref) (df d : DataFrame) : Prop :=
  forall (h : heap) (r : ref),
    nth_error h r = Some df -> f r h = (Ok (length h), h ++ [d]).

Definition net_energy : string := "net_energy_lag_1"%string.

(** ** A table too long for the split point to be exact

    1250999896491811 rows, all stamped 0; the frame is never evaluated,
    only its length is used. *)
Definition many : nat := Z.to_nat 1250999896491811.

Definition long_table : DataFrame := mkDataFrame (repeat 0%Z many) [].

(** The twenty-row sample with another target on its first forecast row
    (row 18) and on no other row. *)
Definition sample_shocked : DataFrame :=
  Frame.with_column target
    (column_of (fun i => if i =? 18 then 999%Q
                         else inject_Z (Z.of_nat (10 * i))) 20)
    (sample 20).

(** The columns the notebook reads from the table it loads. *)
Definition raw_inputs : list string :=
  target :: appliance_cols ++
  ["furnace"; "generated_solar"; "hour"; "wd_Saturday"; "wd_Sunday"]%string.
(** ** The shape printed by the last cell *)

(** [df.shape]: the number of rows and the number of columns. *)
Definition shape (df : DataFrame) : nat * nat :=
  (Frame.len df, length (columns df)).

(** The column names after a run of item assignments: a name already
    there keeps its place, a new name goes to the end. *)
Definition has_name (n : string) (names : list string) : bool :=
  existsb (String.eqb n) names.

Definition assigned (names new : list string) : list string :=
  fold_left (fun acc n => if has_name n acc then acc else acc ++ [n]) new names.

(** The twenty-row sample in which the row after the split point carries
    the timestamp of the row before it. *)
Definition sample_repeated : DataFrame :=
  mkDataFrame
    (map (fun i => if i =? 18 then 1017%Z else (1000 + Z.of_nat i)%Z) (seq 0 20))
    (columns (sample 20)).

(** Row [i] of the frame [E] carries the timestamp of row [r] of the table
    [S] and, in the columns [enrich_features] derives from one row, what
    the cells of that row give. *)
Definition enriched_from (dayofyear : Z -> Z)
  (E : DataFrame) (i : nat) (S : DataFrame) (r : nat) : Prop :=
  nth i (index E) 0%Z = nth r (index S) 0%Z /\
  Frame.value E "appliance_sum" i =
    Some (Qsum (observed (map (fun n => Frame.value S n r) appliance_cols))) /\
  Frame.value E "furnace_on" i = gt_zero (Frame.value S "furnace" r) /\
  Frame.value E "hour_block" i = floordiv 4 (Frame.value S "hour" r) /\
  Frame.value E "is_weekend" i =
    clip_upper 1
      (Some (Qsum (observed (map (fun n => Frame.value S n r)
                                 ["wd_Saturday"; "wd_Sunday"]%string)))) /\
  Frame.value E "is_night" i = isin night_hours (Frame.value S "hour" r) /\
  Frame.value E "dayofyear" i =
    Some (inject_Z (dayofyear (nth r (index S) 0%Z))).

(** ** Facts about series *)

Lemma nan_fill_length n : length (nan_fill n) = n.
Proof. apply repeat_length. Qed.

Lemma nth_nan_fill n i : nth i (nan_fill n) None = None.
Proof.
  unfold nan_fill. revert i. induction n; destruct i; simpl; auto.
Qed.

Lemma shift_length k s : length (shift k s) = length s.
Proof.
  unfold shift. rewrite length_firstn, length_app, nan_fill_length. lia.
Qed.

Lemma at_shift k s i :
  i < length s ->
  at_ (shift k s) i = if i <? k then None else at_ s (i - k).
Proof.
  intros Hi. unfold at_, shift.
  rewrite nth_firstn.
  destruct (Nat.ltb_spec i (length s)); [|lia].
  destruct (Nat.ltb_spec i k).
  - rewrite app_nth1 by (rewrite nan_fill_length; lia). apply nth_nan_fill.
  - rewrite app_nth2 by (rewrite nan_fill_length; lia).
    now rewrite nan_fill_length.
Qed.

Lemma at_overflow (s : Series) i : length s <= i -> at_ s i = None.
Proof. intros. unfold at_. now apply nth_overflow. Qed.

Lemma shift_0 s : shift 0 s = s.
Proof. unfold shift. simpl. apply firstn_all. Qed.

Lemma observed_length_le win : length (observed win) <= length win.
Proof.
  induction win as [|[q|] r IH]; simpl; lia.
Qed.

Lemma observed_missing win :
  In None win -> length (observed win) < length win.
Proof.
  induction win as [|[q|] r IH]; simpl; intros H.
  - contradiction.
  - destruct H as [H|H]; [discriminate|]. specialize (IH H). lia.
  - pose proof (observed_length_le r). lia.
Qed.

Lemma all_present_observed win l :
  all_present win = Some l -> observed win = l /\ length l = length win.
Proof.
  revert l. induction win as [|[q|] r IH]; simpl; intros l H.
  - inversion H. auto.
  - destruct (all_present r) as [l'|]; simpl in H; [|discriminate].
    inversion H; subst. destruct (IH l' eq_refl) as [-> E]. simpl. auto.
  - discriminate.
Qed.

Lemma all_present_none win :
  all_present win = None -> In None win.
Proof.
  induction win as [|[q|] r IH]; simpl; intros H.
  - discriminate.
  - destruct (all_present r); simpl in H; [discriminate|]. right. auto.
  - now left.
Qed.

(** On a full window the pandas rule (at least [w] observations) is the
    mean of the window when all its cells are present. *)
Lemma full_window_mean w win :
  length win = w ->
  (if (w <=? length (observed win)) && (0 <? length (observed win))
   then Some (Qmean (observed win)) else None) = mean_of win.
Proof.
  intros Hw. unfold mean_of.
  destruct (all_present win) as [l|] eqn:E.
  - destruct (all_present_observed _ E) as [-> Hl].
    destruct l as [|q l].
    + simpl in *. subst w. rewrite <- Hl. reflexivity.
    + replace (w <=? length (q :: l)) with true
        by (symmetry; apply Nat.leb_le; lia).
      reflexivity.
  - pose proof (observed_missing _ (all_present_none _ E)).
    replace (w <=? length (observed win)) with false
      by (symmetry; apply Nat.leb_gt; lia).
    reflexivity.
Qed.

Lemma shift_1_cons c s :
  shift 1 (c :: s) = None :: removelast (c :: s).
Proof.
  unfold shift. simpl nan_fill. simpl app. simpl length.
  rewrite firstn_cons. f_equal.
  rewrite removelast_firstn_len. reflexivity.
Qed.

Lemma skipn_shift_1 (s : Series) j :
  skipn (S j) (shift 1 s) = skipn j (firstn (length s - 1) s).
Proof.
  unfold shift. simpl nan_fill. simpl app.
  destruct s as [|c s]; [destruct j; reflexivity|].
  simpl length. rewrite firstn_cons, skipn_cons.
  now replace (S (length s) - 1) with (length s) by lia.
Qed.

(** [roll_mean_w]: the rolling mean of the series shifted by one. *)
Lemma at_rolling_shift w (x : Series) i :
  i < length x ->
  at_ (rolling_mean w (shift 1 x)) i =
  if i <? w then None else mean_of (previous w x i).
Proof.
  intros Hi. unfold at_, rolling_mean.
  rewrite shift_length.
  rewrite nth_indep with (d' := rolling_mean_at w (shift 1 x) 0)
    by (rewrite length_map, length_seq; lia).
  rewrite map_nth, seq_nth by lia. simpl Nat.add.
  unfold rolling_mean_at.
  destruct (Nat.ltb_spec i w) as [Hlt|Hge].
  - (* the window still contains the NaN that [shift] put in front *)
    assert (Hin : In None (window_at w (shift 1 x) i)).
    { unfold window_at. replace (S i - w) with 0 by lia. simpl skipn.
      replace (Nat.min w (S i)) with (S i) by lia.
      destruct x as [|c x]; [simpl in Hi; lia|].
      rewrite shift_1_cons. simpl. now left. }
    pose proof (observed_missing _ Hin) as Hobs.
    assert (length (window_at w (shift 1 x) i) <= w).
    { unfold window_at. rewrite length_firstn. lia. }
    replace (w <=? length (observed (window_at w (shift 1 x) i))) with false
      by (symmetry; apply Nat.leb_gt; lia).
    reflexivity.
  - destruct w as [|w].
    + unfold window_at. simpl. reflexivity.
    + assert (Hwin : window_at (S w) (shift 1 x) i = previous (S w) x i).
      { unfold window_at, previous.
        replace (Nat.min (S w) (S i)) with (S w) by lia.
        replace (S i - S w) with (S (i - S w)) by lia.
        rewrite skipn_shift_1.
        rewrite skipn_firstn_comm, firstn_firstn.
        f_equal. lia. }
      rewrite Hwin. apply full_window_mean.
      unfold previous. rewrite length_firstn, length_skipn. lia.
Qed.

Lemma rolling_mean_length w s : length (rolling_mean w s) = length s.
Proof. unfold rolling_mean. now rewrite length_map, length_seq. Qed.

(** ** Facts about column tables *)

Lemma lookup_assign_eq name s cols :
  Frame.lookup name (Frame.assign name s cols) = Some s.
Proof.
  induction cols as [|[n x] rest IH]; simpl.
  - now rewrite String.eqb_refl.
  - destruct (String.eqb name n) eqn:E; simpl; rewrite E; auto.
Qed.

Lemma lookup_assign_ne name other s cols :
  String.eqb name other = false ->
  Frame.lookup name (Frame.assign other s cols) = Frame.lookup name cols.
Proof.
  intros Hne. induction cols as [|[n x] rest IH]; simpl.
  - now rewrite Hne.
  - destruct (String.eqb other n) eqn:E; simpl.
    + apply String.eqb_eq in E. subst n. now rewrite Hne.
    + now rewrite IH.
Qed.

Lemma assign_same name s cols :
  Frame.lookup name cols = Some s -> Frame.assign name s cols = cols.
Proof.
  induction cols as [|[n x] rest IH]; simpl; intros H.
  - discriminate.
  - destruct (String.eqb name n) eqn:E.
    + now inversion H.
    + now rewrite IH.
Qed.

Lemma assign_assign name s s' cols :
  Frame.assign name s (Frame.assign name s' cols) = Frame.assign name s cols.
Proof.
  induction cols as [|[n x] rest IH]; simpl.
  - now rewrite String.eqb_refl.
  - destruct (String.eqb name n) eqn:E; simpl; rewrite E; [reflexivity|].
    now rewrite IH.
Qed.

Lemma with_column_index name s df :
  index (Frame.with_column name s df) = index df.
Proof. reflexivity. Qed.

Lemma value_with_column_eq name s df i :
  Frame.value (Frame.with_column name s df) name i = at_ s i.
Proof. unfold Frame.value. simpl. now rewrite lookup_assign_eq. Qed.

Lemma value_with_column_ne name other s df i :
  String.eqb name other = false ->
  Frame.value (Frame.with_column other s df) name i = Frame.value df name i.
Proof.
  intros H. unfold Frame.value. simpl. now rewrite lookup_assign_ne.
Qed.

(** ** Facts about the heap *)

Lemma nth_error_last (h : heap) d : nth_error (h ++ [d]) (length h) = Some d.
Proof.
  rewrite nth_error_app2 by lia. now rewrite Nat.sub_diag.
Qed.

Lemma update_last (h : heap) d d' : update (length h) d' (h ++ [d]) = h ++ [d'].
Proof.
  induction h as [|x h IH]; simpl; [reflexivity|]. now rewrite IH.
Qed.

Lemma nth_error_grow (h : heap) l r d :
  nth_error h r = Some d -> nth_error (h ++ l) r = Some d.
Proof.
  intros H. rewrite nth_error_app1; [assumption|].
  apply nth_error_Some. congruence.
Qed.

Lemma deref_last (h : heap) d : deref (length h) (h ++ [d]) = (Ok d, h ++ [d]).
Proof. unfold deref. now rewrite nth_error_last. Qed.

Lemma getitem_last (h : heap) d name :
  getitem (length h) name (h ++ [d]) =
  match Frame.lookup name (columns d) with
  | Some s => (Ok s, h ++ [d])
  | None => (Raise (KeyError name), h ++ [d])
  end.
Proof.
  unfold getitem, bind. rewrite deref_last.
  destruct (Frame.lookup name (columns d)); reflexivity.
Qed.

Lemma setitem_last (h : heap) d name s :
  setitem (length h) name s (h ++ [d]) =
  (Ok tt, h ++ [Frame.with_column name s d]).
Proof.
  unfold setitem. rewrite nth_error_last. now rewrite update_last.
Qed.

Lemma getitems_last (h : heap) d names ss :
  lookups names (columns d) = Some ss ->
  getitems (length h) names (h ++ [d]) = (Ok ss, h ++ [d]).
Proof.
  revert ss. induction names as [|n rest IH]; simpl; intros ss H.
  - now inversion H.
  - unfold bind at 1. rewrite getitem_last.
    destruct (Frame.lookup n (columns d)) as [s|]; [|discriminate].
    destruct (lookups rest (columns d)) as [ss'|]; [|discriminate].
    inversion H; subst. unfold bind. now rewrite (IH ss' eq_refl).
Qed.

Lemma getitems_raises (h : heap) d names :
  lookups names (columns d) = None ->
  exists e, getitems (length h) names (h ++ [d]) = (Raise e, h ++ [d]).
Proof.
  induction names as [|n rest IH]; simpl; intros H; [discriminate|].
  unfold bind at 1. rewrite getitem_last.
  destruct (Frame.lookup n (columns d)) as [s|]; [|eexists; reflexivity].
  destruct (lookups rest (columns d)) as [ss|] eqn:E; [discriminate|].
  destruct (IH eq_refl) as [e He].
  unfold bind. rewrite He. eauto.
Qed.

Lemma method1_run f (h : heap) r d :
  nth_error h r = Some d ->
  method1 f r h = (Ok (length h), h ++ [f d]).
Proof.
  intros H. unfold method1, bind, deref, new. now rewrite H.
Qed.

Lemma method2_run f (h : heap) a b x y :
  nth_error h a = Some x -> nth_error h b = Some y ->
  method2 f a b h = (Ok (length h), h ++ [f x y]).
Proof.
  intros Ha Hb. unfold method2, bind, deref, new. now rewrite Ha, Hb.
Qed.

(** ** [create_lag_features] on the heap *)

Lemma target_not_lag lag : String.eqb target (lag_name lag) = false.
Proof. reflexivity. Qed.

Lemma target_not_roll win : String.eqb target (roll_name win) = false.
Proof. reflexivity. Qed.

Lemma lookup_target_add_lag x df lag :
  Frame.lookup target (columns (add_lag x df lag)) =
  Frame.lookup target (columns df).
Proof. apply lookup_assign_ne, target_not_lag. Qed.

Lemma lookup_target_add_roll x df win :
  Frame.lookup target (columns (add_roll x df win)) =
  Frame.lookup target (columns df).
Proof. apply lookup_assign_ne, target_not_roll. Qed.

Lemma lag_loop_run (h : heap) x lags : forall d,
  Frame.lookup target (columns d) = Some x ->
  for_ lags (fun lag =>
    bind (getitem (length h) target)
         (fun y => setitem (length h) (lag_name lag) (shift lag y)))
    (h ++ [d])
  = (Ok tt, h ++ [fold_left (add_lag x) lags d]).
Proof.
  induction lags as [|lag rest IH]; intros d Hx; simpl; [reflexivity|].
  unfold bind at 1. unfold bind at 1.
  rewrite getitem_last, Hx, setitem_last.
  apply IH. now rewrite lookup_target_add_lag.
Qed.

Lemma roll_loop_run (h : heap) x wins : forall d,
  Frame.lookup target (columns d) = Some x ->
  for_ wins (fun win =>
    bind (getitem (length h) target)
         (fun y => setitem (length h) (roll_name win)
                     (rolling_mean win (shift 1 y))))
    (h ++ [d])
  = (Ok tt, h ++ [fold_left (add_roll x) wins d]).
Proof.
  induction wins as [|win rest IH]; intros d Hx; simpl; [reflexivity|].
  unfold bind at 1. unfold bind at 1.
  rewrite getitem_last, Hx, setitem_last.
  apply IH. now rewrite lookup_target_add_roll.
Qed.

Lemma lookup_target_fold_lag x lags : forall d,
  Frame.lookup target (columns (fold_left (add_lag x) lags d)) =
  Frame.lookup target (columns d).
Proof.
  induction lags as [|lag rest IH]; intros d; simpl; [reflexivity|].
  now rewrite IH, lookup_target_add_lag.
Qed.

(** The heap after a call: the caller's frames are untouched, one frame
    is added.  With the target column present the call returns the new
    frame; without it, the first [df["use_house_overall"]] raises. *)
Lemma create_lag_features_run (h : heap) r df lags wins :
  nth_error h r = Some df ->
  create_lag_features r lags wins h =
  match lag_features lags wins df with
  | Some d => (Ok (length h), h ++ [d])
  | None => (Raise (KeyError target), h ++ [df])
  end.
Proof.
  intros Hr. unfold create_lag_features, copy, lag_features.
  unfold bind at 1. unfold bind at 1. unfold deref. rewrite Hr.
  unfold new.
  destruct (Frame.lookup target (columns df)) as [x|] eqn:Hx.
  - unfold bind at 1. rewrite (lag_loop_run h lags df Hx).
    unfold bind at 1. rewrite (roll_loop_run h (x := x))
      by now rewrite lookup_target_fold_lag.
    reflexivity.
  - destruct lags as [|lag lags].
    + destruct wins as [|win wins]; [reflexivity|].
      simpl for_. unfold bind, ret. cbv beta iota.
      now rewrite getitem_last, Hx.
    + simpl for_. unfold bind. now rewrite getitem_last, Hx.
Qed.

(** ** The columns [create_lag_features] writes *)

Lemma decimal_inj a b : decimal a = decimal b -> a = b.
Proof.
  unfold decimal. intros H.
  assert (E : Nat.to_uint a = Nat.to_uint b).
  { pose proof (NilEmpty.usu (Nat.to_uint a)) as Ha.
    pose proof (NilEmpty.usu (Nat.to_uint b)) as Hb.
    rewrite H in Ha. congruence. }
  apply (f_equal Nat.of_uint) in E.
  now rewrite !DecimalNat.Unsigned.of_to in E.
Qed.

Lemma lag_name_inj a b : lag_name a = lag_name b -> a = b.
Proof.
  unfold lag_name. simpl. intros H. injection H as H. now apply decimal_inj.
Qed.

Lemma roll_name_inj a b : roll_name a = roll_name b -> a = b.
Proof.
  unfold roll_name. simpl. intros H. injection H as H. now apply decimal_inj.
Qed.

Lemma lag_not_roll lag win : String.eqb (lag_name lag) (roll_name win) = false.
Proof. reflexivity. Qed.

Lemma roll_not_lag lag win : String.eqb (roll_name win) (lag_name lag) = false.
Proof. reflexivity. Qed.

Lemma lag_name_eqb a b : String.eqb (lag_name a) (lag_name b) = Nat.eqb a b.
Proof.
  destruct (Nat.eqb_spec a b) as [->|Hne].
  - apply String.eqb_refl.
  - apply String.eqb_neq. intros H. now apply lag_name_inj in H.
Qed.

Lemma roll_name_eqb a b : String.eqb (roll_name a) (roll_name b) = Nat.eqb a b.
Proof.
  destruct (Nat.eqb_spec a b) as [->|Hne].
  - apply String.eqb_refl.
  - apply String.eqb_neq. intros H. now apply roll_name_inj in H.
Qed.

Lemma fold_lag_index x lags : forall d,
  index (fold_left (add_lag x) lags d) = index d.
Proof. induction lags; intros d; simpl; [reflexivity|]. now rewrite IHlags. Qed.

Lemma fold_roll_index x wins : forall d,
  index (fold_left (add_roll x) wins d) = index d.
Proof. induction wins; intros d; simpl; [reflexivity|]. now rewrite IHwins. Qed.

Lemma lookup_fold_lag x k lags : forall d,
  Frame.lookup (lag_name k) (columns (fold_left (add_lag x) lags d)) =
  if existsb (Nat.eqb k) lags then Some (shift k x)
  else Frame.lookup (lag_name k) (columns d).
Proof.
  induction lags as [|a rest IH]; intros d; simpl; [reflexivity|].
  rewrite IH. unfold add_lag at 1. simpl columns.
  destruct (Nat.eqb_spec k a) as [->|Hne]; simpl.
  - rewrite lookup_assign_eq. now destruct (existsb _ rest).
  - rewrite lookup_assign_ne; [reflexivity|].
    rewrite lag_name_eqb. now apply Nat.eqb_neq.
Qed.

Lemma lookup_fold_roll x w wins : forall d,
  Frame.lookup (roll_name w) (columns (fold_left (add_roll x) wins d)) =
  if existsb (Nat.eqb w) wins then Some (rolling_mean w (shift 1 x))
  else Frame.lookup (roll_name w) (columns d).
Proof.
  induction wins as [|a rest IH]; intros d; simpl; [reflexivity|].
  rewrite IH. unfold add_roll at 1. simpl columns.
  destruct (Nat.eqb_spec w a) as [->|Hne]; simpl.
  - rewrite lookup_assign_eq. now destruct (existsb _ rest).
  - rewrite lookup_assign_ne; [reflexivity|].
    rewrite roll_name_eqb. now apply Nat.eqb_neq.
Qed.

Lemma lookup_fold_lag_other x name lags : forall d,
  (forall k, In k lags -> String.eqb name (lag_name k) = false) ->
  Frame.lookup name (columns (fold_left (add_lag x) lags d)) =
  Frame.lookup name (columns d).
Proof.
  induction lags as [|a rest IH]; intros d H; simpl; [reflexivity|].
  rewrite IH by (intros; apply H; now right).
  apply lookup_assign_ne, H. now left.
Qed.

Lemma lookup_fold_roll_other x name wins : forall d,
  (forall w, In w wins -> String.eqb name (roll_name w) = false) ->
  Frame.lookup name (columns (fold_left (add_roll x) wins d)) =
  Frame.lookup name (columns d).
Proof.
  induction wins as [|a rest IH]; intros d H; simpl; [reflexivity|].
  rewrite IH by (intros; apply H; now right).
  apply lookup_assign_ne, H. now left.
Qed.

Lemma existsb_eqb_in k l : In k l -> existsb (Nat.eqb k) l = true.
Proof.
  intros H. apply existsb_exists. exists k. split; [assumption|].
  apply Nat.eqb_refl.
Qed.

Section LagFeatures.

Variables (lags wins : list nat) (df d : DataFrame) (x : Series).
Hypothesis Hx : Frame.lookup target (columns df) = Some x.
Hypothesis Hd : lag_features lags wins df = Some d.

Lemma lag_features_unfold :
  d = fold_left (add_roll x) wins (fold_left (add_lag x) lags df).
Proof. unfold lag_features in Hd. rewrite Hx in Hd. now inversion Hd. Qed.

Lemma lag_features_index : index d = index df.
Proof.
  rewrite lag_features_unfold. now rewrite fold_roll_index, fold_lag_index.
Qed.

Lemma lag_features_lag k :
  In k lags -> Frame.lookup (lag_name k) (columns d) = Some (shift k x).
Proof.
  intros Hk. rewrite lag_features_unfold.
  rewrite lookup_fold_roll_other by (intros; apply lag_not_roll).
  now rewrite lookup_fold_lag, existsb_eqb_in.
Qed.

Lemma lag_features_roll w :
  In w wins ->
  Frame.lookup (roll_name w) (columns d) = Some (rolling_mean w (shift 1 x)).
Proof.
  intros Hw. rewrite lag_features_unfold.
  now rewrite lookup_fold_roll, existsb_eqb_in.
Qed.

Lemma lag_features_frame name :
  (forall k, In k lags -> name <> lag_name k) ->
  (forall w, In w wins -> name <> roll_name w) ->
  Frame.lookup name (columns d) = Frame.lookup name (columns df).
Proof.
  intros Hl Hw. rewrite lag_features_unfold.
  rewrite lookup_fold_roll_other
    by (intros; apply String.eqb_neq; now apply Hw).
  apply lookup_fold_lag_other.
  intros; apply String.eqb_neq; now apply Hl.
Qed.

Lemma lag_features_target : Frame.lookup target (columns d) = Some x.
Proof.
  rewrite lag_features_frame; [assumption| |].
  - intros k _ H. pose proof (target_not_lag k) as E.
    apply String.eqb_neq in E. contradiction.
  - intros w _ H. pose proof (target_not_roll w) as E.
    apply String.eqb_neq in E. contradiction.
Qed.

End LagFeatures.

(** ** Sorting by timestamp *)

Lemma insert_by_perm key p l : Permutation (Frame.insert_by key p l) (p :: l).
Proof.
  induction l as [|q rest IH]; simpl; [reflexivity|].
  destruct (key p <=? key q)%Z; [reflexivity|].
  rewrite IH. apply perm_swap.
Qed.

Lemma argsort_perm idx : Permutation (Frame.argsort idx) (seq 0 (length idx)).
Proof.
  unfold Frame.argsort. induction (seq 0 (length idx)) as [|p l IH]; simpl.
  - reflexivity.
  - rewrite insert_by_perm. now constructor.
Qed.

Lemma argsort_length idx : length (Frame.argsort idx) = length idx.
Proof.
  rewrite (Permutation_length (argsort_perm idx)). apply length_seq.
Qed.

Lemma insert_by_sorted key p l :
  StronglySorted Z.le (map key l) ->
  StronglySorted Z.le (map key (Frame.insert_by key p l)).
Proof.
  induction l as [|q rest IH]; simpl; intros H.
  - repeat constructor.
  - inversion H as [|? ? Hs Hall]; subst.
    destruct (Z.leb_spec (key p) (key q)).
    + simpl. constructor; [assumption|].
      constructor; [assumption|].
      eapply Forall_impl; [|exact Hall]. simpl. intros; lia.
    + simpl. constructor; [now apply IH|].
      apply Forall_forall. intros z Hz.
      apply in_map_iff in Hz. destruct Hz as [r [<- Hr]].
      apply (Permutation_in _ (insert_by_perm key p rest)) in Hr.
      destruct Hr as [<-|Hr]; [lia|].
      rewrite Forall_forall in Hall. apply Hall. now apply in_map.
Qed.

Lemma argsort_sorted idx :
  StronglySorted Z.le (map (fun p => nth p idx 0%Z) (Frame.argsort idx)).
Proof.
  unfold Frame.argsort. induction (seq 0 (length idx)) as [|p l IH]; simpl.
  - constructor.
  - now apply insert_by_sorted.
Qed.

Lemma map_nth_seq (A : Type) (l : list A) d :
  map (fun p => nth p l d) (seq 0 (length l)) = l.
Proof.
  apply nth_ext with (d := d) (d' := d).
  - now rewrite length_map, length_seq.
  - intros n Hn. rewrite length_map, length_seq in Hn.
    rewrite nth_indep with (d' := nth 0 l d) by now rewrite length_map, length_seq.
    rewrite map_nth with (f := fun p => nth p l d).
    now rewrite seq_nth.
Qed.

Lemma sort_index_perm df :
  Permutation (index (Frame.sort_index df)) (index df).
Proof.
  unfold Frame.sort_index. simpl.
  rewrite (Permutation_map _ (argsort_perm (index df))).
  now rewrite map_nth_seq.
Qed.

Lemma sort_index_sorted df :
  StronglySorted Z.le (index (Frame.sort_index df)).
Proof. apply argsort_sorted. Qed.

Lemma sorted_nodup_strict l :
  StronglySorted Z.le l -> NoDup l -> StronglySorted Z.lt l.
Proof.
  induction 1 as [|a l Hs IH Hall]; intros Hnd; constructor.
  - apply IH. now inversion Hnd.
  - inversion Hnd as [|? ? Hnotin _]; subst.
    rewrite Forall_forall in *. intros z Hz.
    specialize (Hall z Hz).
    assert (z <> a) by (intros ->; contradiction). lia.
Qed.

Lemma sort_index_strict df :
  NoDup (index df) -> StronglySorted Z.lt (index (Frame.sort_index df)).
Proof.
  intros H. apply sorted_nodup_strict; [apply sort_index_sorted|].
  eapply Permutation_NoDup; [|exact H].
  symmetry. apply sort_index_perm.
Qed.

Lemma strict_nodup l : StronglySorted Z.lt l -> NoDup l.
Proof.
  induction 1 as [|a l Hs IH Hall]; constructor; [|assumption].
  intros Hin. rewrite Forall_forall in Hall. specialize (Hall a Hin). lia.
Qed.

Lemma strict_app a b :
  StronglySorted Z.lt (a ++ b) ->
  StronglySorted Z.lt a /\ StronglySorted Z.lt b /\ precede a b.
Proof.
  induction a as [|x a IH]; simpl; intros H.
  - repeat split; [constructor|assumption|]. intros t u [].
  - inversion H as [|? ? Hs Hall]; subst.
    destruct (IH Hs) as [Ha [Hb Hp]].
    rewrite Forall_forall in Hall.
    repeat split; [|assumption|].
    + constructor; [assumption|]. apply Forall_forall.
      intros z Hz. apply Hall, in_or_app. now left.
    + intros t u [<-|Ht] Hu.
      * apply Hall, in_or_app. now right.
      * now apply Hp.
Qed.

Lemma strict_skipn n l : StronglySorted Z.lt l -> StronglySorted Z.lt (skipn n l).
Proof.
  intros H. rewrite <- (firstn_skipn n l) in H.
  now apply strict_app in H.
Qed.

Lemma precede_disjoint a b : precede a b -> disjoint a b.
Proof. intros H t Ha Hb. specialize (H t t Ha Hb). lia. Qed.

(** ** Index difference and label selection *)

Lemma unique_sorted_strict l :
  StronglySorted Z.lt l -> Frame.unique_sorted l = l.
Proof.
  induction 1 as [|a l Hs IH Hall]; simpl; [reflexivity|].
  rewrite IH. destruct l as [|u r]; simpl; [reflexivity|].
  inversion Hall; subst.
  now replace (a <? u)%Z with true by (symmetry; apply Z.ltb_lt; lia).
Qed.

Lemma mem_in t l : Frame.mem t l = true <-> In t l.
Proof.
  unfold Frame.mem. rewrite existsb_exists. split.
  - intros [u [Hu E]]. apply Z.eqb_eq in E. now subst.
  - intros H. exists t. split; [assumption|apply Z.eqb_refl].
Qed.

Lemma filter_none (A : Type) (f : A -> bool) l :
  (forall x, In x l -> f x = false) -> filter f l = [].
Proof.
  induction l as [|a l IH]; simpl; intros H; [reflexivity|].
  rewrite (H a) by now left. apply IH. intros; apply H; now right.
Qed.

Lemma filter_all (A : Type) (f : A -> bool) l :
  (forall x, In x l -> f x = true) -> filter f l = l.
Proof.
  induction l as [|a l IH]; simpl; intros H; [reflexivity|].
  rewrite (H a) by now left. f_equal. apply IH. intros; apply H; now right.
Qed.

(** The labels of [old ++ fresh] that are not in [seen], when [old] is
    part of [seen] and [fresh] is sorted and apart from [seen]. *)
Lemma difference_spill old fresh seen :
  incl old seen -> disjoint fresh seen -> StronglySorted Z.lt fresh ->
  Frame.difference (old ++ fresh) seen = fresh.
Proof.
  intros Hold Hfresh Hs. unfold Frame.difference.
  rewrite filter_app, filter_none, filter_all; simpl.
  - now apply unique_sorted_strict.
  - intros t Ht. apply negb_true_iff.
    destruct (Frame.mem t seen) eqn:E; [|reflexivity].
    apply mem_in in E. now apply Hfresh in Ht.
  - intros t Ht. apply negb_false_iff, mem_in. now apply Hold.
Qed.

Lemma positions_nodup l j :
  NoDup l -> j < length l -> Frame.positions l (nth j l 0%Z) = [j].
Proof.
  intros Hnd Hj. unfold Frame.positions.
  replace (length l) with (j + S (length l - S j)) by lia.
  rewrite seq_app, filter_app. simpl.
  rewrite Z.eqb_refl.
  rewrite !filter_none; [reflexivity| |].
  - intros p Hp. apply in_seq in Hp. apply Z.eqb_neq. intros E.
    apply (proj1 (NoDup_nth l 0%Z) Hnd) in E; lia.
  - intros p Hp. apply in_seq in Hp. apply Z.eqb_neq. intros E.
    apply (proj1 (NoDup_nth l 0%Z) Hnd) in E; lia.
Qed.

Lemma skipn_as_map (A : Type) (l : list A) d h :
  skipn h l = map (fun p => nth p l d) (seq h (length l - h)).
Proof.
  revert h. induction l as [|a l IH]; intros h.
  - destruct h; reflexivity.
  - destruct h as [|h].
    + simpl skipn. rewrite Nat.sub_0_r. now rewrite map_nth_seq.
    + simpl skipn. rewrite (IH h). simpl length.
      replace (S (length l) - S h) with (length l - h) by lia.
      rewrite <- seq_shift, map_map. reflexivity.
Qed.

Lemma positions_of_suffix l h :
  NoDup l ->
  flat_map (Frame.positions l) (skipn h l) = seq h (length l - h).
Proof.
  intros Hnd. rewrite (skipn_as_map l 0%Z h).
  assert (H : forall p, In p (seq h (length l - h)) -> p < length l).
  { intros p Hp. apply in_seq in Hp. lia. }
  induction (seq h (length l - h)) as [|p ps IH]; simpl; [reflexivity|].
  rewrite positions_nodup by (auto; apply H; now left).
  simpl. f_equal. apply IH. intros; apply H; now right.
Qed.

(** ** Reading frames built by the pandas methods *)

Lemma lookup_map_columns f name cols :
  Frame.lookup name (Frame.map_columns f cols) =
  option_map f (Frame.lookup name cols).
Proof.
  induction cols as [|[n x] rest IH]; simpl; [reflexivity|].
  destruct (String.eqb name n); [reflexivity|assumption].
Qed.

Lemma lookup_app name (a b : list (string * list (option Q))) :
  Frame.lookup name (a ++ b) =
  match Frame.lookup name a with
  | Some s => Some s
  | None => Frame.lookup name b
  end.
Proof.
  induction a as [|[n x] rest IH]; simpl; [reflexivity|].
  destruct (String.eqb name n); [reflexivity|assumption].
Qed.

Lemma lookup_concat name a b :
  Frame.lookup name (columns (Frame.concat a b)) =
  match Frame.lookup name (columns a) with
  | Some sa => Some (sa ++ Frame.column_or_nan name b)
  | None =>
      match Frame.lookup name (columns b) with
      | Some sb => Some (nan_fill (Frame.len a) ++ sb)
      | None => None
      end
  end.
Proof.
  unfold Frame.concat. simpl columns. rewrite lookup_app.
  assert (E1 : Frame.lookup name
            (map (fun c => (fst c, snd c ++ Frame.column_or_nan (fst c) b))
                 (columns a)) =
          option_map (fun sa => sa ++ Frame.column_or_nan name b)
                     (Frame.lookup name (columns a))).
  { induction (columns a) as [|[n x] rest IH]; simpl; [reflexivity|].
    destruct (String.eqb name n) eqn:E; [|assumption].
    apply String.eqb_eq in E. now subst. }
  rewrite E1. clear E1.
  destruct (Frame.lookup name (columns a)) as [sa|] eqn:Ha; simpl.
  - reflexivity.
  - induction (columns b) as [|[n x] rest IH]; simpl; [reflexivity|].
    unfold Frame.has_column at 1. simpl fst.
    destruct (String.eqb name n) eqn:E.
    + apply String.eqb_eq in E. subst n. rewrite Ha. simpl.
      now rewrite String.eqb_refl.
    + destruct (Frame.lookup n (columns a)); simpl; [assumption|].
      now rewrite E.
Qed.

Lemma at_map_at (s : Series) ps j :
  j < length ps -> at_ (map (at_ s) ps) j = at_ s (nth j ps 0).
Proof.
  intros Hj. unfold at_ at 1.
  rewrite nth_indep with (d' := at_ s 0) by now rewrite length_map.
  now rewrite map_nth.
Qed.

Lemma value_take_rows ps df name j :
  j < length ps ->
  Frame.value (Frame.take_rows ps df) name j = Frame.value df name (nth j ps 0).
Proof.
  intros Hj. unfold Frame.value, Frame.take_rows. simpl columns.
  rewrite lookup_map_columns.
  destruct (Frame.lookup name (columns df)); simpl; [|reflexivity].
  now apply at_map_at.
Qed.

Lemma at_firstn (s : Series) n i : i < n -> at_ (firstn n s) i = at_ s i.
Proof.
  intros H. unfold at_. rewrite nth_firstn.
  now replace (i <? n) with true by (symmetry; apply Nat.ltb_lt; lia).
Qed.

Lemma at_skipn (s : Series) n i : at_ (skipn n s) i = at_ s (n + i).
Proof. unfold at_. apply nth_skipn. Qed.

Lemma at_app_l (a b : Series) i : i < length a -> at_ (a ++ b) i = at_ a i.
Proof. intros. unfold at_. now apply app_nth1. Qed.

Lemma at_app_r (a b : Series) i :
  length a <= i -> at_ (a ++ b) i = at_ b (i - length a).
Proof. intros. unfold at_. now apply app_nth2. Qed.

(** ** The notebook cells on the heap *)

Ltac run_heap :=
  repeat (progress (cbv beta iota zeta delta
                      [bind new method1 method2 deref ret fst snd];
                    simpl nth_error; simpl length; simpl app)).

Lemma len_sort_index df : Frame.len (Frame.sort_index df) = Frame.len df.
Proof.
  unfold Frame.len, Frame.sort_index. simpl.
  now rewrite length_map, argsort_length.
Qed.

Lemma split_run_unfold df0 sz :
  split_index (Z.of_nat (Frame.len df0)) = Some sz ->
  split_run df0 =
  Ok (train_rows (Z.to_nat sz) df0, forecast_rows (Z.to_nat sz) df0).
Proof.
  intros Hs. unfold split_run, frames, load, split.
  run_heap. rewrite len_sort_index, Hs. run_heap. reflexivity.
Qed.

Lemma lag_run_unfold df0 sz T F1 :
  split_index (Z.of_nat (Frame.len df0)) = Some sz ->
  lag_features train_lags train_windows (train_rows (Z.to_nat sz) df0) = Some T ->
  lag_features forecast_lags forecast_windows
    (forecast_input T (forecast_rows (Z.to_nat sz) df0)) = Some F1 ->
  lag_run df0 = Ok (T, keep_new F1 T).
Proof.
  intros Hs HT HF. unfold lag_run, frames, load, split.
  run_heap. rewrite len_sort_index, Hs. run_heap.
  unfold lag_cell. run_heap.
  erewrite create_lag_features_run by reflexivity.
  fold (sorted_input df0). fold (train_rows (Z.to_nat sz) df0).
  rewrite HT. run_heap.
  unfold spillover_input. run_heap.
  erewrite create_lag_features_run by reflexivity.
  fold (forecast_rows (Z.to_nat sz) df0).
  fold (forecast_input T (forecast_rows (Z.to_nat sz) df0)).
  rewrite HF. run_heap.
  unfold keep_new_rows. run_heap. reflexivity.
Qed.

Lemma lag_features_some lags wins df x :
  Frame.lookup target (columns df) = Some x ->
  lag_features lags wins df =
  Some (fold_left (add_roll x) wins (fold_left (add_lag x) lags df)).
Proof. intros H. unfold lag_features. now rewrite H. Qed.

Lemma skipn_skipn_add (A : Type) (l : list A) a b :
  skipn a (skipn b l) = skipn (a + b) l.
Proof.
  revert l. induction b as [|b IH]; intros l.
  - now rewrite Nat.add_0_r.
  - destruct l as [|y l].
    + now rewrite !skipn_nil.
    + rewrite Nat.add_succ_r. simpl. apply IH.
Qed.

Lemma in_skipn (A : Type) (x : A) n l : In x (skipn n l) -> In x l.
Proof.
  intros H. rewrite <- (firstn_skipn n l). apply in_or_app. now right.
Qed.

(** The last rows of a prefix, followed by the rest, are a suffix. *)
Lemma spill_suffix (A : Type) (l : list A) s n :
  s <= length l ->
  skipn (s - n) (firstn s l) ++ skipn s l = skipn (s - n) l.
Proof.
  intros Hs. rewrite <- (firstn_skipn s l) at 3.
  rewrite skipn_app, length_firstn.
  replace (s - n - Nat.min s (length l)) with 0 by lia.
  reflexivity.
Qed.

Lemma columns_iloc_to s df :
  columns (Frame.iloc_to s df) = Frame.map_columns (firstn s) (columns df).
Proof. reflexivity. Qed.

Lemma columns_iloc_from s df :
  columns (Frame.iloc_from s df) = Frame.map_columns (skipn s) (columns df).
Proof. reflexivity. Qed.

Lemma index_concat a b : index (Frame.concat a b) = index a ++ index b.
Proof. reflexivity. Qed.

Lemma index_tail n df :
  index (Frame.tail n df) = skipn (Frame.len df - n) (index df).
Proof. reflexivity. Qed.

Lemma index_take_rows ps df :
  index (Frame.take_rows ps df) = map (fun p => nth p (index df) 0%Z) ps.
Proof. reflexivity. Qed.

(** ** The lag-feature cell on a table with unique timestamps *)

Section LagCell.

Variables (df0 : DataFrame) (x0 : list (option Q)) (s : nat).
Hypothesis Hnd : NoDup (index df0).
Hypothesis Hx0 : Frame.lookup target (columns df0) = Some x0.
Hypothesis Hs : s <= Frame.len df0.

(** The sorted timestamps and the target column of the sorted table. *)
Let L : list Z := index (sorted_input df0).
Let X : list (option Q) := series_of target (sorted_input df0).
(** The number of spillover rows. *)
Let h : nat := Nat.min spillover s.

Let T0 := train_rows s df0.
Let F0 := forecast_rows s df0.
Let T := train_frame s df0.
Let X' := skipn (s - spillover) X.
Let FI := forecast_input T F0.
Let F1 := forecast_features s df0.
Let F := forecast_frame s df0.

Lemma L_length : length L = Frame.len df0.
Proof.
  unfold L, sorted_input, Frame.sort_index. simpl.
  now rewrite length_map, argsort_length.
Qed.

Lemma X_eq : X = map (at_ x0) (Frame.argsort (index df0)).
Proof.
  unfold X, series_of, sorted_input, Frame.sort_index, Frame.take_rows.
  simpl columns. now rewrite lookup_map_columns, Hx0.
Qed.

Lemma lookup_target_sorted :
  Frame.lookup target (columns (sorted_input df0)) = Some X.
Proof.
  rewrite X_eq.
  unfold sorted_input, Frame.sort_index, Frame.take_rows.
  simpl columns. now rewrite lookup_map_columns, Hx0.
Qed.

Lemma X_length : length X = Frame.len df0.
Proof. rewrite X_eq. now rewrite length_map, argsort_length. Qed.

Lemma L_strict : StronglySorted Z.lt L.
Proof. now apply sort_index_strict. Qed.

Lemma lookup_target_T0 :
  Frame.lookup target (columns T0) = Some (firstn s X).
Proof.
  unfold T0, train_rows.
  now rewrite columns_iloc_to, lookup_map_columns, lookup_target_sorted.
Qed.

Lemma lookup_target_F0 :
  Frame.lookup target (columns F0) = Some (skipn s X).
Proof.
  unfold F0, forecast_rows.
  now rewrite columns_iloc_from, lookup_map_columns, lookup_target_sorted.
Qed.

Lemma T_lag_features :
  lag_features train_lags train_windows T0 = Some T.
Proof.
  unfold T, train_frame, generated. fold T0.
  now rewrite (lag_features_some _ _ _ lookup_target_T0).
Qed.

Lemma index_T : index T = firstn s L.
Proof.
  rewrite (lag_features_index _ _ _ lookup_target_T0 T_lag_features).
  reflexivity.
Qed.

Lemma len_T : Frame.len T = s.
Proof.
  unfold Frame.len. rewrite index_T, length_firstn, L_length. lia.
Qed.

Lemma index_FI : index FI = skipn (s - spillover) L.
Proof.
  unfold FI, forecast_input.
  rewrite index_concat, index_tail, len_T, index_T.
  apply spill_suffix. rewrite L_length. exact Hs.
Qed.

Lemma lookup_target_T : Frame.lookup target (columns T) = Some (firstn s X).
Proof. exact (lag_features_target _ _ _ lookup_target_T0 T_lag_features). Qed.

Lemma lookup_target_FI : Frame.lookup target (columns FI) = Some X'.
Proof.
  unfold FI, forecast_input. rewrite lookup_concat.
  unfold Frame.tail at 1. rewrite columns_iloc_from, lookup_map_columns.
  rewrite lookup_target_T.
  simpl option_map. unfold Frame.column_or_nan.
  rewrite lookup_target_F0. rewrite len_T.
  unfold X'. f_equal. apply spill_suffix. rewrite X_length. exact Hs.
Qed.

Lemma F1_lag_features :
  lag_features forecast_lags forecast_windows FI = Some F1.
Proof.
  unfold F1, forecast_features, generated. fold T F0 FI.
  now rewrite (lag_features_some _ _ _ lookup_target_FI).
Qed.

Lemma index_F1 : index F1 = skipn (s - spillover) L.
Proof.
  rewrite (lag_features_index _ _ _ lookup_target_FI F1_lag_features).
  apply index_FI.
Qed.

Lemma new_labels :
  Frame.difference (index F1) (index T) = skipn s L.
Proof.
  rewrite index_F1, index_T.
  rewrite <- (@spill_suffix _ L s spillover) by (rewrite L_length; exact Hs).
  pose proof L_strict as HL.
  rewrite <- (firstn_skipn s L) in HL.
  apply strict_app in HL. destruct HL as [_ [Hsk Hp]].
  apply difference_spill.
  - intros t Ht. eapply in_skipn. exact Ht.
  - intros t Ht Hin. specialize (Hp t t Hin Ht). lia.
  - exact Hsk.
Qed.

Lemma F_rows : F = Frame.take_rows (seq h (Frame.len df0 - s)) F1.
Proof.
  unfold F, forecast_frame, keep_new, Frame.loc. fold T F1.
  rewrite new_labels.
  f_equal. rewrite index_F1.
  replace (skipn s L) with (skipn h (skipn (s - spillover) L))
    by (rewrite skipn_skipn_add; f_equal; unfold h; lia).
  rewrite positions_of_suffix
    by (apply strict_nodup, strict_skipn, L_strict).
  f_equal. rewrite length_skipn, L_length. unfold h. lia.
Qed.

Lemma index_F : index F = skipn s L.
Proof.
  rewrite F_rows, index_take_rows, index_F1.
  replace (Frame.len df0 - s)
    with (length (skipn (s - spillover) L) - h)
    by (rewrite length_skipn, L_length; unfold h; lia).
  rewrite <- skipn_as_map, skipn_skipn_add.
  f_equal. unfold h. lia.
Qed.

Lemma len_F : Frame.len F = Frame.len df0 - s.
Proof. unfold Frame.len. now rewrite index_F, length_skipn, L_length. Qed.

Lemma value_F name j :
  j < Frame.len df0 - s ->
  Frame.value F name j = Frame.value F1 name (h + j).
Proof.
  intros Hj. rewrite F_rows, value_take_rows by now rewrite length_seq.
  now rewrite seq_nth.
Qed.

Lemma X'_length : length X' = h + (Frame.len df0 - s).
Proof. unfold X', h. rewrite length_skipn, X_length. lia. Qed.

Lemma at_X' i : at_ X' i = at_ X (s - spillover + i).
Proof. apply at_skipn. Qed.

(** [lag_k] on the rows kept for the forecast segment. *)
Lemma F_lag k j :
  In k forecast_lags -> j < Frame.len df0 - s ->
  Frame.value F (lag_name k) j =
  if h + j <? k then None else at_ X (s + j - k).
Proof.
  intros Hk Hj. rewrite value_F by assumption.
  unfold Frame.value.
  rewrite (lag_features_lag _ _ _ lookup_target_FI F1_lag_features _ Hk).
  rewrite at_shift by (rewrite X'_length; lia).
  destruct (Nat.ltb_spec (h + j) k); [reflexivity|].
  rewrite at_X'. f_equal. unfold h in *. lia.
Qed.

(** [roll_mean_w] on the rows kept for the forecast segment. *)
Lemma F_roll w j :
  In w forecast_windows -> j < Frame.len df0 - s ->
  Frame.value F (roll_name w) j =
  if h + j <? w then None else mean_of (previous w X (s + j)).
Proof.
  intros Hw Hj. rewrite value_F by assumption.
  unfold Frame.value.
  rewrite (lag_features_roll _ _ _ lookup_target_FI F1_lag_features _ Hw).
  rewrite at_rolling_shift by (rewrite X'_length; lia).
  destruct (Nat.ltb_spec (h + j) w); [reflexivity|].
  f_equal. unfold previous, X'. rewrite skipn_skipn_add.
  do 2 f_equal. unfold h in *. lia.
Qed.

Lemma not_forecast_feature name :
  ~ In name forecast_feature_names ->
  (forall k, In k forecast_lags -> name <> lag_name k) /\
  (forall w, In w forecast_windows -> name <> roll_name w).
Proof.
  intros H. split; intros n Hn ->; apply H, in_or_app.
  - left. now apply in_map.
  - right. now apply in_map.
Qed.

Lemma not_feature name :
  ~ In name feature_names ->
  (forall k, In k train_lags -> name <> lag_name k) /\
  (forall w, In w train_windows -> name <> roll_name w).
Proof.
  intros H. split; intros n Hn ->; apply H, in_or_app.
  - left. now apply in_map.
  - right. now apply in_map.
Qed.

Lemma lookup_F1_FI name :
  ~ In name forecast_feature_names ->
  Frame.lookup name (columns F1) = Frame.lookup name (columns FI).
Proof.
  intros H. destruct (not_forecast_feature H).
  now apply (lag_features_frame _ _ _ lookup_target_FI F1_lag_features).
Qed.

Lemma sorted_column_length name c :
  Frame.lookup name (columns (sorted_input df0)) = Some c ->
  length c = Frame.len df0.
Proof.
  unfold sorted_input, Frame.sort_index, Frame.take_rows. simpl columns.
  rewrite lookup_map_columns.
  destruct (Frame.lookup name (columns df0)); simpl; intros E;
    inversion E. now rewrite length_map, argsort_length.
Qed.

(** A column of the input that no call writes is carried over row by
    row. *)
Lemma F_input_column name j :
  ~ In name feature_names -> j < Frame.len df0 - s ->
  Frame.value F name j = Frame.value (sorted_input df0) name (s + j).
Proof.
  intros Hn Hj. rewrite value_F by assumption.
  assert (Hnf : ~ In name forecast_feature_names).
  { intros Hin. apply Hn. unfold forecast_feature_names, feature_names in *.
    apply in_app_or in Hin. apply in_or_app.
    destruct Hin as [Hin|Hin]; [left|right];
      apply in_map_iff in Hin; destruct Hin as [n [<- Hin]];
      apply in_map; simpl in Hin |- *; intuition. }
  unfold Frame.value. rewrite (lookup_F1_FI Hnf).
  unfold FI, forecast_input. rewrite lookup_concat.
  unfold Frame.tail at 1. rewrite columns_iloc_from, lookup_map_columns.
  destruct (not_feature Hn) as [Hl Hw].
  rewrite (lag_features_frame _ _ _ lookup_target_T0 T_lag_features Hl Hw).
  unfold T0, train_rows. rewrite columns_iloc_to, lookup_map_columns.
  unfold Frame.column_or_nan, F0, forecast_rows.
  rewrite columns_iloc_from, lookup_map_columns.
  destruct (Frame.lookup name (columns (sorted_input df0))) as [c|] eqn:E;
    simpl; [|reflexivity].
  rewrite len_T, spill_suffix by (rewrite (sorted_column_length _ E); exact Hs).
  rewrite at_skipn. f_equal. unfold h. lia.
Qed.

(** A column that only the training call writes: the forecast rows get
    NaN from the concatenation and nothing fills them afterwards. *)
Lemma F_stale name j :
  In name feature_names -> ~ In name forecast_feature_names ->
  Frame.lookup name (columns df0) = None ->
  j < Frame.len df0 - s ->
  Frame.value F name j = None.
Proof.
  intros Hin Hnf Hraw Hj. rewrite value_F by assumption.
  unfold Frame.value. rewrite (lookup_F1_FI Hnf).
  unfold FI, forecast_input. rewrite lookup_concat.
  unfold Frame.tail at 1. rewrite columns_iloc_from, lookup_map_columns.
  assert (HF0 : Frame.lookup name (columns F0) = None).
  { unfold F0, forecast_rows, sorted_input, Frame.sort_index, Frame.take_rows.
    rewrite columns_iloc_from. simpl columns.
    now rewrite !lookup_map_columns, Hraw. }
  assert (HT : exists c, Frame.lookup name (columns T) = Some c /\
                         length c = s).
  { unfold feature_names in Hin. apply in_app_or in Hin.
    destruct Hin as [Hin|Hin]; apply in_map_iff in Hin;
      destruct Hin as [n [<- Hin]].
    - rewrite (lag_features_lag _ _ _ lookup_target_T0 T_lag_features _ Hin).
      eexists; split; [reflexivity|].
      rewrite shift_length, length_firstn, X_length. lia.
    - rewrite (lag_features_roll _ _ _ lookup_target_T0 T_lag_features _ Hin).
      eexists; split; [reflexivity|].
      rewrite rolling_mean_length, shift_length, length_firstn, X_length.
      lia. }
  destruct HT as [c [-> Hc]]. simpl option_map.
  unfold Frame.column_or_nan. rewrite HF0, len_T.
  rewrite at_app_r by (rewrite length_skipn, Hc; unfold h; lia).
  unfold at_. apply nth_nan_fill.
Qed.

End LagCell.

(** ** The split point beyond the end of the table

    Slicing clamps: a split point past the last row gives the same
    frames as one at the last row. *)

Lemma firstn_clamp (A : Type) (l : list A) n :
  firstn (Nat.min n (length l)) l = firstn n l.
Proof.
  destruct (Nat.le_ge_cases n (length l)).
  - now rewrite Nat.min_l.
  - rewrite Nat.min_r by assumption.
    now rewrite firstn_all, firstn_all2.
Qed.

Lemma skipn_clamp (A : Type) (l : list A) n :
  skipn (Nat.min n (length l)) l = skipn n l.
Proof.
  destruct (Nat.le_ge_cases n (length l)).
  - now rewrite Nat.min_l.
  - rewrite Nat.min_r by assumption.
    now rewrite skipn_all, skipn_all2.
Qed.

Lemma map_columns_ext_in f g (cols : list (string * list (option Q))) :
  (forall c, In c cols -> f (snd c) = g (snd c)) ->
  Frame.map_columns f cols = Frame.map_columns g cols.
Proof.
  intros H. unfold Frame.map_columns. apply map_ext_in.
  intros c Hc. now rewrite H.
Qed.

Lemma sorted_input_columns df0 c :
  In c (columns (sorted_input df0)) -> length (snd c) = Frame.len df0.
Proof.
  unfold sorted_input, Frame.sort_index, Frame.take_rows, Frame.map_columns.
  simpl columns. intros H. apply in_map_iff in H.
  destruct H as [c0 [<- _]]. simpl.
  now rewrite length_map, argsort_length.
Qed.

Lemma len_sorted_input df0 : Frame.len (sorted_input df0) = Frame.len df0.
Proof. apply len_sort_index. Qed.

Lemma train_rows_clamp s df0 :
  train_rows (Nat.min s (Frame.len df0)) df0 = train_rows s df0.
Proof.
  unfold train_rows, Frame.iloc_to. f_equal.
  - rewrite <- (len_sorted_input df0). apply firstn_clamp.
  - apply map_columns_ext_in. intros c Hc.
    rewrite <- (sorted_input_columns _ _ Hc). apply firstn_clamp.
Qed.

Lemma forecast_rows_clamp s df0 :
  forecast_rows (Nat.min s (Frame.len df0)) df0 = forecast_rows s df0.
Proof.
  unfold forecast_rows, Frame.iloc_from. f_equal.
  - rewrite <- (len_sorted_input df0). apply skipn_clamp.
  - apply map_columns_ext_in. intros c Hc.
    rewrite <- (sorted_input_columns _ _ Hc). apply skipn_clamp.
Qed.

(** The number of training rows for a split point [sz]. *)
Lemma train_frame_clamp s df0 :
  train_frame (Nat.min s (Frame.len df0)) df0 = train_frame s df0.
Proof. unfold train_frame. now rewrite train_rows_clamp. Qed.

Lemma forecast_frame_clamp s df0 :
  forecast_frame (Nat.min s (Frame.len df0)) df0 = forecast_frame s df0.
Proof.
  unfold forecast_frame, forecast_features.
  now rewrite train_frame_clamp, forecast_rows_clamp.
Qed.

Lemma generated_some lags wins df x :
  Frame.lookup target (columns df) = Some x ->
  lag_features lags wins df = Some (generated lags wins df).
Proof.
  intros H. unfold generated. now rewrite (lag_features_some _ _ _ H).
Qed.

(** With the target column present the lag-feature cell raises nothing
    and returns the two frames. *)
Lemma lag_run_frames df0 x0 sz :
  Frame.lookup target (columns df0) = Some x0 ->
  split_index (Z.of_nat (Frame.len df0)) = Some sz ->
  lag_run df0 =
  Ok (train_frame (Z.to_nat sz) df0, forecast_frame (Z.to_nat sz) df0).
Proof.
  intros Hx Hsz. unfold forecast_frame.
  pose proof (lookup_target_T0 df0 (Z.to_nat sz) Hx) as HT0.
  pose proof (generated_some train_lags train_windows _ HT0) as HT.
  apply (lag_run_unfold _ Hsz).
  - exact HT.
  - unfold forecast_features.
    pose proof (lag_features_target _ _ _ HT0 HT) as Ht.
    fold (train_frame (Z.to_nat sz) df0) in Ht.
    assert (exists y, Frame.lookup target
              (columns (forecast_input (train_frame (Z.to_nat sz) df0)
                          (forecast_rows (Z.to_nat sz) df0))) = Some y)
      as [y Hy].
    { unfold forecast_input. rewrite lookup_concat.
      unfold Frame.tail at 1. rewrite columns_iloc_from, lookup_map_columns.
      rewrite Ht. simpl. eauto. }
    exact (generated_some _ _ _ Hy).
Qed.

(** * The split point in binary64 *)

Local Open Scope Z_scope.

(** ** Binary digits *)

Lemma digits2_pos_succ p : Zpos (digits2_pos p~0) = Zpos (digits2_pos p) + 1.
Proof. simpl. lia. Qed.

Lemma digits2_bounds p :
  2 ^ (Zpos (digits2_pos p) - 1) <= Zpos p < 2 ^ Zpos (digits2_pos p).
Proof.
  induction p as [p IH|p IH|]; simpl digits2_pos.
  - rewrite Pos2Z.inj_succ.
    replace (Z.succ (Zpos (digits2_pos p)) - 1) with (Z.succ (Zpos (digits2_pos p) - 1)) by lia.
    rewrite !Z.pow_succ_r by lia. lia.
  - rewrite Pos2Z.inj_succ.
    replace (Z.succ (Zpos (digits2_pos p)) - 1) with (Z.succ (Zpos (digits2_pos p) - 1)) by lia.
    rewrite !Z.pow_succ_r by lia. lia.
  - simpl. lia.
Qed.

Lemma digits2_unique p d :
  2 ^ (d - 1) <= Zpos p < 2 ^ d -> Zpos (digits2_pos p) = d.
Proof.
  intros [Hlo Hhi]. pose proof (digits2_bounds p) as [Blo Bhi].
  assert (0 < d).
  { destruct (Z.ltb_spec 0 d); [assumption|].
    destruct (Z.eq_dec d 0) as [->|]; [simpl in Hhi; lia|].
    rewrite Z.pow_neg_r in Hhi by lia. lia. }
  destruct (Z.lt_trichotomy (Zpos (digits2_pos p)) d) as [Hlt|[Heq|Hgt]];
    [|assumption|].
  - assert (2 ^ Zpos (digits2_pos p) <= 2 ^ (d - 1))
      by (apply Z.pow_le_mono_r; lia). lia.
  - assert (2 ^ d <= 2 ^ (Zpos (digits2_pos p) - 1))
      by (apply Z.pow_le_mono_r; lia). lia.
Qed.

(** ** Right shifts with round and sticky bits *)

Lemma shr_1_m mrs :
  0 <= shr_m mrs ->
  shr_m (shr_1 mrs) = shr_m mrs / 2 /\ shr_r (shr_1 mrs) = Z.odd (shr_m mrs).
Proof.
  destruct mrs as [m r s]. simpl. intros Hm.
  destruct m as [|[p|p|]|p]; simpl; try lia; split; try reflexivity.
  - rewrite Pos2Z.inj_xI. apply Z.div_unique with (r := 1); lia.
  - rewrite Pos2Z.inj_xO. apply Z.div_unique with (r := 0); lia.
Qed.

Lemma div_pow2_add x a b :
  0 <= a -> 0 <= b -> x / 2 ^ a / 2 ^ b = x / 2 ^ (a + b).
Proof.
  intros Ha Hb. rewrite Z.pow_add_r by assumption.
  assert (0 < 2 ^ a) by (apply Z.pow_pos_nonneg; lia).
  assert (0 < 2 ^ b) by (apply Z.pow_pos_nonneg; lia).
  apply Z.div_div; lia.
Qed.

Lemma shr_iter n mrs :
  0 <= shr_m mrs ->
  shr_m (iter_pos shr_1 n mrs) = shr_m mrs / 2 ^ Zpos n /\
  shr_r (iter_pos shr_1 n mrs) = Z.odd (shr_m mrs / 2 ^ (Zpos n - 1)).
Proof.
  assert (Hpos : forall x k, 0 <= x -> 0 <= x / 2 ^ k).
  { intros x k Hx. destruct (Z.le_gt_cases 0 k).
    - apply Z.div_pos; [assumption|apply Z.pow_pos_nonneg; lia].
    - rewrite Z.pow_neg_r by assumption. now rewrite Z.div_0_r. }
  revert mrs. induction n as [n IH|n IH|]; intros mrs Hm.
  - simpl iter_pos.
    destruct (shr_1_m mrs Hm) as [E1 R1].
    assert (H1 : 0 <= shr_m (shr_1 mrs))
      by (rewrite E1; apply Z.div_pos; lia).
    destruct (IH _ H1) as [E2 R2].
    assert (H2 : 0 <= shr_m (iter_pos shr_1 n (shr_1 mrs)))
      by (rewrite E2; now apply Hpos).
    destruct (IH _ H2) as [E3 R3].
    rewrite E3, R3, E2, E1.
    change (shr_m mrs / 2) with (shr_m mrs / 2 ^ 1).
    rewrite !div_pow2_add by lia.
    split; do 3 f_equal; lia.
  - simpl iter_pos.
    destruct (IH _ Hm) as [E2 R2].
    assert (H2 : 0 <= shr_m (iter_pos shr_1 n mrs))
      by (rewrite E2; now apply Hpos).
    destruct (IH _ H2) as [E3 R3].
    rewrite E3, R3, E2.
    rewrite !div_pow2_add by lia.
    split; do 3 f_equal; lia.
  - simpl iter_pos. destruct (shr_1_m mrs Hm) as [E1 R1].
    rewrite E1, R1. simpl. rewrite Z.div_1_r. split; reflexivity.
Qed.

(** ** Rounding a wide mantissa to binary64 *)

Lemma shr_fexp_wide P e :
  prec < Zpos (digits2_pos P) -> emin prec emax <= e ->
  shr_fexp prec emax (Zpos P) e loc_Exact =
  (iter_pos shr_1 (Z.to_pos (Zpos (digits2_pos P) - prec))
     (Build_shr_record (Zpos P) false false),
   e + (Zpos (digits2_pos P) - prec)).
Proof.
  intros Hd He. unfold shr_fexp, fexp. simpl Zdigits2. simpl shr_record_of_loc.
  rewrite Z.max_l by (unfold emin, prec, emax in *; lia).
  replace (Zpos (digits2_pos P) + e - prec - e)
    with (Zpos (digits2_pos P) - prec) by lia.
  destruct (Zpos (digits2_pos P) - prec) as [|q|q] eqn:E; try lia.
  reflexivity.
Qed.

Lemma shr_fexp_fit M e :
  Zpos (digits2_pos M) = prec -> emin prec emax <= e ->
  shr_fexp prec emax (Zpos M) e loc_Exact =
  (Build_shr_record (Zpos M) false false, e).
Proof.
  intros Hd He. unfold shr_fexp, fexp. simpl Zdigits2. simpl shr_record_of_loc.
  rewrite Hd, Z.max_l by (unfold emin, prec, emax in *; lia).
  replace (prec + e - prec - e) with 0 by lia. reflexivity.
Qed.

Lemma shr_fexp_carry e :
  emin prec emax <= e ->
  shr_fexp prec emax (2 ^ 53) e loc_Exact =
  (Build_shr_record (2 ^ 52) false false, e + 1).
Proof.
  intros He. unfold shr_fexp, fexp.
  change (Zdigits2 (2 ^ 53)) with 54.
  rewrite Z.max_l by (unfold emin, prec, emax in *; lia).
  replace (54 + e - prec - e) with 1 by (unfold prec; lia).
  reflexivity.
Qed.

Lemma round_nearest_even_cases m mrs :
  shr_m mrs = m ->
  round_nearest_even m (loc_of_shr_record mrs) = m \/
  (round_nearest_even m (loc_of_shr_record mrs) = m + 1 /\ shr_r mrs = true).
Proof.
  intros <-. destruct mrs as [m [|] [|]]; simpl; auto.
  destruct (Z.even m); auto.
Qed.

(** The product of two 53-bit mantissas, rounded: the result is the
    quotient by [2^sh], possibly plus one, and it is plus one only if the
    bit below the cut is set. *)
Lemma binary_round_aux_wide P e :
  let d := Zpos (digits2_pos P) in
  let sh := d - prec in
  prec < d -> emin prec emax <= e -> e + sh < emax - prec ->
  exists M M' e2,
    binary_round_aux prec emax false (Zpos P) e loc_Exact =
      S754_finite false M' e2 /\
    (M = Zpos P / 2 ^ sh \/
     (M = Zpos P / 2 ^ sh + 1 /\ Z.odd (Zpos P / 2 ^ (sh - 1)) = true)) /\
    ((e2 = e + sh /\ Zpos M' = M) \/ (e2 = e + sh + 1 /\ 2 * Zpos M' = M)).
Proof.
  intros d sh Hd He Hmax.
  unfold binary_round_aux. rewrite shr_fexp_wide by assumption.
  fold d. fold sh.
  set (mrs := iter_pos shr_1 (Z.to_pos sh) _).
  assert (Hsh : Zpos (Z.to_pos sh) = sh) by (apply Z2Pos.id; unfold sh; lia).
  destruct (@shr_iter (Z.to_pos sh) (Build_shr_record (Zpos P) false false))
    as [Em Er]; [simpl; lia|].
  fold mrs in Em, Er. simpl shr_m in Em, Er. rewrite Hsh in Em, Er.
  pose proof (digits2_bounds P) as [Blo Bhi]. fold d in Blo, Bhi.
  assert (Hp : 0 < 2 ^ sh) by (apply Z.pow_pos_nonneg; unfold sh; lia).
  assert (Hd2 : 2 ^ (d - 1) = 2 ^ 52 * 2 ^ sh).
  { rewrite <- Z.pow_add_r by (unfold sh; lia). f_equal. unfold sh, prec. lia. }
  assert (Hd3 : 2 ^ d = 2 ^ 53 * 2 ^ sh).
  { rewrite <- Z.pow_add_r by (unfold sh; lia). f_equal. unfold sh, prec. lia. }
  assert (Hm1 : 2 ^ 52 <= shr_m mrs < 2 ^ 53).
  { rewrite Em. split.
    - apply Z.div_le_lower_bound; lia.
    - apply Z.div_lt_upper_bound; lia. }
  set (M := round_nearest_even (shr_m mrs) (loc_of_shr_record mrs)).
  assert (HM : M = Zpos P / 2 ^ sh \/
               (M = Zpos P / 2 ^ sh + 1 /\
                Z.odd (Zpos P / 2 ^ (sh - 1)) = true)).
  { destruct (@round_nearest_even_cases _ mrs eq_refl) as [E|[E R]];
      fold M in E; rewrite Em in E; [now left|right].
    split; [assumption|]. now rewrite <- Er. }
  assert (HMr : 2 ^ 52 <= M <= 2 ^ 53) by (rewrite Em in Hm1; lia).
  assert (He1 : emin prec emax <= e + sh) by (unfold sh in *; lia).
  destruct (Z.eq_dec M (2 ^ 53)) as [Ecarry|Hfit].
  - rewrite Ecarry, shr_fexp_carry by assumption. simpl shr_m.
    replace (e + sh + 1 <=? emax - prec) with true
      by (symmetry; apply Z.leb_le; lia).
    exists M, (Z.to_pos (2 ^ 52)), (e + sh + 1).
    repeat split; [assumption|]. right. split; [reflexivity|].
    rewrite Ecarry. reflexivity.
  - destruct M as [|Mp|Mp] eqn:EM; try (exfalso; lia).
    rewrite shr_fexp_fit; [|apply digits2_unique; unfold prec; lia|assumption].
    simpl shr_m.
    replace (e + sh <=? emax - prec) with true
      by (symmetry; apply Z.leb_le; lia).
    exists (Zpos Mp), Mp, (e + sh).
    repeat split; [assumption|]. now left.
Qed.

Lemma binary_round_aux_fit M e :
  Zpos (digits2_pos M) = prec -> emin prec emax <= e <= emax - prec ->
  binary_round_aux prec emax false (Zpos M) e loc_Exact = S754_finite false M e.
Proof.
  intros Hd He. unfold binary_round_aux.
  rewrite shr_fexp_fit by (assumption || lia). simpl shr_m.
  simpl round_nearest_even.
  rewrite shr_fexp_fit by (assumption || lia). simpl shr_m.
  now replace (e <=? emax - prec) with true by (symmetry; apply Z.leb_le; lia).
Qed.

Lemma iter_xO p k : Zpos (Pos.iter xO p k) = Zpos p * 2 ^ Zpos k.
Proof.
  induction k as [|k IH] using Pos.peano_ind.
  - simpl. lia.
  - rewrite Pos.iter_succ, Pos2Z.inj_xO, IH, Pos2Z.inj_succ.
    rewrite Z.pow_succ_r by lia. lia.
Qed.

Lemma digits_iter_xO p k :
  Zpos (digits2_pos (Pos.iter xO p k)) = Zpos (digits2_pos p) + Zpos k.
Proof.
  induction k as [|k IH] using Pos.peano_ind.
  - simpl. lia.
  - rewrite Pos.iter_succ, digits2_pos_succ, IH. lia.
Qed.

(** An integer below [2^53] converts exactly, to a float in normal form. *)
Lemma float_of_int_pos p :
  Zpos (digits2_pos p) <= prec ->
  exists mz,
    float_of_int (Zpos p) = S754_finite false mz (Zpos (digits2_pos p) - prec) /\
    Zpos mz = Zpos p * 2 ^ (prec - Zpos (digits2_pos p)) /\
    Zpos (digits2_pos mz) = prec.
Proof.
  intros Hd. unfold float_of_int, binary_normalize, binary_round.
  unfold fexp. rewrite Z.add_0_r.
  rewrite Z.max_l by (unfold emin, prec, emax in *; lia).
  unfold shl_align. rewrite Z.sub_0_r.
  destruct (Zpos (digits2_pos p) - prec) as [|k|k] eqn:E; try lia.
  - exists p. rewrite binary_round_aux_fit;
      [|lia|unfold emin, prec, emax; lia].
    repeat split; [|lia].
    replace (prec - Zpos (digits2_pos p)) with 0 by lia. simpl. lia.
  - exists (Pos.iter xO p k).
    assert (Hk : Zpos k = prec - Zpos (digits2_pos p)) by lia.
    rewrite binary_round_aux_fit.
    + repeat split.
      * rewrite iter_xO. now rewrite Hk.
      * rewrite digits_iter_xO. lia.
    + rewrite digits_iter_xO. lia.
    + pose proof (Pos2Z.is_pos (digits2_pos p)).
      unfold emin, prec, emax in *. lia.
Qed.

(** ** [int(n * 0.9)] *)

Lemma pow2_pos k : 0 <= k -> 0 < 2 ^ k.
Proof. intros. apply Z.pow_pos_nonneg; lia. Qed.

Lemma pow2_lt_inv a b : 2 ^ a < 2 ^ b -> 0 <= b -> a < b.
Proof.
  intros H Hb. destruct (Z.lt_ge_cases a b) as [|Hge]; [assumption|].
  assert (2 ^ b <= 2 ^ a) by (apply Z.pow_le_mono_r; lia). lia.
Qed.

(** A set bit just below the cut: the remainder is at least half. *)
Lemma odd_half a sh :
  0 <= a -> 1 <= sh -> Z.odd (a / 2 ^ (sh - 1)) = true ->
  2 ^ sh * (a / 2 ^ sh) + 2 ^ (sh - 1) <= a.
Proof.
  intros Ha Hsh Hodd.
  assert (Hh : 0 < 2 ^ (sh - 1)) by (apply pow2_pos; lia).
  assert (E : 2 ^ sh = 2 * 2 ^ (sh - 1)).
  { rewrite <- Z.pow_succ_r by lia. f_equal. lia. }
  pose proof (Z.div_mod a (2 ^ (sh - 1)) ltac:(lia)) as Hdm.
  pose proof (Z.mod_pos_bound a (2 ^ (sh - 1)) Hh) as Hr.
  set (b := a / 2 ^ (sh - 1)) in *.
  apply Z.odd_spec in Hodd. destruct Hodd as [c Hc].
  assert (Hq : a / 2 ^ sh = c).
  { symmetry. apply Z.div_unique with (r := 2 ^ (sh - 1) + a mod 2 ^ (sh - 1)).
    - lia.
    - rewrite E. rewrite Hc in Hdm. lia. }
  rewrite Hq, E. rewrite Hc in Hdm. lia.
Qed.

Lemma split_index_pos p :
  Zpos p <= 1250999896491804 ->
  split_index (Zpos p) = Some (Zpos p * 9 / 10).
Proof.
  intros Hn. set (n := Zpos p) in *.
  set (dn := Zpos (digits2_pos p)).
  pose proof (digits2_bounds p) as [Nlo Nhi]. fold dn n in Nlo, Nhi.
  assert (Hdn1 : 1 <= dn) by (unfold dn; lia).
  assert (Hdn : dn <= 51).
  { assert (2 ^ (dn - 1) < 2 ^ 51) by (change (2 ^ 51) with 2251799813685248; lia).
    apply pow2_lt_inv in H; lia. }
  destruct (@float_of_int_pos p) as [mz [Ef [Emz Hdz]]];
    [fold dn; unfold prec; lia|].
  fold dn n in Ef, Emz.
  unfold split_index, float_mul. rewrite Ef. unfold SFmul, ratio.
  simpl xorb.
  set (P := (mz * 8106479329266893)%positive).
  set (W := 2 ^ (prec - dn)) in *.
  assert (HW : 0 < W) by (apply pow2_pos; unfold prec; lia).
  pose proof (digits2_bounds mz) as [Zlo Zhi]. rewrite Hdz in Zlo, Zhi.
  change (2 ^ (prec - 1)) with 4503599627370496 in Zlo.
  change (2 ^ prec) with 9007199254740992 in Zhi.
  assert (EP : Zpos P = n * W * 8106479329266893).
  { unfold P. rewrite Pos2Z.inj_mul, Emz. reflexivity. }
  set (dP := Zpos (digits2_pos P)).
  pose proof (digits2_bounds P) as [Plo Phi]. fold dP in Plo, Phi.
  assert (HdP : 105 <= dP <= 106).
  { split.
    - assert (2 ^ 104 < 2 ^ dP)
        by (change (2 ^ 104) with 20282409603651670423947251286016; nia).
      apply pow2_lt_inv in H; unfold dP; lia.
    - assert (2 ^ (dP - 1) < 2 ^ 106)
        by (change (2 ^ 106) with 81129638414606681695789005144064; nia).
      apply pow2_lt_inv in H; lia. }
  destruct (@binary_round_aux_wide P (dn - prec + -53))
    as [M [M' [e2 [Er [HM He2]]]]];
    [fold dP; unfold prec; lia
    |unfold emin, prec, emax; lia
    |fold dP; unfold prec, emax; lia|].
  fold dP in HM, He2. rewrite Er. unfold int_of_float.
  set (sh := dP - prec) in *.
  set (g := 106 - dn - sh).
  assert (Hsh : 52 <= sh <= 53) by (unfold sh, prec; lia).
  assert (Hg : 2 <= g) by (unfold g; lia).
  assert (He2' : e2 < 0) by (unfold sh, prec in *; lia).
  replace (0 <=? e2) with false by (symmetry; apply Z.leb_gt; lia).
  f_equal.
  (* the value of the rounded product is M / 2^g *)
  assert (EM : Zpos M' / 2 ^ (- e2) = M / 2 ^ g).
  { destruct He2 as [[-> <-]|[-> <-]].
    - f_equal. f_equal. unfold g, sh, prec. lia.
    - replace (2 ^ g) with (2 * 2 ^ (g - 1))
        by (rewrite <- Z.pow_succ_r by lia; f_equal; lia).
      rewrite Z.div_mul_cancel_l by (pose proof (@pow2_pos (g - 1) ltac:(lia)); lia).
      f_equal. f_equal. unfold g, sh, prec. lia. }
  rewrite EM. clear EM He2 Er.
  set (q := n * 9 / 10).
  assert (Hq : 10 * q <= 9 * n <= 10 * q + 9).
  { unfold q. pose proof (Z.div_mod (n * 9) 10 ltac:(lia)).
    pose proof (Z.mod_pos_bound (n * 9) 10 ltac:(lia)). lia. }
  set (B := 2 ^ sh) in *. set (G := 2 ^ g).
  assert (HB : 0 < B) by (apply pow2_pos; lia).
  assert (HG : 0 < G) by (apply pow2_pos; lia).
  assert (EU : B * G = 9007199254740992 * W).
  { unfold B, G, W. rewrite <- Z.pow_add_r by (unfold prec; lia).
    change 9007199254740992 with (2 ^ 53).
    rewrite <- Z.pow_add_r by (unfold prec; lia).
    f_equal. unfold g, prec. lia. }
  set (A := Zpos P) in *.
  set (m1 := A / B) in *.
  pose proof (Z.div_mod A B ltac:(lia)) as HA. fold m1 in HA.
  pose proof (Z.mod_pos_bound A B HB) as HAr.
  assert (HqW : 10 * (q * W) <= 9 * (n * W) <= 10 * (q * W) + 9 * W) by nia.
  assert (HnW : 2 * (n * W) < 9007199254740992 * W) by nia.
  (* lower bound *)
  assert (Lo : q * G <= m1).
  { assert (q * G * B < (m1 + 1) * B); [|nia].
    replace (q * G * B) with (q * (B * G)) by ring.
    rewrite EU. lia. }
  (* the key inequality: the excess of 0.9 and half an ulp stay below
     the next integer *)
  assert (Hi : M < (q + 1) * G).
  { destruct HM as [->|[-> Hodd]].
    - fold B. fold m1.
      assert (m1 * B < (q + 1) * G * B); [|nia].
      replace ((q + 1) * G * B) with ((q + 1) * (B * G)) by ring.
      rewrite EU. lia.
    - fold B. fold m1.
      pose proof (@odd_half A sh ltac:(unfold A; lia) ltac:(lia) Hodd) as Hh.
      fold B in Hh. fold m1 in Hh.
      set (H := 2 ^ (sh - 1)) in *.
      assert (EB : B = 2 * H).
      { unfold B, H. rewrite <- Z.pow_succ_r by lia. f_equal. lia. }
      assert (K : 2 * (n * W) + 10 * H < 9007199254740992 * W).
      { destruct (Z.le_gt_cases dn 50) as [Hle|Hgt].
        - assert (8 <= W).
          { change 8 with (2 ^ 3). unfold W. apply Z.pow_le_mono_r; unfold prec; lia. }
          assert (H <= 4503599627370496).
          { change 4503599627370496 with (2 ^ 52). unfold H.
            apply Z.pow_le_mono_r; lia. }
          lia.
        - assert (dn = 51) by lia.
          assert (EW : W = 4) by (unfold W, prec; replace dn with 51 by lia; reflexivity).
          assert (dP = 105).
          { assert (2 ^ (dP - 1) < 2 ^ 105)
              by (change (2 ^ 105) with 40564819207303340847894502572032; lia).
            apply pow2_lt_inv in H1; lia. }
          assert (EH : H = 2251799813685248).
          { unfold H, sh, prec. replace (dP - 53 - 1) with 51 by lia. reflexivity. }
          lia. }
      assert ((m1 + 1) * B < (q + 1) * G * B); [|nia].
      replace ((q + 1) * G * B) with ((q + 1) * (B * G)) by ring.
      rewrite EU. lia. }
  symmetry. apply Z.div_unique with (r := M - G * q); lia.
Qed.

(** Below 1250999896491811 rows the binary64 product truncates to the
    exact [floor(9 n / 10)]. *)
Lemma split_index_exact n :
  0 <= n < 1250999896491811 -> split_index n = Some (n * 9 / 10).
Proof.
  intros [Hlo Hhi].
  destruct (Z.le_gt_cases n 1250999896491804) as [Hle|Hgt].
  - destruct n as [|p|p]; [reflexivity|now apply split_index_pos|lia].
  - assert (Hc : n = 1250999896491805 \/ n = 1250999896491806 \/
                 n = 1250999896491807 \/ n = 1250999896491808 \/
                 n = 1250999896491809 \/ n = 1250999896491810) by lia.
    destruct Hc as [->|[->|[->|[->|[->| ->]]]]]; vm_compute; reflexivity.
Qed.

Lemma split_index_8400 : split_index 8400 = Some 7560.
Proof. reflexivity. Qed.

Lemma split_index_first_excess :
  split_index 1250999896491811 = Some 1125899906842630 /\
  1250999896491811 * 9 / 10 = 1125899906842629.
Proof. split; vm_compute; reflexivity. Qed.

Local Close Scope Z_scope.

(** * Regular indexes *)

Lemma regular_nth period idx i k :
  regular period idx -> i + k < length idx ->
  nth (i + k) idx 0%Z = (nth i idx 0 + Z.of_nat k * period)%Z.
Proof.
  intros [_ Hstep]. induction k as [|k IH]; intros Hk.
  - rewrite Nat.add_0_r. simpl. lia.
  - rewrite Nat.add_succ_r, Hstep by lia. rewrite IH by lia. lia.
Qed.

Lemma regular_nodup period idx : regular period idx -> NoDup idx.
Proof.
  intros Hreg. apply (NoDup_nth idx 0%Z).
  assert (Hlt : forall i j, i < j -> j < length idx ->
                 (nth i idx 0 < nth j idx 0)%Z).
  { intros i j Hij Hj. replace j with (i + (j - i)) by lia.
    rewrite (@regular_nth period idx i (j - i) Hreg) by lia.
    destruct Hreg as [Hp _]. nia. }
  intros i j Hi Hj E.
  destruct (Nat.lt_trichotomy i j) as [H|[H|H]]; [|assumption|].
  - specialize (Hlt i j H Hj). lia.
  - specialize (Hlt j i H Hi). lia.
Qed.

Lemma at_time_row idx (s : list (option Q)) j :
  NoDup idx -> j < length idx -> at_time idx s (nth j idx 0%Z) = at_ s j.
Proof.
  intros Hnd Hj. unfold at_time. now rewrite positions_nodup.
Qed.

Lemma uniqueb_sound l : uniqueb l = true -> NoDup l.
Proof.
  induction l as [|t rest IH]; simpl; intros H; constructor.
  - apply andb_prop in H. destruct H as [H _].
    apply negb_true_iff in H. intros Hin. apply mem_in in Hin. congruence.
  - apply IH. apply andb_prop in H. tauto.
Qed.

(** * The lag and rolling features of one segment *)

Lemma shift_lag_cell (x : list (option Q)) k i :
  i < length x -> at_ (shift k x) i = if i <? k then None else at_ x (i - k).
Proof. apply at_shift. Qed.

(** C5.  For every segment that has the target column, and every list of
    lags and windows, [create_lag_features] returns a new frame with the
    index of the segment in which, for each requested lag [k], the column
    [lag_k] exists, is missing on the first [k] rows and on every later row
    holds the target of the row [k] positions earlier, which on an index
    with one row per period is the row stamped [k] periods earlier; and for
    each requested window [w], the column [roll_mean_w] exists, is missing
    on the first [w] rows and on every later row holds the mean of the
    target over the [w] previous rows, the current row excluded. *)
Theorem create_lag_features_columns
  (h : heap) (r : ref) (df : DataFrame) (x : list (option Q))
  (lags roll_windows : list nat) :
  nth_error h r = Some df ->
  Frame.lookup target (columns df) = Some x ->
  length x = Frame.len df ->
  exists d,
    create_lag_features r lags roll_windows h = (Ok (length h), h ++ [d]) /\
    index d = index df /\
    (forall k, In k lags ->
       Frame.has_column (lag_name k) d = true /\
       forall i, i < Frame.len df ->
         Frame.value d (lag_name k) i =
           (if i <? k then None else at_ x (i - k)) /\
         forall period, regular period (index df) -> k <= i ->
           Frame.value d (lag_name k) i =
           at_time (index df) x
             (nth i (index df) 0 - Z.of_nat k * period)%Z) /\
    (forall w, In w roll_windows ->
       Frame.has_column (roll_name w) d = true /\
       forall i, i < Frame.len df ->
         Frame.value d (roll_name w) i =
           (if i <? w then None else mean_of (previous w x i))).
Proof.
  intros Hr Hx Hlen.
  pose proof (generated_some lags roll_windows _ Hx) as Hd.
  exists (generated lags roll_windows df).
  rewrite (@create_lag_features_run h r df lags roll_windows Hr), Hd.
  split; [reflexivity|].
  split; [exact (lag_features_index _ _ _ Hx Hd)|].
  split.
  - intros k Hk.
    pose proof (lag_features_lag _ _ _ Hx Hd _ Hk) as Hc.
    unfold Frame.has_column, Frame.value. rewrite Hc.
    split; [reflexivity|]. intros i Hi.
    assert (Hv : at_ (shift k x) i = if i <? k then None else at_ x (i - k))
      by (apply at_shift; lia).
    split; [exact Hv|].
    intros period Hreg Hki. rewrite Hv.
    replace (i <? k) with false by (symmetry; apply Nat.ltb_ge; lia).
    assert (E : nth i (index df) 0%Z =
                (nth (i - k) (index df) 0 + Z.of_nat k * period)%Z).
    { replace i with (i - k + k) at 1 by lia.
      apply regular_nth; [assumption|unfold Frame.len in Hi; lia]. }
    rewrite E.
    replace (nth (i - k) (index df) 0 + Z.of_nat k * period
             - Z.of_nat k * period)%Z
      with (nth (i - k) (index df) 0%Z) by lia.
    symmetry. apply at_time_row.
    + eapply regular_nodup; eassumption.
    + unfold Frame.len in Hi. lia.
  - intros w Hw.
    pose proof (lag_features_roll _ _ _ Hx Hd _ Hw) as Hc.
    unfold Frame.has_column, Frame.value. rewrite Hc.
    split; [reflexivity|]. intros i Hi.
    apply at_rolling_shift. lia.
Qed.

Lemma sample_regular n : regular 1 (index (sample n)).
Proof.
  split; [lia|]. simpl index. rewrite length_map, length_seq.
  intros i Hi.
  rewrite !nth_indep with (d := 0%Z) (d' := (1000 + Z.of_nat 0)%Z)
    by (rewrite length_map, length_seq; lia).
  rewrite !map_nth with (f := fun i => (1000 + Z.of_nat i)%Z).
  rewrite !seq_nth by lia. lia.
Qed.

(** The theorem at the six-row sample: lags 1 and 2, window 3. *)
Lemma create_lag_features_columns_witness :
  exists d,
    create_lag_features 0 [1; 2] [3] [sample 6] = (Ok 1, [sample 6] ++ [d]) /\
    Frame.value d (lag_name 2) 1 = None /\
    Frame.value d (lag_name 2) 4 = Some (inject_Z 20) /\
    Frame.value d (lag_name 2) 4 =
      at_time (index (sample 6)) (series_of target (sample 6)) (1004 - 2 * 1)%Z /\
    Frame.value d (roll_name 3) 2 = None /\
    Frame.value d (roll_name 3) 4 =
      mean_of [Some (inject_Z 10); Some (inject_Z 20); Some (inject_Z 30)].
Proof.
  destruct (@create_lag_features_columns [sample 6] 0 (sample 6)
              (series_of target (sample 6)) [1; 2] [3]
              eq_refl eq_refl eq_refl)
    as [d [Hrun [_ [Hlag Hroll]]]].
  exists d. split; [exact Hrun|].
  destruct (Hlag 2 (or_intror (or_introl eq_refl))) as [_ H2].
  destruct (Hroll 3 (or_introl eq_refl)) as [_ H3].
  repeat split.
  - exact (proj1 (H2 1 ltac:(unfold Frame.len; simpl; lia))).
  - exact (proj1 (H2 4 ltac:(unfold Frame.len; simpl; lia))).
  - exact (proj2 (H2 4 ltac:(unfold Frame.len; simpl; lia)) 1%Z (sample_regular 6) ltac:(lia)).
  - exact (H3 2 ltac:(unfold Frame.len; simpl; lia)).
  - exact (H3 4 ltac:(unfold Frame.len; simpl; lia)).
Defined.

(** C8.  Whatever the number of rows of the segment, also none at all or
    fewer than a lag or a window asks for, [create_lag_features] raises
    nothing when the target column is there: it returns a frame in which
    [lag_k] is missing on every row with fewer than [k] rows before it and
    [roll_mean_w] is missing on every row with fewer than [w] rows before
    it. *)
Theorem insufficient_history_is_missing
  (h : heap) (r : ref) (df : DataFrame) (x : list (option Q))
  (lags roll_windows : list nat) :
  nth_error h r = Some df ->
  Frame.lookup target (columns df) = Some x ->
  exists d,
    create_lag_features r lags roll_windows h = (Ok (length h), h ++ [d]) /\
    (forall k i, In k lags -> i < k -> Frame.value d (lag_name k) i = None) /\
    (forall w i, In w roll_windows -> i < w ->
       Frame.value d (roll_name w) i = None).
Proof.
  intros Hr Hx.
  pose proof (generated_some lags roll_windows _ Hx) as Hd.
  exists (generated lags roll_windows df).
  rewrite (@create_lag_features_run h r df lags roll_windows Hr), Hd.
  split; [reflexivity|]. split.
  - intros k i Hk Hi. unfold Frame.value.
    rewrite (lag_features_lag _ _ _ Hx Hd _ Hk).
    destruct (Nat.lt_ge_cases i (length x)) as [Hin|Hout].
    + rewrite at_shift by assumption.
      now replace (i <? k) with true by (symmetry; apply Nat.ltb_lt; lia).
    + apply at_overflow. now rewrite shift_length.
  - intros w i Hw Hi. unfold Frame.value.
    rewrite (lag_features_roll _ _ _ Hx Hd _ Hw).
    destruct (Nat.lt_ge_cases i (length x)) as [Hin|Hout].
    + rewrite at_rolling_shift by assumption.
      now replace (i <? w) with true by (symmetry; apply Nat.ltb_lt; lia).
    + apply at_overflow. now rewrite rolling_mean_length, shift_length.
Qed.

(** The theorem at a two-row segment asked for the lags and windows of
    the training call: nothing is raised and every feature asking for more
    history than two rows is missing on both rows. *)
Lemma insufficient_history_is_missing_witness :
  exists d,
    create_lag_features 0 train_lags train_windows [sample 2] =
      (Ok 1, [sample 2] ++ [d]) /\
    Frame.value d (lag_name 48) 1 = None /\
    Frame.value d (roll_name 24) 1 = None.
Proof.
  destruct (@insufficient_history_is_missing [sample 2] 0 (sample 2)
              (series_of target (sample 2)) train_lags train_windows
              eq_refl eq_refl)
    as [d [Hrun [Hlag Hroll]]].
  exists d. split; [exact Hrun|]. split.
  - apply Hlag; [unfold train_lags; simpl; tauto|lia].
  - apply Hroll; [unfold train_windows; simpl; tauto|lia].
Defined.

(** * [enrich_features] on the heap *)

Lemma bind_ok (A B : Type) (m : M A) (k : A -> M B) h a h' :
  m h = (Ok a, h') -> bind m k h = k a h'.
Proof. intros H. unfold bind. now rewrite H. Qed.

Lemma bind_raise (A B : Type) (m : M A) (k : A -> M B) h e h' :
  m h = (Raise e, h') -> bind m k h = (Raise e, h').
Proof. intros H. unfold bind. now rewrite H. Qed.

Lemma copy_run (h : heap) r df :
  nth_error h r = Some df -> copy r h = (Ok (length h), h ++ [df]).
Proof. intros H. unfold copy, bind, deref, new. now rewrite H. Qed.

Lemma lookup_with_column_ne name other s d :
  String.eqb name other = false ->
  Frame.lookup name (columns (Frame.with_column other s d)) =
  Frame.lookup name (columns d).
Proof. apply lookup_assign_ne. Qed.

Lemma lookup_with_column_eq name s d :
  Frame.lookup name (columns (Frame.with_column name s d)) = Some s.
Proof. apply lookup_assign_eq. Qed.

Lemma lookups_with_column_ne names other s d :
  forallb (fun n => negb (String.eqb n other)) names = true ->
  lookups names (columns (Frame.with_column other s d)) =
  lookups names (columns d).
Proof.
  induction names as [|n rest IH]; simpl; intros H; [reflexivity|].
  apply andb_prop in H. destruct H as [Hn Hrest].
  rewrite lookup_assign_ne by now apply negb_true_iff.
  simpl in IH. now rewrite IH.
Qed.

Lemma getitem_last_ok (h : heap) d name s :
  Frame.lookup name (columns d) = Some s ->
  getitem (length h) name (h ++ [d]) = (Ok s, h ++ [d]).
Proof. intros H. now rewrite getitem_last, H. Qed.

Lemma getitem_last_raise (h : heap) d name :
  Frame.lookup name (columns d) = None ->
  getitem (length h) name (h ++ [d]) = (Raise (KeyError name), h ++ [d]).
Proof. intros H. now rewrite getitem_last, H. Qed.

Section EnrichRun.

Variable dayofyear : Z -> Z.
Variables np_sin np_cos : Q -> Q.

Ltac lookup_through :=
  repeat (rewrite lookup_with_column_ne by reflexivity);
  repeat (rewrite lookups_with_column_ne by reflexivity).

Ltac ok_step :=
  first
    [ erewrite bind_ok by apply deref_last
    | erewrite bind_ok by apply setitem_last
    | erewrite bind_ok by (apply getitem_last_ok; lookup_through; eassumption)
    | erewrite bind_ok
        by (apply getitem_last_ok; lookup_through; apply lookup_with_column_eq)
    | erewrite bind_ok by (apply getitems_last; lookup_through; eassumption) ].

Ltac raise_step :=
  first
    [ (erewrite bind_raise
         by (apply getitem_last_raise; lookup_through; eassumption));
      do 2 eexists; reflexivity
    | match goal with
      | H : lookups ?names (columns ?df) = None |- _ =>
          let e := fresh "e" in
          let He := fresh "He" in
          match goal with
          | |- context [bind (getitems (length ?h) names) _ (?h ++ [?d])] =>
              assert (He : exists e,
                         getitems (length h) names (h ++ [d]) =
                         (Raise e, h ++ [d]))
                by (apply getitems_raises; lookup_through; exact H);
              destruct He as [e He];
              (erewrite bind_raise by exact He);
              do 2 eexists; reflexivity
          end
      end ].

(** The heap after a call: the caller's frames are untouched and one
    frame is added, the enriched copy when every column read is there. *)
Lemma enrich_features_run (h : heap) r df :
  nth_error h r = Some df ->
  match enriched dayofyear np_sin np_cos df with
  | Some d =>
      enrich_features dayofyear np_sin np_cos r h = (Ok (length h), h ++ [d])
  | None =>
      exists e d',
        enrich_features dayofyear np_sin np_cos r h = (Raise e, h ++ [d'])
  end.
Proof.
  intros Hr. unfold enrich_features, enriched.
  erewrite bind_ok by (apply copy_run; exact Hr).
  ok_step.
  destruct (lookups appliance_cols (columns df)) as [apps|] eqn:Happs;
    [|raise_step].
  do 2 ok_step.
  destruct (Frame.lookup "furnace" (columns df)) as [furnace|] eqn:Hfurnace;
    [|raise_step].
  do 2 ok_step.
  destruct (Frame.lookup "lag_1" (columns df)) as [lag_1|] eqn:Hlag1;
    [|raise_step].
  ok_step.
  destruct (Frame.lookup "generated_solar" (columns df)) as [solar|] eqn:Hsolar;
    [|raise_step].
  do 2 ok_step.
  destruct (Frame.lookup "hour" (columns df)) as [hour|] eqn:Hhour;
    [|raise_step].
  do 3 ok_step.
  destruct (lookups ["wd_Saturday"; "wd_Sunday"]%string (columns df))
    as [wd|] eqn:Hwd; [|raise_step].
  repeat ok_step.
  reflexivity.
Qed.

End EnrichRun.

(** * What [enrich_features] computes *)

Lemma at_series_sub (a b : list (option Q)) i :
  at_ (series_sub a b) i = cell_sub (at_ a i) (at_ b i).
Proof.
  unfold series_sub, at_. revert b i.
  induction a as [|x a IH]; intros b i.
  - simpl. now destruct i.
  - destruct b as [|y b].
    + simpl. destruct i as [|i]; simpl.
      * now destruct x.
      * now destruct (nth i a None).
    + destruct i; simpl; [reflexivity|apply IH].
Qed.

Lemma at_shift_1 (x : list (option Q)) i :
  at_ (shift 1 x) i =
  if i =? 0 then None else if i <? length x then at_ x (i - 1) else None.
Proof.
  destruct (Nat.ltb_spec i (length x)) as [Hin|Hout].
  - rewrite at_shift by assumption. destruct i; reflexivity.
  - rewrite at_overflow by now rewrite shift_length.
    now destruct (i =? 0).
Qed.

(** On the first row of any frame the shifted solar series is missing, and
    so is the difference. *)
Lemma net_energy_first_row (lag_1 solar : list (option Q)) :
  at_ (series_sub lag_1 (shift 1 solar)) 0 = None.
Proof.
  rewrite at_series_sub, at_shift_1. simpl.
  now destruct (at_ lag_1 0).
Qed.

Lemma with_column_same name s d :
  Frame.lookup name (columns d) = Some s -> Frame.with_column name s d = d.
Proof.
  intros H. unfold Frame.with_column. rewrite (assign_same _ _ H).
  now destruct d.
Qed.

Lemma has_column_with_column name other s d :
  Frame.has_column name d = true ->
  Frame.has_column name (Frame.with_column other s d) = true.
Proof.
  unfold Frame.has_column. intros H.
  destruct (String.eqb name other) eqn:E.
  - apply String.eqb_eq in E. subst. now rewrite lookup_with_column_eq.
  - now rewrite lookup_with_column_ne.
Qed.

Lemma lookups_some names d :
  (forall n, In n names -> Frame.has_column n d = true) ->
  exists ss, lookups names (columns d) = Some ss.
Proof.
  induction names as [|n rest IH]; intros H; simpl; [eauto|].
  destruct IH as [ss Hss]; [intros; apply H; now right|].
  specialize (H n (or_introl eq_refl)). unfold Frame.has_column in H.
  destruct (Frame.lookup n (columns d)); [|discriminate].
  rewrite Hss. eauto.
Qed.

Section EnrichFacts.

Variable dayofyear : Z -> Z.
Variables np_sin np_cos : Q -> Q.


Lemma enriched_some d :
  (forall n, In n enrich_inputs -> Frame.has_column n d = true) ->
  exists d', enriched dayofyear np_sin np_cos d = Some d'.
Proof.
  intros H. unfold enriched.
  destruct (@lookups_some appliance_cols d) as [apps ->].
  { intros n Hn. apply H. unfold enrich_inputs. apply in_or_app. now left. }
  destruct (@lookups_some ["wd_Saturday"; "wd_Sunday"]%string d) as [wd ->].
  { intros n Hn. apply H. unfold enrich_inputs. apply in_or_app. right.
    simpl in Hn |- *. tauto. }
  assert (Hin : forall n,
             In n ["furnace"; "lag_1"; "generated_solar"; "hour"]%string ->
             exists s, Frame.lookup n (columns d) = Some s).
  { intros n Hn.
    assert (Hc : Frame.has_column n d = true).
    { apply H. unfold enrich_inputs. apply in_or_app. right.
      simpl in Hn |- *. tauto. }
    unfold Frame.has_column in Hc.
    destruct (Frame.lookup n (columns d)); [eauto|discriminate]. }
  destruct (Hin "furnace"%string) as [? ->]; [simpl; tauto|].
  destruct (Hin "lag_1"%string) as [? ->]; [simpl; tauto|].
  destruct (Hin "generated_solar"%string) as [? ->]; [simpl; tauto|].
  destruct (Hin "hour"%string) as [? ->]; [simpl; tauto|].
  eauto.
Qed.

Lemma enriched_inv d d' :
  enriched dayofyear np_sin np_cos d = Some d' ->
  exists apps furnace lag_1 solar hour wd,
    lookups appliance_cols (columns d) = Some apps /\
    Frame.lookup "furnace" (columns d) = Some furnace /\
    Frame.lookup "lag_1" (columns d) = Some lag_1 /\
    Frame.lookup "generated_solar" (columns d) = Some solar /\
    Frame.lookup "hour" (columns d) = Some hour /\
    lookups ["wd_Saturday"; "wd_Sunday"]%string (columns d) = Some wd /\
    d' = enrich_with dayofyear np_sin np_cos apps furnace lag_1 solar hour wd d.
Proof.
  unfold enriched. intros H.
  destruct (lookups appliance_cols (columns d)) as [apps|]; [|discriminate].
  destruct (Frame.lookup "furnace" (columns d)) as [furnace|]; [|discriminate].
  destruct (Frame.lookup "lag_1" (columns d)) as [lag_1|]; [|discriminate].
  destruct (Frame.lookup "generated_solar" (columns d)) as [solar|];
    [|discriminate].
  destruct (Frame.lookup "hour" (columns d)) as [hour|]; [|discriminate].
  destruct (lookups ["wd_Saturday"; "wd_Sunday"]%string (columns d))
    as [wd|]; [|discriminate].
  inversion H. repeat eexists.
Qed.

Lemma enrich_with_index apps furnace lag_1 solar hour wd d :
  index (enrich_with dayofyear np_sin np_cos apps furnace lag_1 solar hour wd d) = index d.
Proof. reflexivity. Qed.

(** A column that is not one of the nine written ones is the column
    passed in. *)
Lemma enrich_with_frame apps furnace lag_1 solar hour wd d name :
  ~ In name enrich_outputs ->
  Frame.lookup name (columns (enrich_with dayofyear np_sin np_cos apps furnace lag_1 solar hour wd d)) =
  Frame.lookup name (columns d).
Proof.
  intros H. unfold enrich_with.
  repeat (rewrite lookup_with_column_ne;
          [|apply String.eqb_neq; intros ->; apply H;
            unfold enrich_outputs; simpl; tauto]).
  reflexivity.
Qed.

Lemma enrich_with_net apps furnace lag_1 solar hour wd d :
  Frame.lookup "net_energy_lag_1"
    (columns (enrich_with dayofyear np_sin np_cos apps furnace lag_1 solar hour wd d)) =
  Some (series_sub lag_1 (shift 1 solar)).
Proof.
  unfold enrich_with.
  repeat (rewrite lookup_with_column_ne by reflexivity).
  apply lookup_with_column_eq.
Qed.

Lemma enrich_with_has_column apps furnace lag_1 solar hour wd d name :
  Frame.has_column name d = true ->
  Frame.has_column name (enrich_with dayofyear np_sin np_cos apps furnace lag_1 solar hour wd d) = true.
Proof.
  intros H. unfold enrich_with.
  repeat apply has_column_with_column. exact H.
Qed.

End EnrichFacts.

Section EnrichAlgebra.

Variable dayofyear : Z -> Z.
Variables np_sin np_cos : Q -> Q.


Ltac settle_column :=
  apply with_column_same;
  match goal with
  | x := enrich_with _ _ _ _ _ _ _ _ _ _ |- _ => unfold x
  end;
  unfold enrich_with;
  repeat (rewrite lookup_with_column_ne by reflexivity);
  apply lookup_with_column_eq.

(** Enriching an enriched frame changes nothing: every input column is
    still the one read the first time, so every assignment stores the
    value already there. *)
Lemma enriched_idempotent d d' :
  enriched dayofyear np_sin np_cos d = Some d' -> enriched dayofyear np_sin np_cos d' = Some d'.
Proof.
  intros H.
  destruct (@enriched_inv dayofyear np_sin np_cos d d' H)
    as (apps & furnace & lag_1 & solar & hour & wd &
        Ha & Hf & Hl & Hs & Hh & Hw & ->).
  unfold enriched.
  unfold enrich_with at 1 2 3 4 5 6.
  repeat (rewrite lookups_with_column_ne by reflexivity).
  repeat (rewrite lookup_with_column_ne by reflexivity).
  rewrite Ha, Hf, Hl, Hs, Hh, Hw. f_equal.
  set (d' := enrich_with dayofyear np_sin np_cos apps furnace lag_1 solar hour wd d).
  unfold enrich_with at 1.
  change (index d') with (index d). change (Frame.len d') with (Frame.len d).
  assert (E1 : Frame.with_column "appliance_sum"
                 (row_sum (Frame.len d) apps) d' = d') by settle_column.
  rewrite E1.
  assert (E2 : Frame.with_column "furnace_on" (map gt_zero furnace) d' = d')
    by settle_column.
  rewrite E2.
  assert (E3 : Frame.with_column "net_energy_lag_1"
                 (series_sub lag_1 (shift 1 solar)) d' = d') by settle_column.
  rewrite E3.
  assert (E4 : Frame.with_column "hour_block" (map (floordiv 4) hour) d' = d')
    by settle_column.
  rewrite E4.
  assert (E5 : Frame.with_column "is_weekend"
                 (map (clip_upper 1) (row_sum (Frame.len d) wd)) d' = d')
    by settle_column.
  rewrite E5.
  assert (E6 : Frame.with_column "is_night" (map (isin night_hours) hour) d' = d')
    by settle_column.
  rewrite E6.
  assert (E7 : Frame.with_column "dayofyear"
                 (dayofyear_column dayofyear (index d)) d' = d')
    by settle_column.
  rewrite E7.
  assert (E8 : Frame.with_column "dayofyear_sin"
                 (map (cell_map (fun x => np_sin (seasonal_angle x)))
                    (dayofyear_column dayofyear (index d))) d' = d')
    by settle_column.
  rewrite E8.
  settle_column.
Qed.

End EnrichAlgebra.

(** * Enrichment and row slices *)

Lemma lookups_map_columns f names cols :
  lookups names (Frame.map_columns f cols) =
  option_map (map f) (lookups names cols).
Proof.
  induction names as [|n rest IH]; simpl; [reflexivity|].
  rewrite lookup_map_columns, IH.
  destruct (Frame.lookup n cols); simpl; [|reflexivity].
  destruct (lookups rest cols); reflexivity.
Qed.

Lemma map_seq_shift (A : Type) (f : nat -> A) s m :
  map f (seq s m) = map (fun j => f (s + j)) (seq 0 m).
Proof.
  revert f s. induction m as [|m IH]; intros f s; simpl; [reflexivity|].
  rewrite Nat.add_0_r. f_equal.
  rewrite (IH f (S s)), (IH (fun j => f (s + j)) 1). apply map_ext. intros j.
  f_equal. lia.
Qed.

Lemma firstn_seq_min s a n : firstn s (seq a n) = seq a (Nat.min s n).
Proof.
  revert a n. induction s as [|s IH]; intros a n; [reflexivity|].
  destruct n as [|n]; [reflexivity|]. simpl. now rewrite IH.
Qed.

Lemma firstn_row_sum s n cols :
  firstn s (row_sum n cols) = row_sum (Nat.min s n) (map (firstn s) cols).
Proof.
  unfold row_sum. rewrite firstn_map, firstn_seq_min.
  apply map_ext_in. intros i Hi. apply in_seq in Hi.
  do 3 f_equal. rewrite map_map. apply map_ext. intros c.
  symmetry. apply at_firstn. lia.
Qed.

Lemma skipn_row_sum s n cols :
  skipn s (row_sum n cols) = row_sum (n - s) (map (skipn s) cols).
Proof.
  unfold row_sum. rewrite skipn_map, skipn_seq. simpl Nat.add.
  rewrite map_seq_shift. apply map_ext. intros i.
  do 3 f_equal. rewrite map_map. apply map_ext. intros c.
  symmetry. apply at_skipn.
Qed.

Lemma firstn_series_sub s a b :
  firstn s (series_sub a b) = series_sub (firstn s a) (firstn s b).
Proof. unfold series_sub. now rewrite firstn_map, combine_firstn. Qed.

Lemma firstn_shift_1 s (x : list (option Q)) :
  firstn s (shift 1 x) = shift 1 (firstn s x).
Proof.
  unfold shift. simpl nan_fill. simpl app.
  rewrite firstn_firstn, length_firstn.
  destruct (Nat.min s (length x)) as [|m] eqn:E; [reflexivity|].
  rewrite !firstn_cons. f_equal.
  rewrite firstn_firstn. f_equal. lia.
Qed.

Lemma skipn_series_sub s a b :
  skipn s (series_sub a b) = series_sub (skipn s a) (skipn s b).
Proof.
  unfold series_sub. rewrite skipn_map. f_equal.
  revert a b. induction s as [|s IH]; intros a b; [reflexivity|].
  destruct a as [|x a]; [reflexivity|].
  destruct b as [|y b]; simpl.
  - now rewrite combine_nil.
  - apply IH.
Qed.

Lemma iloc_to_with_column s name v d :
  Frame.iloc_to s (Frame.with_column name v d) =
  Frame.with_column name (firstn s v) (Frame.iloc_to s d).
Proof.
  unfold Frame.iloc_to, Frame.with_column. simpl. f_equal.
  induction (columns d) as [|[n x] rest IH]; simpl; [reflexivity|].
  destruct (String.eqb name n); simpl; [reflexivity|]. now rewrite IH.
Qed.

Lemma iloc_from_with_column s name v d :
  Frame.iloc_from s (Frame.with_column name v d) =
  Frame.with_column name (skipn s v) (Frame.iloc_from s d).
Proof.
  unfold Frame.iloc_from, Frame.with_column. simpl. f_equal.
  induction (columns d) as [|[n x] rest IH]; simpl; [reflexivity|].
  destruct (String.eqb name n); simpl; [reflexivity|]. now rewrite IH.
Qed.

Lemma len_iloc_to s d : Frame.len (Frame.iloc_to s d) = Nat.min s (Frame.len d).
Proof. unfold Frame.len. simpl. apply length_firstn. Qed.

Lemma len_iloc_from s d : Frame.len (Frame.iloc_from s d) = Frame.len d - s.
Proof. unfold Frame.len. simpl. apply length_skipn. Qed.

Lemma assign_comm n m v w (cols : list (string * list (option Q))) :
  String.eqb n m = false -> Frame.lookup n cols <> None ->
  Frame.assign n v (Frame.assign m w cols) =
  Frame.assign m w (Frame.assign n v cols).
Proof.
  intros Hne. induction cols as [|[c x] rest IH]; simpl; intros Hin.
  - congruence.
  - destruct (String.eqb m c) eqn:Em; destruct (String.eqb n c) eqn:En; simpl;
      rewrite ?Em, ?En; try reflexivity.
    + apply String.eqb_eq in Em, En. subst.
      rewrite String.eqb_refl in Hne. discriminate.
    + f_equal. apply IH. exact Hin.
Qed.

Lemma with_column_comm n m v w d :
  String.eqb n m = false -> Frame.has_column n d = true ->
  Frame.with_column n v (Frame.with_column m w d) =
  Frame.with_column m w (Frame.with_column n v d).
Proof.
  intros Hne Hin. unfold Frame.with_column. simpl. f_equal.
  apply assign_comm; [assumption|].
  unfold Frame.has_column in Hin.
  destruct (Frame.lookup n (columns d)); congruence.
Qed.

Lemma with_column_twice n v w d :
  Frame.with_column n v (Frame.with_column n w d) = Frame.with_column n v d.
Proof. unfold Frame.with_column. simpl. now rewrite assign_assign. Qed.

Lemma has_column_new name s d :
  Frame.has_column name (Frame.with_column name s d) = true.
Proof. unfold Frame.has_column. now rewrite lookup_with_column_eq. Qed.

Section EnrichSplit.

Variable dayofyear : Z -> Z.
Variables np_sin np_cos : Q -> Q.


Lemma enrich_with_iloc_to s apps furnace lag_1 solar hour wd d :
  Frame.iloc_to s (enrich_with dayofyear np_sin np_cos apps furnace lag_1 solar hour wd d) =
  enrich_with dayofyear np_sin np_cos (map (firstn s) apps) (firstn s furnace) (firstn s lag_1)
    (firstn s solar) (firstn s hour) (map (firstn s) wd) (Frame.iloc_to s d).
Proof.
  unfold enrich_with.
  rewrite !iloc_to_with_column.
  rewrite len_iloc_to.
  change (index (Frame.iloc_to s d)) with (firstn s (index d)).
  unfold dayofyear_column.
  now rewrite !firstn_map, !firstn_row_sum, firstn_series_sub, firstn_shift_1.
Qed.

(** Enrichment commutes with taking the leading rows. *)
Lemma enriched_iloc_to s T :
  enriched dayofyear np_sin np_cos (Frame.iloc_to s T) = option_map (Frame.iloc_to s) (enriched dayofyear np_sin np_cos T).
Proof.
  unfold enriched. rewrite columns_iloc_to.
  rewrite !lookups_map_columns, !lookup_map_columns.
  destruct (lookups appliance_cols (columns T)); [|reflexivity].
  destruct (Frame.lookup "furnace" (columns T)); [|reflexivity].
  destruct (Frame.lookup "lag_1" (columns T)); [|reflexivity].
  destruct (Frame.lookup "generated_solar" (columns T)); [|reflexivity].
  destruct (Frame.lookup "hour" (columns T)); [|reflexivity].
  destruct (lookups ["wd_Saturday"; "wd_Sunday"]%string (columns T));
    [|reflexivity].
  simpl option_map. now rewrite enrich_with_iloc_to.
Qed.

(** On the trailing rows the one difference is the solar series, shifted
    after the cut instead of before it. *)
Lemma enrich_with_iloc_from s apps furnace lag_1 solar hour wd d :
  Frame.iloc_from s (enrich_with dayofyear np_sin np_cos apps furnace lag_1 solar hour wd d) =
  Frame.with_column net_energy (skipn s (series_sub lag_1 (shift 1 solar)))
    (enrich_with dayofyear np_sin np_cos (map (skipn s) apps) (skipn s furnace) (skipn s lag_1)
       (skipn s solar) (skipn s hour) (map (skipn s) wd)
       (Frame.iloc_from s d)).
Proof.
  unfold enrich_with, net_energy.
  rewrite !iloc_from_with_column.
  rewrite len_iloc_from.
  change (index (Frame.iloc_from s d)) with (skipn s (index d)).
  unfold dayofyear_column.
  rewrite !skipn_map, !skipn_row_sum.
  set (base := Frame.with_column "furnace_on" _ _).
  set (Y := Frame.with_column "net_energy_lag_1"
              (skipn s (series_sub lag_1 (shift 1 solar))) base).
  set (X := Frame.with_column "net_energy_lag_1"
              (series_sub (skipn s lag_1) (shift 1 (skipn s solar))) base).
  assert (HX : Frame.has_column "net_energy_lag_1" X = true)
    by apply has_column_new.
  repeat (rewrite (@with_column_comm "net_energy_lag_1")
            by (first [reflexivity
                      |solve [repeat (first [exact HX
                                            |apply has_column_with_column])]])).
  unfold X, Y. now rewrite with_column_twice.
Qed.

Lemma enriched_iloc_from s T E :
  enriched dayofyear np_sin np_cos T = Some E ->
  exists Ef v,
    enriched dayofyear np_sin np_cos (Frame.iloc_from s T) = Some Ef /\
    Frame.iloc_from s E = Frame.with_column net_energy v Ef /\
    forall i, 0 < i -> at_ v i = Frame.value Ef net_energy i.
Proof.
  intros H.
  destruct (@enriched_inv dayofyear np_sin np_cos T E H)
    as (apps & furnace & lag_1 & solar & hour & wd &
        Ha & Hf & Hl & Hs & Hh & Hw & ->).
  exists (enrich_with dayofyear np_sin np_cos (map (skipn s) apps) (skipn s furnace) (skipn s lag_1)
            (skipn s solar) (skipn s hour) (map (skipn s) wd)
            (Frame.iloc_from s T)).
  exists (skipn s (series_sub lag_1 (shift 1 solar))).
  split; [|split].
  - unfold enriched. rewrite columns_iloc_from.
    rewrite !lookups_map_columns, !lookup_map_columns.
    now rewrite Ha, Hf, Hl, Hs, Hh, Hw.
  - apply enrich_with_iloc_from.
  - intros i Hi. unfold Frame.value, net_energy.
    rewrite enrich_with_net.
    rewrite at_skipn, !at_series_sub, at_skipn. f_equal.
    rewrite !at_shift_1, length_skipn.
    replace (s + i =? 0) with false by (symmetry; apply Nat.eqb_neq; lia).
    replace (i =? 0) with false by (symmetry; apply Nat.eqb_neq; lia).
    destruct (Nat.ltb_spec (s + i) (length solar));
      destruct (Nat.ltb_spec i (length solar - s)); try lia; [|reflexivity].
    rewrite at_skipn. f_equal. lia.
Qed.

End EnrichSplit.

(** * Calls seen from the caller *)

Lemma returns_lag_features lags wins df d :
  lag_features lags wins df = Some d ->
  returns (fun r => create_lag_features r lags wins) df d.
Proof.
  intros H h r Hr. now rewrite (@create_lag_features_run h r df lags wins Hr), H.
Qed.

Lemma returns_enriched dayofyear np_sin np_cos df d :
  enriched dayofyear np_sin np_cos df = Some d ->
  returns (enrich_features dayofyear np_sin np_cos) df d.
Proof.
  intros H h r Hr.
  pose proof (@enrich_features_run dayofyear np_sin np_cos h r df Hr) as Hrun.
  now rewrite H in Hrun.
Qed.

Lemma returns_enriched_inv dayofyear np_sin np_cos df d :
  returns (enrich_features dayofyear np_sin np_cos) df d ->
  enriched dayofyear np_sin np_cos df = Some d.
Proof.
  intros H. specialize (H [df] 0 eq_refl).
  pose proof (@enrich_features_run dayofyear np_sin np_cos [df] 0 df eq_refl)
    as Hrun.
  destruct (enriched dayofyear np_sin np_cos df) as [d0|].
  - rewrite H in Hrun. inversion Hrun. reflexivity.
  - destruct Hrun as [e [d' Hrun]]. rewrite H in Hrun. discriminate.
Qed.

(** C7, as the code has it.  [enrich_features] is idempotent: called on
    the frame it returned, it returns that frame again.  It commutes with
    taking the training rows: enriching the first [s] rows gives the first
    [s] rows of the enriched table.  On the forecast rows it commutes on
    every column and row except [net_energy_lag_1] on the first row: for
    every other cell, enriching the rows after the first [s] gives the value
    the enriched table has on that row. *)
Theorem enrich_idempotent_and_split
  (dayofyear : Z -> Z) (np_sin np_cos : Q -> Q) (T E : DataFrame) (s : nat) :
  returns (enrich_features dayofyear np_sin np_cos) T E ->
  returns (enrich_features dayofyear np_sin np_cos) E E /\
  exists Et Ef,
    returns (enrich_features dayofyear np_sin np_cos) (Frame.iloc_to s T) Et /\
    returns (enrich_features dayofyear np_sin np_cos) (Frame.iloc_from s T) Ef /\
    Et = Frame.iloc_to s E /\
    index Ef = index (Frame.iloc_from s E) /\
    forall name i,
      name <> net_energy \/ 0 < i ->
      Frame.value Ef name i = Frame.value (Frame.iloc_from s E) name i.
Proof.
  intros H. apply returns_enriched_inv in H.
  split.
  - apply returns_enriched. now apply enriched_idempotent with (d := T).
  - destruct (@enriched_iloc_from dayofyear np_sin np_cos s T E H)
      as [Ef [v [HEf [Hcut Hv]]]].
    exists (Frame.iloc_to s E), Ef.
    split; [|split; [|split; [|split]]].
    + apply returns_enriched. now rewrite enriched_iloc_to, H.
    + now apply returns_enriched.
    + reflexivity.
    + now rewrite Hcut.
    + intros name i Hcell. rewrite Hcut.
      destruct (String.eqb name net_energy) eqn:En.
      * apply String.eqb_eq in En. subst name.
        rewrite value_with_column_eq. symmetry. apply Hv.
        destruct Hcell as [Hne|Hi]; [congruence|exact Hi].
      * now rewrite value_with_column_ne.
Qed.

(** The theorem at the six-row sample with its lag features, cut after
    three rows. *)
Lemma enrich_idempotent_and_split_witness :
  exists E Ef,
    returns (enrich_features sample_dayofyear sample_sin sample_cos)
      (generated forecast_lags forecast_windows (sample 6)) E /\
    returns (enrich_features sample_dayofyear sample_sin sample_cos) E E /\
    returns (enrich_features sample_dayofyear sample_sin sample_cos)
      (Frame.iloc_from 3 (generated forecast_lags forecast_windows (sample 6)))
      Ef /\
    Frame.value Ef net_energy 1 = Frame.value (Frame.iloc_from 3 E) net_energy 1.
Proof.
  destruct (enriched sample_dayofyear sample_sin sample_cos
              (generated forecast_lags forecast_windows (sample 6)))
    as [E|] eqn:HE; [|vm_compute in HE; discriminate].
  pose proof (@returns_enriched _ _ _ _ _ HE) as H.
  destruct (@enrich_idempotent_and_split sample_dayofyear sample_sin sample_cos
              _ _ 3 H) as [Hidem [Et [Ef [_ [HEf [_ [_ Hcells]]]]]]].
  exists E, Ef. repeat split; [exact H|exact Hidem|exact HEf|].
  apply Hcells. right. lia.
Defined.

(** C7 as stated fails on the first forecast row: enriched after the cut,
    the row has no [net_energy_lag_1]; cut out of the enriched table, it
    has one. *)
Lemma enrich_split_counterexample :
  exists E Ef,
    returns (enrich_features sample_dayofyear sample_sin sample_cos)
      (generated forecast_lags forecast_windows (sample 6)) E /\
    returns (enrich_features sample_dayofyear sample_sin sample_cos)
      (Frame.iloc_from 3 (generated forecast_lags forecast_windows (sample 6)))
      Ef /\
    Frame.value Ef net_energy 0 = None /\
    Frame.value (Frame.iloc_from 3 E) net_energy 0 = Some (18 # 1)%Q /\
    Frame.value Ef net_energy 0 <>
      Frame.value (Frame.iloc_from 3 E) net_energy 0.
Proof.
  eexists. eexists.
  split; [apply returns_enriched; vm_compute; reflexivity|].
  split; [apply returns_enriched; vm_compute; reflexivity|].
  split; [vm_compute; reflexivity|].
  split; [vm_compute; reflexivity|].
  vm_compute. discriminate.
Qed.

(** * Copies, never mutation *)

Lemma has_column_fold_lag x name lags : forall d,
  Frame.has_column name d = true ->
  Frame.has_column name (fold_left (add_lag x) lags d) = true.
Proof.
  induction lags as [|k rest IH]; intros d H; simpl; [assumption|].
  apply IH. now apply has_column_with_column.
Qed.

Lemma has_column_fold_roll x name wins : forall d,
  Frame.has_column name d = true ->
  Frame.has_column name (fold_left (add_roll x) wins d) = true.
Proof.
  induction wins as [|k rest IH]; intros d H; simpl; [assumption|].
  apply IH. now apply has_column_with_column.
Qed.

Lemma lag_features_keeps lags wins df d :
  lag_features lags wins df = Some d ->
  index d = index df /\
  (forall name, Frame.has_column name df = true ->
                Frame.has_column name d = true) /\
  (forall name, ~ In name (map lag_name lags ++ map roll_name wins) ->
                Frame.lookup name (columns d) = Frame.lookup name (columns df)).
Proof.
  intros H.
  destruct (Frame.lookup target (columns df)) as [x|] eqn:Hx.
  - split; [exact (lag_features_index _ _ _ Hx H)|]. split.
    + intros name Hc. rewrite (lag_features_unfold _ _ _ Hx H).
      now apply has_column_fold_roll, has_column_fold_lag.
    + intros name Hn. apply (lag_features_frame _ _ _ Hx H).
      * intros k Hk ->. apply Hn, in_or_app. left. now apply in_map.
      * intros w Hw ->. apply Hn, in_or_app. right. now apply in_map.
  - unfold lag_features in H. rewrite Hx in H.
    destruct lags; [destruct wins|]; try discriminate.
    inversion H; subst. auto.
Qed.

Lemma enriched_keeps dayofyear np_sin np_cos df d :
  enriched dayofyear np_sin np_cos df = Some d ->
  index d = index df /\
  (forall name, Frame.has_column name df = true ->
                Frame.has_column name d = true) /\
  (forall name, ~ In name enrich_outputs ->
                Frame.lookup name (columns d) = Frame.lookup name (columns df)).
Proof.
  intros H.
  destruct (@enriched_inv dayofyear np_sin np_cos df d H)
    as (apps & furnace & lag_1 & solar & hour & wd & _ & _ & _ & _ & _ & _ & ->).
  split; [reflexivity|]. split.
  - intros name Hc. now apply enrich_with_has_column.
  - intros name Hn. now apply enrich_with_frame.
Qed.

(** C9, as the code has it.  Both functions work on a copy: whatever the
    outcome, the heap after the call is the heap before it with one frame
    added, so the frame passed in, like every other frame, is untouched.
    When the call returns, it returns the reference of the added frame,
    whose index is the index passed in, in which no column of the input
    has disappeared and every column whose name the function does not
    itself assign is the input's column.  A column of the input that
    carries one of the assigned names ([lag_k], [roll_mean_w]; the nine
    names written by [enrich_features]) is not claimed to survive. *)
Theorem calls_copy_and_add (h : heap) (r : ref) (df : DataFrame) :
  nth_error h r = Some df ->
  (forall lags roll_windows, exists res d,
     create_lag_features r lags roll_windows h = (res, h ++ [d]) /\
     nth_error (h ++ [d]) r = Some df /\
     forall r', res = Ok r' ->
       nth_error (h ++ [d]) r' = Some d /\ r' <> r /\
       index d = index df /\
       (forall name, Frame.has_column name df = true ->
                     Frame.has_column name d = true) /\
       (forall name,
          ~ In name (map lag_name lags ++ map roll_name roll_windows) ->
          Frame.lookup name (columns d) = Frame.lookup name (columns df))) /\
  (forall dayofyear np_sin np_cos, exists res d,
     enrich_features dayofyear np_sin np_cos r h = (res, h ++ [d]) /\
     nth_error (h ++ [d]) r = Some df /\
     forall r', res = Ok r' ->
       nth_error (h ++ [d]) r' = Some d /\ r' <> r /\
       index d = index df /\
       (forall name, Frame.has_column name df = true ->
                     Frame.has_column name d = true) /\
       (forall name, ~ In name enrich_outputs ->
          Frame.lookup name (columns d) = Frame.lookup name (columns df))).
Proof.
  intros Hr.
  assert (Hlt : r < length h) by (apply nth_error_Some; congruence).
  split.
  - intros lags wins.
    rewrite (@create_lag_features_run h r df lags wins Hr).
    destruct (lag_features lags wins df) as [d|] eqn:Hd.
    + exists (Ok (length h)), d.
      split; [reflexivity|]. split; [now apply nth_error_grow|].
      intros r' Hr'. inversion Hr'; subst r'.
      split; [apply nth_error_last|]. split; [lia|].
      now apply lag_features_keeps.
    + exists (Raise (KeyError target)), df.
      split; [reflexivity|]. split; [now apply nth_error_grow|].
      intros r' Hr'. discriminate.
  - intros dayofyear np_sin np_cos.
    pose proof (@enrich_features_run dayofyear np_sin np_cos h r df Hr) as Hrun.
    destruct (enriched dayofyear np_sin np_cos df) as [d|] eqn:Hd.
    + exists (Ok (length h)), d.
      split; [exact Hrun|]. split; [now apply nth_error_grow|].
      intros r' Hr'. inversion Hr'; subst r'.
      split; [apply nth_error_last|]. split; [lia|].
      now apply enriched_keeps with (1 := Hd).
    + destruct Hrun as [e [d' Hrun]].
      exists (Raise e), d'.
      split; [exact Hrun|]. split; [now apply nth_error_grow|].
      intros r' Hr'. discriminate.
Qed.

(** The theorem at a heap holding the six-row sample. *)
Lemma calls_copy_and_add_witness :
  exists d,
    create_lag_features 0 forecast_lags forecast_windows [sample 6] =
      (Ok 1, [sample 6] ++ [d]) /\
    nth_error ([sample 6] ++ [d]) 0 = Some (sample 6) /\
    Frame.lookup "furnace" (columns d) =
      Frame.lookup "furnace" (columns (sample 6)).
Proof.
  destruct (@calls_copy_and_add [sample 6] 0 (sample 6) eq_refl) as [Hlag _].
  destruct (Hlag forecast_lags forecast_windows) as [res [d [Hrun [Hsame Hok]]]].
  assert (Hres : res = Ok 1).
  { pose proof (@create_lag_features_run [sample 6] 0 (sample 6)
                  forecast_lags forecast_windows eq_refl) as E.
    rewrite Hrun in E. vm_compute in E. now inversion E. }
  exists d. subst res. split; [exact Hrun|]. split; [exact Hsame|].
  destruct (Hok 1 eq_refl) as [_ [_ [_ [_ Hframe]]]].
  apply Hframe. vm_compute. intuition discriminate.
Defined.

(** C9 as stated fails where the input already has a column with an
    assigned name.  The notebook's own second call is such a call: the
    concatenated frame it passes has [lag_1], inherited from the training
    frame, and the frame returned has another [lag_1]. *)
Lemma overwrite_counterexample :
  exists d,
    returns (fun r => create_lag_features r forecast_lags forecast_windows)
      (forecast_input (train_frame 5 (sample 6)) (forecast_rows 5 (sample 6)))
      d /\
    Frame.has_column (lag_name 1)
      (forecast_input (train_frame 5 (sample 6)) (forecast_rows 5 (sample 6)))
      = true /\
    Frame.lookup (lag_name 1) (columns d) <>
    Frame.lookup (lag_name 1)
      (columns (forecast_input (train_frame 5 (sample 6))
                  (forecast_rows 5 (sample 6)))).
Proof.
  eexists.
  split; [apply returns_lag_features; vm_compute; reflexivity|].
  split; [vm_compute; reflexivity|].
  vm_compute. discriminate.
Qed.

(** * The lag-feature cell on a whole table *)

(** The number of training rows for the split point [sz] on [n] rows. *)
Lemma lag_run_clamped df0 x0 sz :
  Frame.lookup target (columns df0) = Some x0 ->
  split_index (Z.of_nat (Frame.len df0)) = Some sz ->
  lag_run df0 =
  Ok (train_frame (Nat.min (Z.to_nat sz) (Frame.len df0)) df0,
      forecast_frame (Nat.min (Z.to_nat sz) (Frame.len df0)) df0).
Proof.
  intros Hx Hsz. rewrite train_frame_clamp, forecast_frame_clamp.
  now apply lag_run_frames with (x0 := x0).
Qed.

(** C4.  On every table with unique timestamps (and the target column,
    and a length whose split point is defined) the notebook sorts the rows
    ascending by timestamp and returns a training frame and a forecast
    frame whose timestamps, one after the other, are exactly the sorted
    timestamps of the input: no timestamp is in both frames and every
    training timestamp precedes every forecast timestamp. *)
Theorem train_and_forecast_partition
  (df0 : DataFrame) (x0 : list (option Q)) (sz : Z) :
  NoDup (index df0) ->
  Frame.lookup target (columns df0) = Some x0 ->
  split_index (Z.of_nat (Frame.len df0)) = Some sz ->
  exists T F,
    lag_run df0 = Ok (T, F) /\
    Permutation (index (Frame.sort_index df0)) (index df0) /\
    StronglySorted Z.lt (index (Frame.sort_index df0)) /\
    index T ++ index F = index (Frame.sort_index df0) /\
    disjoint (index T) (index F) /\
    precede (index T) (index F).
Proof.
  intros Hnd Hx Hsz.
  set (s := Nat.min (Z.to_nat sz) (Frame.len df0)).
  assert (Hs : s <= Frame.len df0) by (unfold s; lia).
  exists (train_frame s df0), (forecast_frame s df0).
  split; [now apply lag_run_clamped with (x0 := x0)|].
  split; [apply sort_index_perm|].
  pose proof (sort_index_strict df0 Hnd) as Hsorted.
  split; [exact Hsorted|].
  rewrite (@index_T df0 x0 s Hx), (@index_F df0 x0 s Hnd Hx Hs).
  unfold sorted_input.
  split; [apply firstn_skipn|].
  rewrite <- (firstn_skipn s (index (Frame.sort_index df0))) in Hsorted.
  apply strict_app in Hsorted. destruct Hsorted as [_ [_ Hp]].
  split; [now apply precede_disjoint|exact Hp].
Qed.

(** The theorem at twenty sample rows delivered latest first. *)
Lemma train_and_forecast_partition_witness :
  exists T F,
    lag_run (sample_reversed 20) = Ok (T, F) /\
    Permutation (index (Frame.sort_index (sample_reversed 20)))
      (index (sample_reversed 20)) /\
    StronglySorted Z.lt (index (Frame.sort_index (sample_reversed 20))) /\
    index T ++ index F = index (Frame.sort_index (sample_reversed 20)) /\
    disjoint (index T) (index F) /\
    precede (index T) (index F).
Proof.
  apply (@train_and_forecast_partition (sample_reversed 20)
           (series_of target (sample_reversed 20)) 18%Z).
  - apply uniqueb_sound. vm_compute. reflexivity.
  - vm_compute. reflexivity.
  - vm_compute. reflexivity.
Defined.

(** * The split *)

Lemma len_train_rows s df0 :
  Frame.len (train_rows s df0) = Nat.min s (Frame.len df0).
Proof. unfold train_rows. now rewrite len_iloc_to, len_sorted_input. Qed.

Lemma len_forecast_rows s df0 :
  Frame.len (forecast_rows s df0) = Frame.len df0 - s.
Proof. unfold forecast_rows. now rewrite len_iloc_from, len_sorted_input. Qed.



Lemma many_rows : Z.of_nat many = 1250999896491811%Z.
Proof. unfold many. apply Z2Nat.id. lia. Qed.

Lemma len_long_table : Frame.len long_table = many.
Proof.
  change (Frame.len long_table) with (length (repeat 0%Z many)).
  apply repeat_length.
Qed.


(** * The spillover rows and the rows kept *)

Lemma value_iloc_from s d name j :
  Frame.value (Frame.iloc_from s d) name j = Frame.value d name (s + j).
Proof.
  unfold Frame.value. rewrite columns_iloc_from, lookup_map_columns.
  destruct (Frame.lookup name (columns d)); simpl; [apply at_skipn|reflexivity].
Qed.

Lemma spillover_input_run (h : heap) t f T F0 :
  nth_error h t = Some T -> nth_error h f = Some F0 ->
  spillover_input t f h =
  (Ok (S (length h)),
   h ++ [Frame.tail spillover T; Frame.concat (Frame.tail spillover T) F0]).
Proof.
  intros Ht Hf. unfold spillover_input.
  erewrite bind_ok by (apply method1_run; exact Ht).
  erewrite method2_run.
  - rewrite length_app, <- app_assoc. simpl. f_equal. f_equal. lia.
  - apply nth_error_last.
  - now apply nth_error_grow.
Qed.

Lemma len_tail n d : Frame.len (Frame.tail n d) = Nat.min n (Frame.len d).
Proof. unfold Frame.tail. rewrite len_iloc_from. lia. Qed.

(** C6, as the code has it.  The frame passed to the generator for the
    forecast segment is the concatenation of the last 12 rows of the
    training frame, all of them when there are fewer, with the whole
    forecast segment: 12 is the largest forecast window, not the largest
    forecast lag.  From the generator's result the notebook keeps the rows
    whose timestamp is not a training timestamp: on a table with unique
    timestamps these are exactly the forecast rows, in order, each with the
    input's values in every column that is not a lag or rolling feature,
    and none of them is a training row. *)
Theorem spillover_and_new_rows
  (df0 : DataFrame) (x0 : list (option Q)) (sz : Z) :
  NoDup (index df0) ->
  Frame.lookup target (columns df0) = Some x0 ->
  split_index (Z.of_nat (Frame.len df0)) = Some sz ->
  exists T F0 F,
    split_run df0 = Ok (Frame.iloc_to (Frame.len T) (Frame.sort_index df0), F0) /\
    lag_run df0 = Ok (T, F) /\
    (forall (h : heap) t f, nth_error h t = Some T -> nth_error h f = Some F0 ->
       spillover_input t f h =
       (Ok (S (length h)),
        h ++ [Frame.tail 12 T; Frame.concat (Frame.tail 12 T) F0])) /\
    Frame.len (Frame.tail 12 T) = Nat.min 12 (Frame.len T) /\
    returns (fun r => create_lag_features r forecast_lags forecast_windows)
      (Frame.concat (Frame.tail 12 T) F0)
      (generated forecast_lags forecast_windows
         (Frame.concat (Frame.tail 12 T) F0)) /\
    F = Frame.loc
          (Frame.difference
             (index (Frame.concat (Frame.tail 12 T) F0)) (index T))
          (generated forecast_lags forecast_windows
             (Frame.concat (Frame.tail 12 T) F0)) /\
    index F = index F0 /\
    disjoint (index F) (index T) /\
    forall name j,
      ~ In name feature_names -> j < Frame.len F ->
      Frame.value F name j = Frame.value F0 name j.
Proof.
  intros Hnd Hx Hsz.
  set (s := Nat.min (Z.to_nat sz) (Frame.len df0)).
  assert (Hs : s <= Frame.len df0) by (unfold s; lia).
  exists (train_frame s df0), (forecast_rows s df0), (forecast_frame s df0).
  pose proof (@len_T df0 x0 s Hx Hs) as HlenT.
  pose proof (@index_T df0 x0 s Hx) as HiT.
  pose proof (@index_F df0 x0 s Hnd Hx Hs) as HiF.
  pose proof (@len_F df0 x0 s Hnd Hx Hs) as HlenF.
  split.
  { rewrite (split_run_unfold _ Hsz), HlenT.
    rewrite <- (train_rows_clamp (Z.to_nat sz) df0).
    rewrite <- (forecast_rows_clamp (Z.to_nat sz) df0). reflexivity. }
  split; [now apply lag_run_clamped with (x0 := x0)|].
  split; [intros h t f Ht Hf; now apply spillover_input_run|].
  split; [apply len_tail|].
  assert (Hy : exists y,
             Frame.lookup target
               (columns (Frame.concat (Frame.tail 12 (train_frame s df0))
                           (forecast_rows s df0))) = Some y).
  { exists (skipn (s - spillover) (series_of target (sorted_input df0))).
    exact (@lookup_target_FI df0 x0 s Hx Hs). }
  destruct Hy as [y Hy].
  pose proof (generated_some forecast_lags forecast_windows _ Hy) as Hgen.
  split; [now apply returns_lag_features|].
  split.
  { unfold forecast_frame, keep_new, forecast_features, forecast_input.
    change spillover with 12.
    now rewrite (lag_features_index _ _ _ Hy Hgen). }
  split; [exact HiF|].
  split.
  { rewrite HiF, HiT. unfold sorted_input.
    pose proof (sort_index_strict df0 Hnd) as Hsorted.
    rewrite <- (firstn_skipn s (index (Frame.sort_index df0))) in Hsorted.
    apply strict_app in Hsorted. destruct Hsorted as [_ [_ Hp]].
    intros t Ht Hin. specialize (Hp t t Hin Ht). lia. }
  intros name j Hn Hj. rewrite HlenF in Hj.
  rewrite (@F_input_column df0 x0 s Hnd Hx Hs name j Hn Hj).
  unfold forecast_rows. now rewrite value_iloc_from.
Qed.

(** The theorem at the twenty-row sample. *)
Lemma spillover_and_new_rows_witness :
  exists T F0 F,
    lag_run (sample 20) = Ok (T, F) /\
    Frame.len (Frame.tail 12 T) = Nat.min 12 (Frame.len T) /\
    index F = index F0 /\
    disjoint (index F) (index T).
Proof.
  destruct (@spillover_and_new_rows (sample 20)
              (series_of target (sample 20)) 18%Z)
    as [T [F0 [F [_ [Hrun [_ [Htail [_ [_ [Hidx [Hdis _]]]]]]]]]]].
  - apply uniqueb_sound. vm_compute. reflexivity.
  - vm_compute. reflexivity.
  - vm_compute. reflexivity.
  - exists T, F0, F. auto.
Defined.

(** C6 as stated fails on the number of spillover rows: the largest
    forecast lag is 3, and the frame the generator is called on has twelve
    training rows in front of the forecast rows. *)
Lemma spillover_counterexample :
  list_max forecast_lags = 3 /\
  exists T F0 c,
    split_run (sample 20) = Ok (Frame.iloc_to (Frame.len T) (Frame.sort_index (sample 20)), F0) /\
    returns (fun r => create_lag_features r train_lags train_windows)
      (Frame.iloc_to (Frame.len T) (Frame.sort_index (sample 20))) T /\
    spillover_input 0 1 [T; F0] = (Ok 3, [T; F0] ++ [Frame.tail 12 T; c]) /\
    Frame.len c = 12 + Frame.len F0 /\
    c <> Frame.concat (Frame.tail (list_max forecast_lags) T) F0.
Proof.
  split; [reflexivity|].
  exists (train_frame 18 (sample 20)), (forecast_rows 18 (sample 20)).
  eexists.
  split; [vm_compute; reflexivity|].
  split; [apply returns_lag_features; vm_compute; reflexivity|].
  split; [vm_compute; reflexivity|].
  split; [vm_compute; reflexivity|].
  vm_compute. discriminate.
Qed.

(** * The features of the forecast rows *)

Lemma all_present_some win :
  (forall c, In c win -> c <> None) -> exists l, all_present win = Some l /\
                                                 length l = length win.
Proof.
  induction win as [|[q|] r IH]; intros H.
  - exists []. auto.
  - destruct IH as [l [Hl Hlen]]; [intros c Hc; apply H; now right|].
    exists (q :: l). simpl. rewrite Hl. simpl. auto.
  - exfalso. apply (H None); [now left|reflexivity].
Qed.

Lemma mean_of_present win :
  win <> [] -> (forall c, In c win -> c <> None) -> mean_of win <> None.
Proof.
  intros Hne H. unfold mean_of.
  destruct (all_present_some win H) as [l [-> Hlen]].
  destruct l as [|q l]; [|discriminate].
  destruct win; [congruence|discriminate].
Qed.

Lemma in_previous w (X : list (option Q)) n c :
  In c (previous w X n) -> exists i, i < length X /\ c = at_ X i.
Proof.
  unfold previous. intros H.
  apply In_nth with (d := None) in H. destruct H as [p [Hp Hc]].
  rewrite length_firstn, length_skipn in Hp.
  rewrite nth_firstn in Hc.
  replace (p <? w) with true in Hc by (symmetry; apply Nat.ltb_lt; lia).
  rewrite nth_skipn in Hc.
  exists (n - w + p). split; [lia|]. now rewrite <- Hc.
Qed.

Lemma previous_length w (X : list (option Q)) n :
  w <= n -> n <= length X -> length (previous w X n) = w.
Proof.
  intros Hw Hn. unfold previous. rewrite length_firstn, length_skipn. lia.
Qed.




(** * No look-ahead *)

Lemma value_series_of d name i :
  Frame.value d name i = at_ (series_of name d) i.
Proof.
  unfold Frame.value, series_of.
  destruct (Frame.lookup name (columns d)); [reflexivity|].
  unfold at_. now destruct i.
Qed.

Lemma previous_ext w (a b : list (option Q)) n :
  w <= n -> n <= length a -> n <= length b ->
  (forall i, i < n -> at_ a i = at_ b i) ->
  previous w a n = previous w b n.
Proof.
  intros Hw Ha Hb H. apply nth_ext with (d := None) (d' := None).
  - now rewrite !previous_length.
  - intros p Hp. rewrite previous_length in Hp by assumption.
    unfold previous. rewrite !nth_firstn.
    replace (p <? w) with true by (symmetry; apply Nat.ltb_lt; lia).
    rewrite !nth_skipn. apply H. lia.
Qed.

(** C2, as the code has it.  The features of a forecast row are computed
    from the rows before it and from nothing else: the training rows and,
    from the second forecast row on, the forecast rows that precede it.
    For two tables with the same unique timestamps whose targets agree on
    every row of the sorted table before forecast row [j], the generated
    [lag_k] and [roll_mean_w] of forecast row [j] are identical; for the
    first forecast row that is agreement on the training segment alone. *)
Theorem forecast_features_look_back
  (a b : DataFrame) (xa xb : list (option Q)) (sz : Z) :
  NoDup (index a) ->
  index b = index a ->
  Frame.lookup target (columns a) = Some xa ->
  Frame.lookup target (columns b) = Some xb ->
  split_index (Z.of_nat (Frame.len a)) = Some sz ->
  exists Ta Fa Tb Fb,
    lag_run a = Ok (Ta, Fa) /\ lag_run b = Ok (Tb, Fb) /\
    index Ta = index Tb /\ index Fa = index Fb /\
    forall j, j < Frame.len Fa ->
      (forall i, i < Frame.len Ta + j ->
         Frame.value (Frame.sort_index a) target i =
         Frame.value (Frame.sort_index b) target i) ->
      (forall k, In k forecast_lags ->
         Frame.value Fa (lag_name k) j = Frame.value Fb (lag_name k) j) /\
      (forall w, In w forecast_windows ->
         Frame.value Fa (roll_name w) j = Frame.value Fb (roll_name w) j).
Proof.
  intros Hnd Hidx Hxa Hxb Hsz.
  assert (Hlen : Frame.len b = Frame.len a) by (unfold Frame.len; now rewrite Hidx).
  assert (Hndb : NoDup (index b)) by now rewrite Hidx.
  assert (Hszb : split_index (Z.of_nat (Frame.len b)) = Some sz)
    by now rewrite Hlen.
  assert (Hsorted : index (sorted_input b) = index (sorted_input a)).
  { unfold sorted_input, Frame.sort_index. rewrite !index_take_rows.
    now rewrite Hidx. }
  set (s := Nat.min (Z.to_nat sz) (Frame.len a)).
  assert (Hs : s <= Frame.len a) by (unfold s; lia).
  assert (Hsb : s <= Frame.len b) by lia.
  exists (train_frame s a), (forecast_frame s a),
         (train_frame s b), (forecast_frame s b).
  split; [now apply lag_run_clamped with (x0 := xa)|].
  split.
  { unfold s. rewrite <- Hlen. now apply lag_run_clamped with (x0 := xb). }
  split.
  { now rewrite (@index_T a xa s Hxa), (@index_T b xb s Hxb), Hsorted. }
  split.
  { now rewrite (@index_F a xa s Hnd Hxa Hs), (@index_F b xb s Hndb Hxb Hsb),
      Hsorted. }
  rewrite (@len_T a xa s Hxa Hs), (@len_F a xa s Hnd Hxa Hs).
  intros j Hj Hagree.
  fold (sorted_input a) in Hagree. fold (sorted_input b) in Hagree.
  assert (Hat : forall i, i < s + j ->
            at_ (series_of target (sorted_input a)) i =
            at_ (series_of target (sorted_input b)) i).
  { intros i Hi. rewrite <- !value_series_of. now apply Hagree. }
  split.
  - intros k Hk.
    rewrite (@F_lag a xa s Hnd Hxa Hs k j Hk Hj).
    rewrite (@F_lag b xb s Hndb Hxb Hsb k j Hk ltac:(lia)).
    destruct (Nat.ltb_spec (Nat.min spillover s + j) k); [reflexivity|].
    apply Hat.
    assert (1 <= k) by (unfold forecast_lags in Hk; simpl in Hk; lia).
    lia.
  - intros w Hw.
    rewrite (@F_roll a xa s Hnd Hxa Hs w j Hw Hj).
    rewrite (@F_roll b xb s Hndb Hxb Hsb w j Hw ltac:(lia)).
    destruct (Nat.ltb_spec (Nat.min spillover s + j) w); [reflexivity|].
    f_equal. apply previous_ext; try assumption.
    + lia.
    + rewrite (@X_length a xa Hxa). lia.
    + rewrite (@X_length b xb Hxb). lia.
Qed.

(** The theorem at the twenty-row sample and the same sample with another
    target on its first forecast row: the features of that row are the
    same in both. *)
Lemma forecast_features_look_back_witness :
  exists Ta Fa Tb Fb,
    lag_run (sample 20) = Ok (Ta, Fa) /\
    lag_run sample_shocked = Ok (Tb, Fb) /\
    Frame.value Fa (lag_name 1) 0 = Frame.value Fb (lag_name 1) 0 /\
    Frame.value Fa (roll_name 12) 0 = Frame.value Fb (roll_name 12) 0.
Proof.
  destruct (@forecast_features_look_back (sample 20) sample_shocked
              (series_of target (sample 20)) (series_of target sample_shocked)
              18%Z)
    as [Ta [Fa [Tb [Fb [Ha [Hb [_ [_ Hrows]]]]]]]].
  - apply uniqueb_sound. vm_compute. reflexivity.
  - vm_compute. reflexivity.
  - vm_compute. reflexivity.
  - vm_compute. reflexivity.
  - vm_compute. reflexivity.
  - exists Ta, Fa, Tb, Fb. split; [exact Ha|]. split; [exact Hb|].
    assert (HT : Ta = train_frame 18 (sample 20) /\
                 Fa = forecast_frame 18 (sample 20)).
    { pose proof (@lag_run_frames (sample 20) (series_of target (sample 20))
                    18%Z eq_refl eq_refl) as E.
      rewrite Ha in E. inversion E. auto. }
    destruct HT as [-> ->].
    destruct (Hrows 0) as [Hlag Hroll].
    + vm_compute. lia.
    + intros i Hi. change (Frame.len (train_frame 18 (sample 20)) + 0) with 18 in Hi.
      do 18 (destruct i as [|i]; [vm_compute; reflexivity|]). lia.
    + split; [apply Hlag|apply Hroll]; simpl; tauto.
Defined.

(** C2 as stated fails from the second forecast row on: the two tables
    have the same training segment and differ in the target of the first
    forecast row, and [lag_1] of the second forecast row is that target. *)
Lemma forecast_leak_counterexample :
  exists Ta Fa Tb Fb,
    lag_run (sample 20) = Ok (Ta, Fa) /\
    lag_run sample_shocked = Ok (Tb, Fb) /\
    split_run (sample 20) = Ok (Frame.iloc_to 18 (sample 20),
                                Frame.iloc_from 18 (sample 20)) /\
    split_run sample_shocked = Ok (Frame.iloc_to 18 sample_shocked,
                                   Frame.iloc_from 18 sample_shocked) /\
    Frame.iloc_to 18 (sample 20) = Frame.iloc_to 18 sample_shocked /\
    Ta = Tb /\
    Frame.value Fa (lag_name 1) 1 = Some (180 # 1)%Q /\
    Frame.value Fb (lag_name 1) 1 = Some 999%Q /\
    Frame.value Fa (lag_name 1) 1 <> Frame.value Fb (lag_name 1) 1.
Proof.
  exists (train_frame 18 (sample 20)), (forecast_frame 18 (sample 20)),
         (train_frame 18 sample_shocked), (forecast_frame 18 sample_shocked).
  split.
  { exact (@lag_run_frames (sample 20) (series_of target (sample 20))
             18%Z eq_refl eq_refl). }
  split.
  { exact (@lag_run_frames sample_shocked (series_of target sample_shocked)
             18%Z eq_refl eq_refl). }
  repeat split; vm_compute; try reflexivity. discriminate.
Qed.

(** * The whole notebook *)

Lemma has_column_take_rows ps d name :
  Frame.has_column name (Frame.take_rows ps d) = Frame.has_column name d.
Proof.
  unfold Frame.has_column, Frame.take_rows. simpl columns.
  rewrite lookup_map_columns. now destruct (Frame.lookup name (columns d)).
Qed.

Lemma has_column_iloc_to s d name :
  Frame.has_column name (Frame.iloc_to s d) = Frame.has_column name d.
Proof.
  unfold Frame.has_column. rewrite columns_iloc_to, lookup_map_columns.
  now destruct (Frame.lookup name (columns d)).
Qed.

Lemma has_column_iloc_from s d name :
  Frame.has_column name (Frame.iloc_from s d) = Frame.has_column name d.
Proof.
  unfold Frame.has_column. rewrite columns_iloc_from, lookup_map_columns.
  now destruct (Frame.lookup name (columns d)).
Qed.

Lemma has_column_concat a b name :
  Frame.has_column name (Frame.concat a b) =
  Frame.has_column name a || Frame.has_column name b.
Proof.
  unfold Frame.has_column. rewrite lookup_concat.
  destruct (Frame.lookup name (columns a)); [reflexivity|].
  now destruct (Frame.lookup name (columns b)).
Qed.

Lemma has_column_generated lags wins d name :
  Frame.has_column name d = true ->
  Frame.has_column name (generated lags wins d) = true.
Proof.
  intros H. unfold generated.
  destruct (lag_features lags wins d) as [d'|] eqn:E; [|assumption].
  now apply (lag_features_keeps _ _ _ E).
Qed.

Lemma has_column_train_frame s df0 name :
  Frame.has_column name df0 = true ->
  Frame.has_column name (train_frame s df0) = true.
Proof.
  intros H. unfold train_frame, train_rows, sorted_input, Frame.sort_index.
  apply has_column_generated.
  now rewrite has_column_iloc_to, has_column_take_rows.
Qed.

Lemma has_column_forecast_frame s df0 name :
  Frame.has_column name df0 = true ->
  Frame.has_column name (forecast_frame s df0) = true.
Proof.
  intros H. unfold forecast_frame, keep_new, Frame.loc.
  rewrite has_column_take_rows. unfold forecast_features.
  apply has_column_generated. unfold forecast_input.
  rewrite has_column_concat. apply orb_true_iff. right.
  unfold forecast_rows, sorted_input, Frame.sort_index.
  now rewrite has_column_iloc_from, has_column_take_rows.
Qed.

Lemma notebook_run_unfold dayofyear np_sin np_cos df0 sz T F1 T' F' :
  split_index (Z.of_nat (Frame.len df0)) = Some sz ->
  lag_features train_lags train_windows (train_rows (Z.to_nat sz) df0) = Some T ->
  lag_features forecast_lags forecast_windows
    (forecast_input T (forecast_rows (Z.to_nat sz) df0)) = Some F1 ->
  enriched dayofyear np_sin np_cos T = Some T' ->
  enriched dayofyear np_sin np_cos (keep_new F1 T) = Some F' ->
  notebook_run dayofyear np_sin np_cos df0 = Ok (T', F').
Proof.
  intros Hs HT HF HT' HF'.
  unfold notebook_run, frames, load, notebook, split.
  run_heap. rewrite len_sort_index, Hs. run_heap.
  unfold lag_cell. run_heap.
  erewrite create_lag_features_run by reflexivity.
  fold (sorted_input df0). fold (train_rows (Z.to_nat sz) df0).
  rewrite HT. run_heap.
  unfold spillover_input. run_heap.
  erewrite create_lag_features_run by reflexivity.
  fold (forecast_rows (Z.to_nat sz) df0).
  fold (forecast_input T (forecast_rows (Z.to_nat sz) df0)).
  rewrite HF. run_heap.
  unfold keep_new_rows. run_heap.
  fold (keep_new F1 T).
  unfold enrich_cell. run_heap.
  erewrite (@returns_enriched _ _ _ _ _ HT') by reflexivity. run_heap.
  erewrite (@returns_enriched _ _ _ _ _ HF') by reflexivity. run_heap.
  reflexivity.
Qed.

Lemma notebook_run_frames dayofyear np_sin np_cos df0 x0 sz T' F' :
  Frame.lookup target (columns df0) = Some x0 ->
  split_index (Z.of_nat (Frame.len df0)) = Some sz ->
  enriched dayofyear np_sin np_cos (train_frame (Z.to_nat sz) df0) = Some T' ->
  enriched dayofyear np_sin np_cos (forecast_frame (Z.to_nat sz) df0) = Some F' ->
  notebook_run dayofyear np_sin np_cos df0 = Ok (T', F').
Proof.
  intros Hx Hsz HT' HF'. unfold forecast_frame in HF'.
  pose proof (lookup_target_T0 df0 (Z.to_nat sz) Hx) as HT0.
  pose proof (generated_some train_lags train_windows _ HT0) as HT.
  apply (notebook_run_unfold _ _ _ _ Hsz HT) with (3 := HF'); [|exact HT'].
  unfold forecast_features.
  pose proof (lag_features_target _ _ _ HT0 HT) as Ht.
  fold (train_frame (Z.to_nat sz) df0) in Ht.
  assert (exists y, Frame.lookup target
            (columns (forecast_input (train_frame (Z.to_nat sz) df0)
                        (forecast_rows (Z.to_nat sz) df0))) = Some y)
    as [y Hy].
  { unfold forecast_input. rewrite lookup_concat.
    unfold Frame.tail at 1. rewrite columns_iloc_from, lookup_map_columns.
    rewrite Ht. simpl. eauto. }
  exact (generated_some _ _ _ Hy).
Qed.

Lemma enriched_net dayofyear np_sin np_cos d d' :
  enriched dayofyear np_sin np_cos d = Some d' ->
  index d' = index d /\
  Frame.has_column net_energy d' = true /\
  Frame.value d' net_energy 0 = None /\
  (forall i,
     Frame.value d' net_energy i =
     cell_sub (Frame.value d' "lag_1" i)
              (at_ (shift 1 (series_of "generated_solar" d')) i)) /\
  (forall i, Frame.value d' "lag_1" i = Frame.value d "lag_1" i).
Proof.
  intros H.
  destruct (@enriched_inv dayofyear np_sin np_cos d d' H)
    as (apps & furnace & lag_1 & solar & hour & wd &
        _ & _ & Hl & Hs & _ & _ & ->).
  assert (Hlag : Frame.lookup "lag_1"
            (columns (enrich_with dayofyear np_sin np_cos apps furnace lag_1
                        solar hour wd d)) = Some lag_1).
  { rewrite enrich_with_frame; [exact Hl|].
    unfold enrich_outputs. simpl. intuition discriminate. }
  assert (Hsol : Frame.lookup "generated_solar"
            (columns (enrich_with dayofyear np_sin np_cos apps furnace lag_1
                        solar hour wd d)) = Some solar).
  { rewrite enrich_with_frame; [exact Hs|].
    unfold enrich_outputs. simpl. intuition discriminate. }
  split; [reflexivity|].
  unfold Frame.has_column, Frame.value, series_of, net_energy.
  rewrite enrich_with_net, Hlag, Hsol, Hl.
  split; [reflexivity|]. split; [apply net_energy_first_row|].
  split; [intros i; apply at_series_sub|reflexivity].
Qed.

(** C10.  On every table with unique timestamps that has the columns the
    notebook reads, the notebook returns two enriched frames that both have
    the column [net_energy_lag_1], on every row the difference of [lag_1]
    and the solar series shifted by one row within the frame, and on the
    first row of each frame missing.  On the first forecast row [lag_1]
    itself is the target of the last training row, present whenever that
    target is. *)
Theorem net_energy_missing_on_first_row
  (dayofyear : Z -> Z) (np_sin np_cos : Q -> Q) (df0 : DataFrame) (sz : Z) :
  NoDup (index df0) ->
  (forall n, In n raw_inputs -> Frame.has_column n df0 = true) ->
  split_index (Z.of_nat (Frame.len df0)) = Some sz ->
  exists T F,
    notebook_run dayofyear np_sin np_cos df0 = Ok (T, F) /\
    Frame.has_column net_energy T = true /\
    Frame.has_column net_energy F = true /\
    Frame.value T net_energy 0 = None /\
    Frame.value F net_energy 0 = None /\
    (forall i,
       Frame.value T net_energy i =
       cell_sub (Frame.value T "lag_1" i)
                (at_ (shift 1 (series_of "generated_solar" T)) i)) /\
    (forall i,
       Frame.value F net_energy i =
       cell_sub (Frame.value F "lag_1" i)
                (at_ (shift 1 (series_of "generated_solar" F)) i)) /\
    (0 < Frame.len T -> 0 < Frame.len F ->
     Frame.value F "lag_1" 0 =
       Frame.value (Frame.sort_index df0) target (Frame.len T - 1) /\
     (Frame.value (Frame.sort_index df0) target (Frame.len T - 1) <> None ->
      Frame.value F "lag_1" 0 <> None)).
Proof.
  intros Hnd Hcols Hsz.
  assert (Hx : exists x0, Frame.lookup target (columns df0) = Some x0).
  { specialize (Hcols target (or_introl eq_refl)).
    unfold Frame.has_column in Hcols.
    destruct (Frame.lookup target (columns df0)); [eauto|discriminate]. }
  destruct Hx as [x0 Hx].
  set (s := Nat.min (Z.to_nat sz) (Frame.len df0)).
  assert (Hs : s <= Frame.len df0) by (unfold s; lia).
  assert (Hraw : forall n, In n enrich_inputs -> n <> "lag_1"%string ->
                           Frame.has_column n df0 = true).
  { intros n Hn Hne. apply Hcols. unfold raw_inputs, enrich_inputs in *.
    right. apply in_app_or in Hn. apply in_or_app.
    destruct Hn as [Hn|Hn]; [now left|right].
    simpl in Hn |- *. intuition congruence. }
  assert (HinT : forall n, In n enrich_inputs ->
                           Frame.has_column n (train_frame s df0) = true).
  { intros n Hn. destruct (string_dec n "lag_1") as [->|Hne].
    - unfold Frame.has_column.
      change "lag_1"%string with (lag_name 1).
      rewrite (lag_features_lag _ _ _ (lookup_target_T0 df0 s Hx)
                 (@T_lag_features df0 x0 s Hx) 1); [reflexivity|].
      unfold train_lags. simpl. tauto.
    - apply has_column_train_frame. now apply Hraw. }
  assert (HinF : forall n, In n enrich_inputs ->
                           Frame.has_column n (forecast_frame s df0) = true).
  { intros n Hn. destruct (string_dec n "lag_1") as [->|Hne].
    - unfold forecast_frame, keep_new, Frame.loc.
      rewrite has_column_take_rows. unfold Frame.has_column.
      change "lag_1"%string with (lag_name 1).
      rewrite (lag_features_lag _ _ _ (@lookup_target_FI df0 x0 s Hx Hs)
                 (@F1_lag_features df0 x0 s Hx Hs) 1); [reflexivity|].
      unfold forecast_lags. simpl. tauto.
    - apply has_column_forecast_frame. now apply Hraw. }
  destruct (@enriched_some dayofyear np_sin np_cos _ HinT) as [T' HT'].
  destruct (@enriched_some dayofyear np_sin np_cos _ HinF) as [F' HF'].
  exists T', F'.
  split.
  { apply notebook_run_frames with (x0 := x0) (sz := sz); try assumption.
    - now rewrite <- train_frame_clamp.
    - now rewrite <- forecast_frame_clamp. }
  destruct (enriched_net _ _ _ _ HT') as [HiT [HhT [H0T [HfT HlT]]]].
  destruct (enriched_net _ _ _ _ HF') as [HiF [HhF [H0F [HfF HlF]]]].
  repeat (split; [assumption|]).
  intros HlenT HlenF.
  assert (Hgoal : Frame.value F' "lag_1" 0 =
            Frame.value (Frame.sort_index df0) target (Frame.len T' - 1));
    [|split; [exact Hgoal|now rewrite Hgoal]].
  assert (ElT : Frame.len T' = s).
  { unfold Frame.len. rewrite HiT. exact (@len_T df0 x0 s Hx Hs). }
  assert (ElF : Frame.len F' = Frame.len df0 - s).
  { unfold Frame.len. rewrite HiF. exact (@len_F df0 x0 s Hnd Hx Hs). }
  rewrite HlF, ElT. rewrite ElT in HlenT. rewrite ElF in HlenF.
  change "lag_1"%string with (lag_name 1).
  rewrite (@F_lag df0 x0 s Hnd Hx Hs 1 0); [|unfold forecast_lags; simpl; tauto
                                            |exact HlenF].
  replace (Nat.min spillover s + 0 <? 1) with false
    by (symmetry; apply Nat.ltb_ge; unfold spillover; lia).
  rewrite value_series_of. unfold sorted_input. f_equal. lia.
Qed.

(** The theorem at the twenty-row sample, delivered latest first. *)
Lemma net_energy_missing_on_first_row_witness :
  exists T F,
    notebook_run sample_dayofyear sample_sin sample_cos (sample_reversed 20)
      = Ok (T, F) /\
    Frame.value T net_energy 0 = None /\
    Frame.value F net_energy 0 = None /\
    Frame.value F "lag_1" 0 = Some (inject_Z 170).
Proof.
  destruct (@net_energy_missing_on_first_row sample_dayofyear sample_sin
              sample_cos (sample_reversed 20) 18%Z)
    as [T [F [Hrun [_ [_ [HT [HF [_ [_ Hlag]]]]]]]]].
  - apply uniqueb_sound. vm_compute. reflexivity.
  - intros n Hn. unfold raw_inputs, appliance_cols in Hn. simpl in Hn.
    repeat (destruct Hn as [<-|Hn]; [vm_compute; reflexivity|]).
    contradiction.
  - vm_compute. reflexivity.
  - exists T, F. repeat (split; [assumption|]).
    assert (E : notebook_run sample_dayofyear sample_sin sample_cos
                  (sample_reversed 20) =
                Ok (match enriched sample_dayofyear sample_sin sample_cos
                            (train_frame 18 (sample_reversed 20)) with
                    | Some d => d | None => sample 0 end,
                    match enriched sample_dayofyear sample_sin sample_cos
                            (forecast_frame 18 (sample_reversed 20)) with
                    | Some d => d | None => sample 0 end)).
    { apply notebook_run_frames
        with (x0 := series_of target (sample_reversed 20)) (sz := 18%Z);
        vm_compute; reflexivity. }
    rewrite Hrun in E.
    assert (ElT : Frame.len T = 18).
    { apply (f_equal (fun r => match r with
                               | Ok (t, _) => Frame.len t
                               | Raise _ => 0
                               end)) in E.
      rewrite E. vm_compute. reflexivity. }
    assert (ElF : Frame.len F = 2).
    { apply (f_equal (fun r => match r with
                               | Ok (_, f) => Frame.len f
                               | Raise _ => 0
                               end)) in E.
      rewrite E. vm_compute. reflexivity. }
    destruct Hlag as [Hlag _]; [lia|lia|].
    rewrite Hlag, ElT. vm_compute. reflexivity.
Defined.

(** * Further properties of the two functions and of the notebook

    Rational arithmetic in the statements on the weekend flag is settled
    by [lra]. *)

From Stdlib Require Import Lqa.

(** ** [create_lag_features] on its own *)

Lemma returns_lag_features_inv lags wins df d :
  returns (fun r => create_lag_features r lags wins) df d ->
  lag_features lags wins df = Some d.
Proof.
  intros H. specialize (H [df] 0 eq_refl). cbv beta in H.
  rewrite (@create_lag_features_run [df] 0 df lags wins eq_refl) in H.
  destruct (lag_features lags wins df) as [d0|]; [|discriminate].
  inversion H. reflexivity.
Qed.

(** X1.  On a frame without the column [use_house_overall] the first read
    of the target raises: [create_lag_features] raises [KeyError] as soon
    as one lag or one window is requested, and returns a plain copy when
    both lists are empty.  In both cases the heap has grown by the copy
    and the caller's frame is untouched. *)
Theorem create_lag_features_needs_target
  (h : heap) (r : ref) (df : DataFrame) (lags roll_windows : list nat) :
  nth_error h r = Some df ->
  Frame.has_column target df = false ->
  create_lag_features r lags roll_windows h =
    match lags, roll_windows with
    | [], [] => (Ok (length h), h ++ [df])
    | _, _ => (Raise (KeyError target), h ++ [df])
    end.
Proof.
  intros Hr Ht. rewrite (@create_lag_features_run h r df lags roll_windows Hr).
  unfold lag_features. unfold Frame.has_column in Ht.
  destruct (Frame.lookup target (columns df)); [discriminate|].
  destruct lags, roll_windows; reflexivity.
Qed.

(** The theorem at a two-row frame that has only an [hour] column. *)
Lemma create_lag_features_needs_target_witness :
  let df := mkDataFrame [1%Z; 2%Z] [("hour"%string, [Some 0%Q; Some 1%Q])] in
  create_lag_features 0 [1] [3] [df] = (Raise (KeyError target), [df; df]) /\
  create_lag_features 0 [] [] [df] = (Ok 1, [df; df]).
Proof.
  intros df. split.
  - apply (@create_lag_features_needs_target [df] 0 df [1] [3]); reflexivity.
  - apply (@create_lag_features_needs_target [df] 0 df [] []); reflexivity.
Defined.

Lemma fold_lag_fixed x lags d :
  (forall k, In k lags ->
     Frame.lookup (lag_name k) (columns d) = Some (shift k x)) ->
  fold_left (add_lag x) lags d = d.
Proof.
  induction lags as [|a rest IH]; intros H; simpl; [reflexivity|].
  assert (E : add_lag x d a = d)
    by (unfold add_lag; apply with_column_same, H; now left).
  rewrite E. apply IH. intros k Hk. apply H. now right.
Qed.

Lemma fold_roll_fixed x wins d :
  (forall w, In w wins ->
     Frame.lookup (roll_name w) (columns d) =
     Some (rolling_mean w (shift 1 x))) ->
  fold_left (add_roll x) wins d = d.
Proof.
  induction wins as [|a rest IH]; intros H; simpl; [reflexivity|].
  assert (E : add_roll x d a = d)
    by (unfold add_roll; apply with_column_same, H; now left).
  rewrite E. apply IH. intros k Hk. apply H. now right.
Qed.

(** X2.  [create_lag_features] is idempotent: called with the same lags
    and windows on the frame it returned, it returns that frame again,
    since the target column is never written and every assignment stores
    the series already there. *)
Theorem create_lag_features_idempotent
  (lags roll_windows : list nat) (df d : DataFrame) :
  returns (fun r => create_lag_features r lags roll_windows) df d ->
  returns (fun r => create_lag_features r lags roll_windows) d d.
Proof.
  intros H. apply returns_lag_features_inv in H.
  apply returns_lag_features.
  destruct (Frame.lookup target (columns df)) as [x|] eqn:Hx.
  - pose proof (@lag_features_target lags roll_windows df d x Hx H) as Ht.
    rewrite (@lag_features_some lags roll_windows d x Ht). f_equal.
    rewrite fold_lag_fixed.
    + apply fold_roll_fixed. intros w Hw.
      exact (@lag_features_roll lags roll_windows df d x Hx H w Hw).
    + intros k Hk.
      exact (@lag_features_lag lags roll_windows df d x Hx H k Hk).
  - unfold lag_features in H. rewrite Hx in H.
    destruct lags; [|discriminate]. destruct roll_windows; [|discriminate].
    inversion H; subst. unfold lag_features. now rewrite Hx.
Qed.

(** The theorem at the six-row sample with the lags and windows of the
    training call. *)
Lemma create_lag_features_idempotent_witness :
  returns (fun r => create_lag_features r train_lags train_windows)
    (generated train_lags train_windows (sample 6))
    (generated train_lags train_windows (sample 6)).
Proof.
  apply (@create_lag_features_idempotent train_lags train_windows (sample 6)).
  apply returns_lag_features. reflexivity.
Defined.

(** ** Two calls in a row *)

Lemma find_app (A : Type) (f : A -> bool) l1 l2 :
  find f (l1 ++ l2) =
  match find f l1 with Some a => Some a | None => find f l2 end.
Proof.
  induction l1 as [|a l1 IH]; simpl; [reflexivity|].
  now destruct (f a).
Qed.

Lemma find_never (A : Type) (f : A -> bool) l :
  (forall a, f a = false) -> find f l = None.
Proof.
  intros H. induction l as [|a l IH]; simpl; [reflexivity|]. now rewrite H.
Qed.

(** Any column of the frame after the lag loop: the series of the lag that
    carries its name, or the column the frame had. *)
Lemma lookup_fold_lag_any x name lags : forall d,
  Frame.lookup name (columns (fold_left (add_lag x) lags d)) =
  match find (fun k => String.eqb name (lag_name k)) lags with
  | Some k => Some (shift k x)
  | None => Frame.lookup name (columns d)
  end.
Proof.
  induction lags as [|a rest IH]; intros d; simpl; [reflexivity|].
  rewrite IH. unfold add_lag at 1. simpl columns.
  destruct (String.eqb name (lag_name a)) eqn:E.
  - apply String.eqb_eq in E. subst name.
    rewrite lookup_assign_eq.
    destruct (find _ rest) as [k|] eqn:Ef; [|reflexivity].
    apply find_some in Ef. destruct Ef as [_ Ef].
    apply String.eqb_eq, lag_name_inj in Ef. now subst k.
  - now rewrite lookup_assign_ne.
Qed.

Lemma lookup_fold_roll_any x name wins : forall d,
  Frame.lookup name (columns (fold_left (add_roll x) wins d)) =
  match find (fun w => String.eqb name (roll_name w)) wins with
  | Some w => Some (rolling_mean w (shift 1 x))
  | None => Frame.lookup name (columns d)
  end.
Proof.
  induction wins as [|a rest IH]; intros d; simpl; [reflexivity|].
  rewrite IH. unfold add_roll at 1. simpl columns.
  destruct (String.eqb name (roll_name a)) eqn:E.
  - apply String.eqb_eq in E. subst name.
    rewrite lookup_assign_eq.
    destruct (find _ rest) as [k|] eqn:Ef; [|reflexivity].
    apply find_some in Ef. destruct Ef as [_ Ef].
    apply String.eqb_eq, roll_name_inj in Ef. now subst k.
  - now rewrite lookup_assign_ne.
Qed.

(** X3.  Two calls in a row add up: generating lags and windows on the
    result of an earlier call gives, column by column, the frame that one
    call with the concatenated lists returns (the order of the columns
    apart, which follows the order of the assignments). *)
Theorem create_lag_features_in_two_calls
  (lags1 wins1 lags2 wins2 : list nat) (df d1 d2 : DataFrame) :
  returns (fun r => create_lag_features r lags1 wins1) df d1 ->
  returns (fun r => create_lag_features r lags2 wins2) d1 d2 ->
  exists d,
    returns (fun r => create_lag_features r (lags1 ++ lags2) (wins1 ++ wins2))
      df d /\
    index d = index d2 /\
    forall name, Frame.lookup name (columns d) = Frame.lookup name (columns d2).
Proof.
  intros H1 H2.
  apply returns_lag_features_inv in H1. apply returns_lag_features_inv in H2.
  destruct (Frame.lookup target (columns df)) as [x|] eqn:Hx.
  - pose proof (@lag_features_target lags1 wins1 df d1 x Hx H1) as Ht.
    pose proof (@lag_features_unfold lags1 wins1 df d1 x Hx H1) as E1.
    pose proof (@lag_features_unfold lags2 wins2 d1 d2 x Ht H2) as E2.
    exists (fold_left (add_roll x) (wins1 ++ wins2)
              (fold_left (add_lag x) (lags1 ++ lags2) df)).
    split; [|split].
    + apply returns_lag_features.
      exact (@lag_features_some (lags1 ++ lags2) (wins1 ++ wins2) df x Hx).
    + rewrite E2, E1.
      repeat first [rewrite fold_roll_index | rewrite fold_lag_index].
      reflexivity.
    + intros name. rewrite E2, E1.
      repeat first [rewrite lookup_fold_roll_any | rewrite lookup_fold_lag_any].
      rewrite !find_app.
      destruct (find (fun w => String.eqb name (roll_name w)) wins1)
        as [w|] eqn:Ew1.
      * apply find_some in Ew1. destruct Ew1 as [_ Ew1].
        apply String.eqb_eq in Ew1. subst name.
        rewrite (@find_never nat (fun k => String.eqb (roll_name w) (lag_name k)))
          by (intros; apply roll_not_lag).
        destruct (find (fun w0 => String.eqb (roll_name w) (roll_name w0)) wins2)
          as [w'|] eqn:Ew2; [|reflexivity].
        apply find_some in Ew2. destruct Ew2 as [_ Ew2].
        apply String.eqb_eq, roll_name_inj in Ew2. now subst w'.
      * destruct (find (fun w => String.eqb name (roll_name w)) wins2)
          as [w|] eqn:Ew2; [reflexivity|].
        destruct (find (fun k => String.eqb name (lag_name k)) lags1)
          as [k|] eqn:Ek1; [|reflexivity].
        apply find_some in Ek1. destruct Ek1 as [_ Ek1].
        apply String.eqb_eq in Ek1. subst name.
        destruct (find (fun k0 => String.eqb (lag_name k) (lag_name k0)) lags2)
          as [k'|] eqn:Ek2; [|reflexivity].
        apply find_some in Ek2. destruct Ek2 as [_ Ek2].
        apply String.eqb_eq, lag_name_inj in Ek2. now subst k'.
  - unfold lag_features in H1. rewrite Hx in H1.
    destruct lags1; [|discriminate]. destruct wins1; [|discriminate].
    inversion H1; subst d1.
    unfold lag_features in H2. rewrite Hx in H2.
    destruct lags2; [|discriminate]. destruct wins2; [|discriminate].
    inversion H2; subst d2.
    exists df. split; [|split; reflexivity].
    apply returns_lag_features. unfold lag_features. now rewrite Hx.
Qed.

(** The theorem at the six-row sample: the lags and windows of the
    forecast call first, the remaining ones of the training call next. *)
Lemma create_lag_features_in_two_calls_witness :
  exists d,
    returns (fun r => create_lag_features r [1; 2; 3; 6; 12; 24; 48] [3; 6; 12; 24])
      (sample 6) d /\
    Frame.lookup "lag_6" (columns d) =
    Frame.lookup "lag_6"
      (columns (generated [6; 12; 24; 48] [24]
                  (generated forecast_lags forecast_windows (sample 6)))).
Proof.
  destruct (@create_lag_features_in_two_calls
              forecast_lags forecast_windows [6; 12; 24; 48] [24] (sample 6)
              (generated forecast_lags forecast_windows (sample 6))
              (generated [6; 12; 24; 48] [24]
                 (generated forecast_lags forecast_windows (sample 6))))
    as [d [Hd [_ Hc]]].
  - apply returns_lag_features. reflexivity.
  - apply returns_lag_features. reflexivity.
  - exists d. split; [exact Hd|apply Hc].
Defined.

(** ** The rolling mean and the lags of one row *)

Lemma mean_of_missing win : In None win -> mean_of win = None.
Proof.
  intros H. unfold mean_of.
  destruct (all_present win) as [l|] eqn:E; [|reflexivity].
  exfalso. revert l E. induction win as [|[q|] r IH]; simpl; intros l E.
  - contradiction.
  - destruct H as [H|H]; [discriminate|].
    destruct (all_present r) as [l'|]; [|discriminate].
    now apply (IH H l').
  - discriminate.
Qed.

(** The [w] cells before row [i], read as the lags [w], ..., [1] of that
    row. *)
Lemma previous_as_lags w (x : list (option Q)) i :
  w <= i -> i <= length x ->
  previous w x i = map (fun k => at_ x (i - k)) (rev (seq 1 w)).
Proof.
  intros Hw Hi.
  apply nth_ext with (d := None) (d' := at_ x (i - 0)).
  - rewrite previous_length by assumption.
    now rewrite length_map, length_rev, length_seq.
  - intros j Hj. rewrite previous_length in Hj by assumption.
    unfold previous. rewrite nth_firstn.
    replace (j <? w) with true by (symmetry; apply Nat.ltb_lt; lia).
    rewrite nth_skipn.
    rewrite (map_nth (fun k => at_ x (i - k))).
    rewrite rev_nth by (rewrite length_seq; lia).
    rewrite length_seq, seq_nth by lia.
    unfold at_. f_equal. lia.
Qed.

(** X4.  Within one returned frame the features agree with each other:
    when the lags [1], ..., [w] are all requested together with the window
    [w], [roll_mean_w] is on every row the mean of [lag_w], ..., [lag_1]
    of that row, and is missing as soon as one of them is missing.  In the
    notebook this is the case of [roll_mean_3] in both calls. *)
Theorem roll_mean_is_mean_of_lags
  (lags roll_windows : list nat) (df d : DataFrame) (w : nat) :
  returns (fun r => create_lag_features r lags roll_windows) df d ->
  In w roll_windows ->
  (forall k, 1 <= k <= w -> In k lags) ->
  forall i,
    Frame.value d (roll_name w) i =
    mean_of (map (fun k => Frame.value d (lag_name k) i) (rev (seq 1 w))).
Proof.
  intros H Hw Hlags i. apply returns_lag_features_inv in H.
  destruct (Frame.lookup target (columns df)) as [x|] eqn:Hx.
  2:{ unfold lag_features in H. rewrite Hx in H.
      destruct lags; [|discriminate]. destruct roll_windows; [|discriminate].
      contradiction. }
  assert (Hlag : forall k, In k (rev (seq 1 w)) ->
            Frame.value d (lag_name k) i = at_ (shift k x) i).
  { intros k Hk. apply in_rev, in_seq in Hk. unfold Frame.value.
    now rewrite (@lag_features_lag lags roll_windows df d x Hx H k)
      by (apply Hlags; lia). }
  rewrite (map_ext_in _ _ _ Hlag).
  unfold Frame.value.
  rewrite (@lag_features_roll lags roll_windows df d x Hx H w Hw).
  destruct (Nat.ltb_spec i (length x)) as [Hi|Hi].
  - rewrite at_rolling_shift by assumption.
    destruct (Nat.ltb_spec i w) as [Hlt|Hge].
    + symmetry. apply mean_of_missing.
      apply in_map_iff. exists w. split.
      * rewrite at_shift by assumption.
        now replace (i <? w) with true by (symmetry; apply Nat.ltb_lt; lia).
      * apply in_rev. rewrite rev_involutive. apply in_seq. lia.
    + rewrite previous_as_lags by lia. f_equal.
      apply map_ext_in. intros k Hk. apply in_rev, in_seq in Hk.
      rewrite at_shift by assumption.
      now replace (i <? k) with false by (symmetry; apply Nat.ltb_ge; lia).
  - rewrite at_overflow by (rewrite rolling_mean_length, shift_length; lia).
    destruct w as [|w]; [reflexivity|].
    symmetry. apply mean_of_missing.
    apply in_map_iff. exists (S w). split.
    + apply at_overflow. rewrite shift_length. lia.
    + apply in_rev. rewrite rev_involutive. apply in_seq. lia.
Qed.

(** The theorem at the six-row sample and the training call, for the
    window 3: on row 4 the rolling mean is the mean of the three lags, on
    row 2 it is missing with [lag_3]. *)
Lemma roll_mean_is_mean_of_lags_witness :
  let d := generated train_lags train_windows (sample 6) in
  Frame.value d (roll_name 3) 4 =
    mean_of [Frame.value d (lag_name 3) 4; Frame.value d (lag_name 2) 4;
             Frame.value d (lag_name 1) 4] /\
  Frame.value d (roll_name 3) 2 =
    mean_of [Frame.value d (lag_name 3) 2; Frame.value d (lag_name 2) 2;
             Frame.value d (lag_name 1) 2].
Proof.
  intros d.
  assert (H : forall i,
            Frame.value d (roll_name 3) i =
            mean_of (map (fun k => Frame.value d (lag_name k) i)
                         (rev (seq 1 3)))).
  { apply (@roll_mean_is_mean_of_lags train_lags train_windows (sample 6) d 3).
    - apply returns_lag_features. reflexivity.
    - simpl. tauto.
    - intros k Hk. simpl. lia. }
  split; [exact (H 4)|exact (H 2)].
Defined.

(** * The order of the columns *)

Lemma has_name_names n d : has_name n (Frame.names d) = Frame.has_column n d.
Proof.
  unfold has_name, Frame.names, Frame.has_column.
  induction (columns d) as [|[m x] rest IH]; simpl; [reflexivity|].
  destruct (String.eqb n m); [reflexivity|exact IH].
Qed.

Lemma has_name_app n a b : has_name n (a ++ b) = has_name n a || has_name n b.
Proof. apply existsb_app. Qed.

Lemma has_name_in n l : has_name n l = true <-> In n l.
Proof.
  unfold has_name. rewrite existsb_exists. split.
  - intros [m [Hm E]]. apply String.eqb_eq in E. now subst.
  - intros H. exists n. split; [assumption|apply String.eqb_refl].
Qed.

Lemma has_name_not_in n l : has_name n l = false <-> ~ In n l.
Proof.
  rewrite <- has_name_in. destruct (has_name n l); split; congruence.
Qed.

Lemma names_assign n s cols :
  map fst (Frame.assign n s cols) =
  if has_name n (map fst cols) then map fst cols else map fst cols ++ [n].
Proof.
  unfold has_name.
  induction cols as [|[m x] rest IH]; simpl; [reflexivity|].
  destruct (String.eqb n m) eqn:E; simpl.
  - reflexivity.
  - rewrite IH. now destruct (existsb _ _).
Qed.

Lemma names_with_column n s d :
  Frame.names (Frame.with_column n s d) =
  if has_name n (Frame.names d) then Frame.names d else Frame.names d ++ [n].
Proof. apply names_assign. Qed.

Lemma names_fold_lag x lags : forall d,
  Frame.names (fold_left (add_lag x) lags d) =
  assigned (Frame.names d) (map lag_name lags).
Proof.
  induction lags as [|a rest IH]; intros d; simpl; [reflexivity|].
  rewrite IH. unfold add_lag at 1. now rewrite names_with_column.
Qed.

Lemma names_fold_roll x wins : forall d,
  Frame.names (fold_left (add_roll x) wins d) =
  assigned (Frame.names d) (map roll_name wins).
Proof.
  induction wins as [|a rest IH]; intros d; simpl; [reflexivity|].
  rewrite IH. unfold add_roll at 1. now rewrite names_with_column.
Qed.

Lemma assigned_app names a b :
  assigned names (a ++ b) = assigned (assigned names a) b.
Proof. apply fold_left_app. Qed.

Lemma assigned_fresh new : forall names,
  NoDup new -> (forall n, In n new -> ~ In n names) ->
  assigned names new = names ++ new.
Proof.
  induction new as [|a rest IH]; intros names Hnd Hnew; simpl.
  - now rewrite app_nil_r.
  - replace (has_name a names) with false
      by (symmetry; apply has_name_not_in, Hnew; now left).
    inversion Hnd as [|? ? Ha Hrest]; subst.
    rewrite IH; [now rewrite <- app_assoc|assumption|].
    intros n Hn Hin. apply in_app_or in Hin. destruct Hin as [Hin|[->|[]]].
    + apply (Hnew n); [now right|assumption].
    + contradiction.
Qed.

Lemma assigned_present new : forall names,
  (forall n, In n new -> In n names) -> assigned names new = names.
Proof.
  induction new as [|a rest IH]; intros names H; simpl; [reflexivity|].
  replace (has_name a names) with true
    by (symmetry; apply has_name_in, H; now left).
  apply IH. intros n Hn. apply H. now right.
Qed.

Lemma assigned_prefix new : forall names,
  exists added, assigned names new = names ++ added.
Proof.
  induction new as [|a rest IH]; intros names; simpl.
  - exists []. now rewrite app_nil_r.
  - destruct (has_name a names).
    + apply IH.
    + destruct (IH (names ++ [a])) as [added E].
      exists (a :: added). now rewrite E, <- app_assoc.
Qed.

Lemma nodup_map_inj (A B : Type) (f : A -> B) l :
  (forall a b, f a = f b -> a = b) -> NoDup l -> NoDup (map f l).
Proof.
  intros Hf Hl. induction Hl as [|a l Ha Hl IH]; simpl; constructor.
  - intros Hin. apply in_map_iff in Hin. destruct Hin as [b [E Hb]].
    apply Hf in E. now subst.
  - exact IH.
Qed.

Lemma lag_features_names lags wins df d :
  lag_features lags wins df = Some d ->
  Frame.names d =
  assigned (Frame.names df) (map lag_name lags ++ map roll_name wins).
Proof.
  intros H. destruct (Frame.lookup target (columns df)) as [x|] eqn:Hx.
  - rewrite (@lag_features_unfold lags wins df d x Hx H).
    now rewrite names_fold_roll, names_fold_lag, assigned_app.
  - unfold lag_features in H. rewrite Hx in H.
    destruct lags; [|discriminate]. destruct wins; [|discriminate].
    now inversion H.
Qed.

(** X5.  The columns of the frame [create_lag_features] returns are the
    columns passed in, in their order, followed by the new ones.  When the
    requested lags and windows are without repetition and the input has
    none of the generated names, the new columns are [lag_k] for each lag
    in the order given, then [roll_mean_w] for each window in the order
    given. *)
Theorem create_lag_features_column_order
  (lags roll_windows : list nat) (df d : DataFrame) :
  returns (fun r => create_lag_features r lags roll_windows) df d ->
  (exists added, Frame.names d = Frame.names df ++ added) /\
  (NoDup lags -> NoDup roll_windows ->
   (forall k, In k lags -> Frame.has_column (lag_name k) df = false) ->
   (forall w, In w roll_windows ->
      Frame.has_column (roll_name w) df = false) ->
   Frame.names d =
   Frame.names df ++ map lag_name lags ++ map roll_name roll_windows).
Proof.
  intros H. apply returns_lag_features_inv, lag_features_names in H.
  rewrite H. split; [apply assigned_prefix|].
  intros Hl Hw Hnl Hnw. apply assigned_fresh.
  - apply NoDup_app.
    + apply nodup_map_inj; [apply lag_name_inj|assumption].
    + apply nodup_map_inj; [apply roll_name_inj|assumption].
    + intros n Hn Hn'. apply in_map_iff in Hn. apply in_map_iff in Hn'.
      destruct Hn as [k [<- _]]. destruct Hn' as [w [E _]].
      pose proof (roll_not_lag k w) as Hne. apply String.eqb_neq in Hne.
      contradiction.
  - intros n Hn. apply has_name_not_in. rewrite has_name_names.
    apply in_app_or in Hn. destruct Hn as [Hn|Hn];
      apply in_map_iff in Hn; destruct Hn as [k [<- Hk]]; auto.
Qed.

(** The theorem at the six-row sample and the training call. *)
Lemma create_lag_features_column_order_witness :
  Frame.names (generated train_lags train_windows (sample 6)) =
  Frame.names (sample 6) ++
  ["lag_1"; "lag_2"; "lag_3"; "lag_6"; "lag_12"; "lag_24"; "lag_48";
   "roll_mean_3"; "roll_mean_6"; "roll_mean_12"; "roll_mean_24"]%string.
Proof.
  apply (@create_lag_features_column_order
           train_lags train_windows (sample 6)
           (generated train_lags train_windows (sample 6))).
  - apply returns_lag_features. reflexivity.
  - repeat constructor; simpl; intuition discriminate.
  - repeat constructor; simpl; intuition discriminate.
  - intros k Hk. simpl in Hk.
    repeat (destruct Hk as [<-|Hk]; [reflexivity|]). contradiction.
  - intros w Hw. simpl in Hw.
    repeat (destruct Hw as [<-|Hw]; [reflexivity|]). contradiction.
Defined.

(** * Further properties of [enrich_features] *)

Lemma getitems_raises_key (h : heap) d names :
  lookups names (columns d) = None ->
  exists n, getitems (length h) names (h ++ [d]) =
            (Raise (KeyError n), h ++ [d]).
Proof.
  induction names as [|n rest IH]; simpl; intros H; [discriminate|].
  unfold bind at 1. rewrite getitem_last.
  destruct (Frame.lookup n (columns d)) as [s|]; [|eexists; reflexivity].
  destruct (lookups rest (columns d)) as [ss|] eqn:E; [discriminate|].
  destruct (IH eq_refl) as [e He].
  unfold bind. rewrite He. eauto.
Qed.

Lemma lookups_has_column names d ss :
  lookups names (columns d) = Some ss ->
  forall n, In n names -> Frame.has_column n d = true.
Proof.
  revert ss. induction names as [|a rest IH]; simpl; intros ss H n Hn.
  - contradiction.
  - destruct (Frame.lookup a (columns d)) as [s|] eqn:Ea; [|discriminate].
    destruct (lookups rest (columns d)) as [ss'|] eqn:Er; [|discriminate].
    destruct Hn as [<-|Hn].
    + unfold Frame.has_column. now rewrite Ea.
    + now apply (IH ss').
Qed.

Lemma lookup_has_column n d s :
  Frame.lookup n (columns d) = Some s -> Frame.has_column n d = true.
Proof. intros H. unfold Frame.has_column. now rewrite H. Qed.

Lemma enriched_inputs dayofyear np_sin np_cos df d :
  enriched dayofyear np_sin np_cos df = Some d ->
  forall n, In n enrich_inputs -> Frame.has_column n df = true.
Proof.
  intros H n Hn.
  destruct (@enriched_inv dayofyear np_sin np_cos df d H)
    as [apps [furnace [lag_1 [solar [hour [wd
         [Ha [Hf [Hl [Hs [Hh [Hw _]]]]]]]]]]]].
  unfold enrich_inputs in Hn. apply in_app_or in Hn. destruct Hn as [Hn|Hn].
  - now apply (@lookups_has_column _ _ _ Ha).
  - simpl in Hn.
    destruct Hn as [<-|[<-|[<-|[<-|Hn]]]];
      try (eapply lookup_has_column; eassumption).
    apply (@lookups_has_column _ _ _ Hw). simpl. tauto.
Qed.

Section EnrichErrors.

Variable dayofyear : Z -> Z.
Variables np_sin np_cos : Q -> Q.

Ltac through_columns :=
  repeat (rewrite lookup_with_column_ne by reflexivity);
  repeat (rewrite lookups_with_column_ne by reflexivity).

Ltac step_ok :=
  first
    [ erewrite bind_ok by apply deref_last
    | erewrite bind_ok by apply setitem_last
    | erewrite bind_ok by (apply getitem_last_ok; through_columns; eassumption)
    | erewrite bind_ok by (apply getitems_last; through_columns; eassumption) ].

Ltac step_key :=
  (erewrite bind_raise
     by (apply getitem_last_raise; through_columns; eassumption));
  do 2 eexists; reflexivity.

Ltac step_keys :=
  match goal with
  | H : lookups ?names (columns ?df) = None |- _ =>
      let n := fresh "n" in
      let Hn := fresh "Hn" in
      match goal with
      | |- context [bind (getitems (length ?h) names) _ (?h ++ [?d])] =>
          assert (Hn : exists n,
                     getitems (length h) names (h ++ [d]) =
                     (Raise (KeyError n), h ++ [d]))
            by (apply getitems_raises_key; through_columns; exact H);
          destruct Hn as [n Hn];
          (erewrite bind_raise by exact Hn);
          do 2 eexists; reflexivity
      end
  end.

(** A call that does not return raises [KeyError]. *)
Lemma enrich_features_raises (h : heap) r df :
  nth_error h r = Some df ->
  enriched dayofyear np_sin np_cos df = None ->
  exists name d,
    enrich_features dayofyear np_sin np_cos r h =
    (Raise (KeyError name), h ++ [d]).
Proof.
  intros Hr. unfold enrich_features, enriched.
  erewrite bind_ok by (apply copy_run; exact Hr).
  step_ok.
  destruct (lookups appliance_cols (columns df)) as [apps|] eqn:Happs;
    [|intros _; step_keys].
  do 2 step_ok.
  destruct (Frame.lookup "furnace" (columns df)) as [furnace|] eqn:Hfurnace;
    [|intros _; step_key].
  do 2 step_ok.
  destruct (Frame.lookup "lag_1" (columns df)) as [lag_1|] eqn:Hlag1;
    [|intros _; step_key].
  step_ok.
  destruct (Frame.lookup "generated_solar" (columns df)) as [solar|] eqn:Hsolar;
    [|intros _; step_key].
  do 2 step_ok.
  destruct (Frame.lookup "hour" (columns df)) as [hour|] eqn:Hhour;
    [|intros _; step_key].
  do 3 step_ok.
  destruct (lookups ["wd_Saturday"; "wd_Sunday"]%string (columns df))
    as [wd|] eqn:Hwd; [|intros _; step_keys].
  discriminate.
Qed.

(** The call on a frame that has the appliance columns and [furnace] but
    no [lag_1]: two columns are assigned to the copy, then the read of
    [lag_1] raises. *)
Lemma enrich_features_before_lags (h : heap) r df :
  nth_error h r = Some df ->
  (forall n, In n ("furnace"%string :: appliance_cols) ->
             Frame.has_column n df = true) ->
  Frame.has_column "lag_1" df = false ->
  exists d,
    enrich_features dayofyear np_sin np_cos r h =
    (Raise (KeyError "lag_1"), h ++ [d]).
Proof.
  intros Hr Hin Hlag. unfold enrich_features.
  erewrite bind_ok by (apply copy_run; exact Hr).
  step_ok.
  destruct (@lookups_some appliance_cols df) as [apps Happs].
  { intros n Hn. apply Hin. now right. }
  do 2 step_ok.
  assert (Hf : exists s, Frame.lookup "furnace" (columns df) = Some s).
  { specialize (Hin "furnace"%string (or_introl eq_refl)).
    unfold Frame.has_column in Hin.
    destruct (Frame.lookup "furnace" (columns df)); [eauto|discriminate]. }
  destruct Hf as [furnace Hfurnace].
  do 2 step_ok.
  assert (Hlag1 : Frame.lookup "lag_1" (columns df) = None).
  { unfold Frame.has_column in Hlag.
    destruct (Frame.lookup "lag_1" (columns df)); [discriminate|reflexivity]. }
  erewrite bind_raise
    by (apply getitem_last_raise; through_columns; eassumption).
  eexists. reflexivity.
Qed.

End EnrichErrors.

(** X6.  [enrich_features] returns exactly when the frame has the twelve
    columns it reads: the six appliance columns, [furnace], [lag_1],
    [generated_solar], [hour], [wd_Saturday] and [wd_Sunday].  When one of
    them is missing it raises [KeyError], with the heap grown by the
    partly enriched copy and the caller's frame untouched.  In particular
    it cannot be called before [create_lag_features] has added [lag_1]:
    on the raw table the read of [lag_1] raises [KeyError]. *)
Theorem enrich_features_needs_inputs
  (dayofyear : Z -> Z) (np_sin np_cos : Q -> Q)
  (h : heap) (r : ref) (df : DataFrame) :
  nth_error h r = Some df ->
  ((exists r' h',
      enrich_features dayofyear np_sin np_cos r h = (Ok r', h')) <->
   (forall n, In n enrich_inputs -> Frame.has_column n df = true)) /\
  ((exists n, In n enrich_inputs /\ Frame.has_column n df = false) ->
   exists name d,
     enrich_features dayofyear np_sin np_cos r h =
       (Raise (KeyError name), h ++ [d]) /\
     nth_error (h ++ [d]) r = Some df) /\
  ((forall n, In n ("furnace"%string :: appliance_cols) ->
              Frame.has_column n df = true) ->
   Frame.has_column "lag_1" df = false ->
   exists d,
     enrich_features dayofyear np_sin np_cos r h =
       (Raise (KeyError "lag_1"), h ++ [d])).
Proof.
  intros Hr.
  pose proof (@enrich_features_run dayofyear np_sin np_cos h r df Hr) as Hrun.
  split; [split|split].
  - intros [r' [h' Hok]].
    destruct (enriched dayofyear np_sin np_cos df) as [d|] eqn:E.
    + now apply (@enriched_inputs dayofyear np_sin np_cos df d).
    + destruct Hrun as [e [d' Hrun]]. rewrite Hrun in Hok. discriminate.
  - intros Hin.
    destruct (@enriched_some dayofyear np_sin np_cos df Hin) as [d E].
    rewrite E in Hrun. eauto.
  - intros [n [Hn Hmiss]].
    destruct (enriched dayofyear np_sin np_cos df) as [d|] eqn:E.
    + rewrite (@enriched_inputs dayofyear np_sin np_cos df d E n Hn) in Hmiss.
      discriminate.
    + destruct (@enrich_features_raises dayofyear np_sin np_cos h r df Hr E)
        as [name [d Hd]].
      exists name, d. split; [exact Hd|]. now apply nth_error_grow.
  - now apply enrich_features_before_lags.
Qed.

(** The theorem at the raw six-row sample, which has no [lag_1], and at
    the sample with its lag features. *)
Lemma enrich_features_needs_inputs_witness :
  (exists d,
     enrich_features sample_dayofyear sample_sin sample_cos 0 [sample 6] =
     (Raise (KeyError "lag_1"), [sample 6; d])) /\
  (exists r' h',
     enrich_features sample_dayofyear sample_sin sample_cos 0
       [generated train_lags train_windows (sample 6)] = (Ok r', h')).
Proof.
  split.
  - destruct (@enrich_features_needs_inputs
                sample_dayofyear sample_sin sample_cos [sample 6] 0 (sample 6)
                eq_refl) as [_ [_ H]].
    apply H; [|reflexivity].
    intros n Hn. simpl in Hn.
    repeat (destruct Hn as [<-|Hn]; [reflexivity|]). contradiction.
  - destruct (@enrich_features_needs_inputs
                sample_dayofyear sample_sin sample_cos
                [generated train_lags train_windows (sample 6)] 0
                (generated train_lags train_windows (sample 6))
                eq_refl) as [H _].
    apply H. intros n Hn. unfold enrich_inputs in Hn. simpl in Hn.
    repeat (destruct Hn as [<-|Hn]; [reflexivity|]). contradiction.
Defined.

(** ** The columns [enrich_features] writes, row by row *)

Lemma at_map (f : option Q -> option Q) (s : list (option Q)) i :
  i < length s -> at_ (map f s) i = f (at_ s i).
Proof.
  intros H. unfold at_.
  rewrite nth_indep with (d' := f None) by (rewrite length_map; lia).
  apply map_nth.
Qed.

Lemma row_sum_length n cols : length (row_sum n cols) = n.
Proof. unfold row_sum. now rewrite length_map, length_seq. Qed.

Lemma at_row_sum n cols i :
  i < n ->
  at_ (row_sum n cols) i =
  Some (Qsum (observed (map (fun c => at_ c i) cols))).
Proof.
  intros H. unfold at_ at 1. unfold row_sum.
  set (g := fun j => Some (Qsum (observed (map (fun c => at_ c j) cols)))).
  rewrite nth_indep with (d' := g 0) by (rewrite length_map, length_seq; lia).
  rewrite map_nth, seq_nth by lia. reflexivity.
Qed.

Lemma lookups_values names d ss i :
  lookups names (columns d) = Some ss ->
  map (fun c => at_ c i) ss = map (fun n => Frame.value d n i) names.
Proof.
  revert ss. induction names as [|a rest IH]; simpl; intros ss H.
  - now inversion H.
  - unfold Frame.value at 1.
    destruct (Frame.lookup a (columns d)) as [s|]; [|discriminate].
    destruct (lookups rest (columns d)) as [ss'|]; [|discriminate].
    inversion H; subst. simpl. f_equal. now apply IH.
Qed.

Lemma well_formed_lookup d n s :
  well_formed d -> Frame.lookup n (columns d) = Some s ->
  length s = Frame.len d.
Proof.
  unfold well_formed. intros Hwf.
  induction (columns d) as [|[m x] rest IH]; simpl; intros H; [discriminate|].
  inversion Hwf as [|? ? Hx Hrest]; subst.
  destruct (String.eqb n m).
  - inversion H; subst. exact Hx.
  - now apply IH.
Qed.

Section EnrichOutputs.

Variable dayofyear : Z -> Z.
Variables np_sin np_cos : Q -> Q.

Ltac read_output :=
  unfold enrich_with;
  repeat (rewrite lookup_with_column_ne by reflexivity);
  apply lookup_with_column_eq.

(** What a returned frame holds in the columns written from one row. *)
Lemma enriched_outputs df E :
  enriched dayofyear np_sin np_cos df = Some E ->
  exists apps furnace hour wd,
    lookups appliance_cols (columns df) = Some apps /\
    Frame.lookup "furnace" (columns df) = Some furnace /\
    Frame.lookup "hour" (columns df) = Some hour /\
    lookups ["wd_Saturday"; "wd_Sunday"]%string (columns df) = Some wd /\
    Frame.lookup "appliance_sum" (columns E) =
      Some (row_sum (Frame.len df) apps) /\
    Frame.lookup "furnace_on" (columns E) = Some (map gt_zero furnace) /\
    Frame.lookup "hour_block" (columns E) = Some (map (floordiv 4) hour) /\
    Frame.lookup "is_weekend" (columns E) =
      Some (map (clip_upper 1) (row_sum (Frame.len df) wd)) /\
    Frame.lookup "is_night" (columns E) = Some (map (isin night_hours) hour).
Proof.
  intros H.
  destruct (@enriched_inv dayofyear np_sin np_cos df E H)
    as [apps [furnace [lag_1 [solar [hour [wd
         [Ha [Hf [Hl [Hs [Hh [Hw ->]]]]]]]]]]]].
  exists apps, furnace, hour, wd.
  repeat (split; [assumption|]).
  repeat split; read_output.
Qed.

Lemma enriched_seasonal df E :
  enriched dayofyear np_sin np_cos df = Some E ->
  Frame.lookup "dayofyear" (columns E) =
    Some (dayofyear_column dayofyear (index df)) /\
  Frame.lookup "dayofyear_sin" (columns E) =
    Some (map (cell_map (fun x => np_sin (seasonal_angle x)))
              (dayofyear_column dayofyear (index df))) /\
  Frame.lookup "dayofyear_cos" (columns E) =
    Some (map (cell_map (fun x => np_cos (seasonal_angle x)))
              (dayofyear_column dayofyear (index df))).
Proof.
  intros H.
  destruct (@enriched_inv dayofyear np_sin np_cos df E H)
    as [apps [furnace [lag_1 [solar [hour [wd
         [Ha [Hf [Hl [Hs [Hh [Hw ->]]]]]]]]]]]].
  repeat split; read_output.
Qed.

Lemma enriched_names df E :
  enriched dayofyear np_sin np_cos df = Some E ->
  Frame.names E = assigned (Frame.names df) enrich_outputs.
Proof.
  intros H.
  destruct (@enriched_inv dayofyear np_sin np_cos df E H)
    as [apps [furnace [lag_1 [solar [hour [wd
         [Ha [Hf [Hl [Hs [Hh [Hw ->]]]]]]]]]]]].
  unfold enrich_with. rewrite !names_with_column.
  reflexivity.
Qed.

End EnrichOutputs.

(** X7.  [appliance_sum] is never missing.  On every row it is the sum of
    the appliance readings that are present among [winecellar], [barn],
    [fridge], [well], [dishwasher] and [microwave]: a missing reading
    counts for nothing, and a row with all six missing gets 0, not NaN. *)
Theorem appliance_sum_skips_missing
  (dayofyear : Z -> Z) (np_sin np_cos : Q -> Q) (df E : DataFrame) :
  returns (enrich_features dayofyear np_sin np_cos) df E ->
  forall i, i < Frame.len df ->
    Frame.value E "appliance_sum" i =
      Some (Qsum (observed
                    (map (fun n => Frame.value df n i) appliance_cols))) /\
    ((forall n, In n appliance_cols -> Frame.value df n i = None) ->
     Frame.value E "appliance_sum" i = Some 0%Q).
Proof.
  intros H i Hi. apply returns_enriched_inv in H.
  destruct (@enriched_outputs dayofyear np_sin np_cos df E H)
    as [apps [furnace [hour [wd [Ha [_ [_ [_ [Hsum _]]]]]]]]].
  assert (Hv : Frame.value E "appliance_sum" i =
               Some (Qsum (observed
                      (map (fun n => Frame.value df n i) appliance_cols)))).
  { unfold Frame.value at 1. rewrite Hsum, at_row_sum by assumption.
    now rewrite (@lookups_values appliance_cols df apps i Ha). }
  split; [exact Hv|].
  intros Hnone. rewrite Hv.
  assert (E0 : map (fun n => Frame.value df n i) appliance_cols =
               map (fun _ => None) appliance_cols).
  { apply map_ext_in. intros n Hn. now apply Hnone. }
  rewrite E0. reflexivity.
Qed.

(** The theorem at the six-row sample with its lag features: on row 2
    the sum of the six readings. *)
Lemma appliance_sum_skips_missing_witness :
  exists E,
    enriched sample_dayofyear sample_sin sample_cos
      (generated train_lags train_windows (sample 6)) = Some E /\
    Frame.value E "appliance_sum" 2 =
      Some (Qsum [1 # 10; 2 # 10; 3 # 10; 0; 0; 0])%Q.
Proof.
  destruct (enriched sample_dayofyear sample_sin sample_cos
              (generated train_lags train_windows (sample 6)))
    as [E|] eqn:HE; [|vm_compute in HE; discriminate].
  exists E. split; [reflexivity|].
  apply (@appliance_sum_skips_missing
           sample_dayofyear sample_sin sample_cos
           (generated train_lags train_windows (sample 6)) E).
  - now apply returns_enriched.
  - unfold Frame.len. simpl. lia.
Defined.

(** X8.  [furnace_on] is a flag: on every row it is 1 when the furnace
    reading is present and above zero, and 0 otherwise; a missing reading
    gives 0, and the flag itself is never missing. *)
Theorem furnace_on_is_a_flag
  (dayofyear : Z -> Z) (np_sin np_cos : Q -> Q) (df E : DataFrame) :
  returns (enrich_features dayofyear np_sin np_cos) df E ->
  well_formed df ->
  forall i, i < Frame.len df ->
    (Frame.value E "furnace_on" i = Some 1%Q \/
     Frame.value E "furnace_on" i = Some 0%Q) /\
    (Frame.value E "furnace_on" i = Some 1%Q <->
     exists q, Frame.value df "furnace" i = Some q /\ (0 < q)%Q).
Proof.
  intros H Hwf i Hi. apply returns_enriched_inv in H.
  destruct (@enriched_outputs dayofyear np_sin np_cos df E H)
    as [apps [furnace [hour [wd [_ [Hf [_ [_ [_ [Hon _]]]]]]]]]].
  assert (Hv : Frame.value E "furnace_on" i =
               gt_zero (Frame.value df "furnace" i)).
  { unfold Frame.value. rewrite Hon, Hf. apply at_map.
    now rewrite (@well_formed_lookup df "furnace" furnace Hwf Hf). }
  rewrite Hv. destruct (Frame.value df "furnace" i) as [q|]; simpl.
  - destruct (Qle_bool q 0) eqn:Eq.
    + split; [now right|]. split; [discriminate|].
      intros [q' [Hq' Hpos]]. inversion Hq'; subst q'.
      apply Qle_bool_iff in Eq. exfalso. now apply (Qlt_not_le 0 q).
    + split; [now left|]. split; [|reflexivity].
      intros _. exists q. split; [reflexivity|].
      apply Qnot_le_lt. intros Hle. apply Qle_bool_iff in Hle. congruence.
  - split; [now right|]. split; [discriminate|].
    intros [q' [Hq' _]]. discriminate.
Qed.

(** The theorem at the six-row sample with its lag features, whose
    furnace reading is 1 on row 1 and 0 on row 2. *)
Lemma furnace_on_is_a_flag_witness :
  exists E,
    enriched sample_dayofyear sample_sin sample_cos
      (generated train_lags train_windows (sample 6)) = Some E /\
    (Frame.value E "furnace_on" 1 = Some 1%Q <->
     exists q, Frame.value (generated train_lags train_windows (sample 6))
                 "furnace" 1 = Some q /\ (0 < q)%Q).
Proof.
  destruct (enriched sample_dayofyear sample_sin sample_cos
              (generated train_lags train_windows (sample 6)))
    as [E|] eqn:HE; [|vm_compute in HE; discriminate].
  exists E. split; [reflexivity|].
  apply (@furnace_on_is_a_flag
           sample_dayofyear sample_sin sample_cos
           (generated train_lags train_windows (sample 6)) E).
  - now apply returns_enriched.
  - unfold well_formed. vm_compute. repeat constructor.
  - unfold Frame.len. simpl. lia.
Defined.

Lemma Qeq_bool_inject (a b : Z) :
  Qeq_bool (inject_Z a) (inject_Z b) = (a =? b)%Z.
Proof. unfold Qeq_bool. simpl. now rewrite !Z.mul_1_r. Qed.

Lemma floordiv_quarter (a : Z) :
  floordiv 4 (Some (inject_Z a)) = Some (inject_Z (a / 4)).
Proof.
  unfold floordiv, cell_map, option_map, Qdiv, Qinv, Qmult, inject_Z.
  simpl. now rewrite Z.mul_1_r.
Qed.

(** The night hours of the notebook, as integers. *)
Lemma isin_night_hours (hr : Z) :
  isin night_hours (Some (inject_Z hr)) =
  Some (if ((0 <=? hr) && (hr <=? 6) || (22 <=? hr) && (hr <=? 23))%Z
        then 1%Q else 0%Q).
Proof.
  unfold isin.
  change night_hours
    with (map inject_Z [0; 1; 2; 3; 4; 5; 6; 22; 23]%Z).
  assert (E : forall l,
            existsb (Qeq_bool (inject_Z hr)) (map inject_Z l) =
            existsb (Z.eqb hr) l).
  { induction l as [|v l IH]; simpl; [reflexivity|].
    now rewrite Qeq_bool_inject, IH. }
  rewrite E. simpl existsb.
  repeat match goal with
         | |- context [Z.eqb hr ?v] =>
             destruct (Z.eqb_spec hr v); [subst; reflexivity|]
         end.
  simpl.
  destruct (Z.leb_spec 0 hr), (Z.leb_spec hr 6),
           (Z.leb_spec 22 hr), (Z.leb_spec hr 23); simpl;
    first [reflexivity | exfalso; lia].
Qed.

(** X9.  The two columns derived from [hour].  For a whole hour [hr],
    [hour_block] is [hr // 4] (the blocks 0 to 5 for the hours 0 to 23)
    and [is_night] is 1 exactly for the hours 0 to 6, 22 and 23.  A
    missing hour gives a missing [hour_block] but [is_night = 0]: the
    night flag is never missing. *)
Theorem hour_block_and_night_flag
  (dayofyear : Z -> Z) (np_sin np_cos : Q -> Q) (df E : DataFrame) :
  returns (enrich_features dayofyear np_sin np_cos) df E ->
  well_formed df ->
  forall i, i < Frame.len df ->
    (forall hr : Z,
       Frame.value df "hour" i = Some (inject_Z hr) ->
       Frame.value E "hour_block" i = Some (inject_Z (hr / 4)) /\
       Frame.value E "is_night" i =
         Some (if ((0 <=? hr) && (hr <=? 6) || (22 <=? hr) && (hr <=? 23))%Z
               then 1%Q else 0%Q)) /\
    (Frame.value df "hour" i = None ->
     Frame.value E "hour_block" i = None /\
     Frame.value E "is_night" i = Some 0%Q).
Proof.
  intros H Hwf i Hi. apply returns_enriched_inv in H.
  destruct (@enriched_outputs dayofyear np_sin np_cos df E H)
    as [apps [furnace [hour [wd [_ [_ [Hh [_ [_ [_ [Hb [_ Hn]]]]]]]]]]]].
  pose proof (@well_formed_lookup df "hour" hour Hwf Hh) as Hlen.
  assert (Hvb : Frame.value E "hour_block" i =
                floordiv 4 (Frame.value df "hour" i)).
  { unfold Frame.value. rewrite Hb, Hh. apply at_map. lia. }
  assert (Hvn : Frame.value E "is_night" i =
                isin night_hours (Frame.value df "hour" i)).
  { unfold Frame.value. rewrite Hn, Hh. apply at_map. lia. }
  rewrite Hvb, Hvn. split.
  - intros hr Hhr. rewrite Hhr. split.
    + apply floordiv_quarter.
    + apply isin_night_hours.
  - intros Hnone. rewrite Hnone. split; reflexivity.
Qed.

(** The theorem at the thirty-row sample with its lag features: row 23
    is the hour 23, in block 5 and at night. *)
Lemma hour_block_and_night_flag_witness :
  exists E,
    enriched sample_dayofyear sample_sin sample_cos
      (generated train_lags train_windows (sample 30)) = Some E /\
    Frame.value E "hour_block" 23 = Some (inject_Z 5) /\
    Frame.value E "is_night" 23 = Some 1%Q.
Proof.
  destruct (enriched sample_dayofyear sample_sin sample_cos
              (generated train_lags train_windows (sample 30)))
    as [E|] eqn:HE; [|vm_compute in HE; discriminate].
  exists E. split; [reflexivity|].
  destruct (@hour_block_and_night_flag
              sample_dayofyear sample_sin sample_cos
              (generated train_lags train_windows (sample 30)) E) with (i := 23)
    as [Hhr _].
  - now apply returns_enriched.
  - unfold well_formed. vm_compute. repeat constructor.
  - unfold Frame.len. simpl. lia.
  - exact (Hhr 23%Z eq_refl).
Defined.

(** X10.  [is_weekend] is the sum of the two day flags capped at 1: it is
    never missing and never above 1, and when [wd_Saturday] and
    [wd_Sunday] are 0/1 flags it is 1 as soon as one of them is 1 (both at
    once still give 1) and 0 when both are 0. *)
Theorem is_weekend_is_capped
  (dayofyear : Z -> Z) (np_sin np_cos : Q -> Q) (df E : DataFrame) :
  returns (enrich_features dayofyear np_sin np_cos) df E ->
  forall i, i < Frame.len df ->
  exists w,
    Frame.value E "is_weekend" i = Some w /\ (w <= 1)%Q /\
    forall a b,
      Frame.value df "wd_Saturday" i = Some a ->
      Frame.value df "wd_Sunday" i = Some b ->
      (a == 0 \/ a == 1)%Q -> (b == 0 \/ b == 1)%Q ->
      ((a == 1 \/ b == 1)%Q -> (w == 1)%Q) /\
      ((a == 0 /\ b == 0)%Q -> (w == 0)%Q).
Proof.
  intros H i Hi. apply returns_enriched_inv in H.
  destruct (@enriched_outputs dayofyear np_sin np_cos df E H)
    as [apps [furnace [hour [wd [_ [_ [_ [Hwd [_ [_ [_ [Hw _]]]]]]]]]]]].
  set (q := Qsum (observed
                    (map (fun n => Frame.value df n i)
                         ["wd_Saturday"; "wd_Sunday"]%string))).
  assert (Hv : Frame.value E "is_weekend" i =
               Some (if Qle_bool q 1 then q else 1%Q)).
  { unfold Frame.value at 1. rewrite Hw.
    rewrite at_map by (rewrite row_sum_length; exact Hi).
    rewrite at_row_sum by assumption.
    now rewrite (@lookups_values _ df wd i Hwd). }
  exists (if Qle_bool q 1 then q else 1%Q).
  split; [exact Hv|]. split.
  - destruct (Qle_bool q 1) eqn:Eq.
    + now apply Qle_bool_iff.
    + apply Qle_refl.
  - intros a b Ha Hb Hab Hbb.
    assert (Eq : q = (a + (b + 0))%Q).
    { unfold q. simpl. now rewrite Ha, Hb. }
    destruct (Qle_bool q 1) eqn:Ele.
    + apply Qle_bool_iff in Ele. rewrite Eq in *.
      split.
      * intros Hone. destruct Hone, Hab, Hbb; lra.
      * intros [Ha0 Hb0]. lra.
    + assert (Hgt : ~ (q <= 1)%Q).
      { intros Hle. apply Qle_bool_iff in Hle. congruence. }
      rewrite Eq in Hgt. split.
      * intros _. reflexivity.
      * intros [Ha0 Hb0]. exfalso. apply Hgt. lra.
Qed.

(** The theorem at the six-row sample with its lag features, where every
    row is a Sunday. *)
Lemma is_weekend_is_capped_witness :
  exists E w,
    enriched sample_dayofyear sample_sin sample_cos
      (generated train_lags train_windows (sample 6)) = Some E /\
    Frame.value E "is_weekend" 2 = Some w /\ (w <= 1)%Q.
Proof.
  destruct (enriched sample_dayofyear sample_sin sample_cos
              (generated train_lags train_windows (sample 6)))
    as [E|] eqn:HE; [|vm_compute in HE; discriminate].
  destruct (@is_weekend_is_capped
              sample_dayofyear sample_sin sample_cos
              (generated train_lags train_windows (sample 6)) E) with (i := 2)
    as [w [Hw [Hle _]]].
  - now apply returns_enriched.
  - unfold Frame.len. simpl. lia.
  - exists E, w. split; [reflexivity|]. split; assumption.
Defined.

(** X11.  The three seasonal columns are functions of the row's timestamp
    alone and are never missing: [dayofyear] is the day of the year of the
    timestamp, and the sine and cosine are taken of [2 * pi * dayofyear /
    365] for that freshly written day, whatever a [dayofyear] column of
    the input held. *)
Theorem seasonal_columns_from_timestamps
  (dayofyear : Z -> Z) (np_sin np_cos : Q -> Q) (df E : DataFrame) :
  returns (enrich_features dayofyear np_sin np_cos) df E ->
  forall i, i < Frame.len df ->
    let doy := inject_Z (dayofyear (nth i (index df) 0%Z)) in
    Frame.value E "dayofyear" i = Some doy /\
    Frame.value E "dayofyear_sin" i = Some (np_sin (2 * np_pi * doy / 365)%Q) /\
    Frame.value E "dayofyear_cos" i = Some (np_cos (2 * np_pi * doy / 365)%Q).
Proof.
  intros H i Hi doy. apply returns_enriched_inv in H.
  destruct (@enriched_seasonal dayofyear np_sin np_cos df E H)
    as [Hd [Hs Hc]].
  assert (Hdoy : at_ (dayofyear_column dayofyear (index df)) i = Some doy).
  { unfold at_, dayofyear_column.
    set (g := fun t => Some (inject_Z (dayofyear t))).
    rewrite nth_indep with (d' := g 0%Z) by (rewrite length_map; exact Hi).
    now rewrite map_nth. }
  assert (Hlen : i < length (dayofyear_column dayofyear (index df)))
    by (unfold dayofyear_column; rewrite length_map; exact Hi).
  unfold Frame.value. rewrite Hd, Hs, Hc.
  rewrite !at_map by exact Hlen. rewrite Hdoy.
  repeat split; reflexivity.
Qed.

(** The theorem at the six-row sample with its lag features, with the
    stand-ins for the library functions. *)
Lemma seasonal_columns_from_timestamps_witness :
  exists E,
    enriched sample_dayofyear sample_sin sample_cos
      (generated train_lags train_windows (sample 6)) = Some E /\
    Frame.value E "dayofyear" 3 = Some (inject_Z (sample_dayofyear 1003)).
Proof.
  destruct (enriched sample_dayofyear sample_sin sample_cos
              (generated train_lags train_windows (sample 6)))
    as [E|] eqn:HE; [|vm_compute in HE; discriminate].
  exists E. split; [reflexivity|].
  apply (@seasonal_columns_from_timestamps
           sample_dayofyear sample_sin sample_cos
           (generated train_lags train_windows (sample 6)) E).
  - now apply returns_enriched.
  - unfold Frame.len. simpl. lia.
Defined.

(** X12.  The columns of the frame [enrich_features] returns are the
    columns passed in, in their order, followed by the new ones; on a
    frame that has none of the nine names yet these are [appliance_sum],
    [furnace_on], [net_energy_lag_1], [hour_block], [is_weekend],
    [is_night], [dayofyear], [dayofyear_sin] and [dayofyear_cos], in the
    order of the assignments. *)
Theorem enrich_features_column_order
  (dayofyear : Z -> Z) (np_sin np_cos : Q -> Q) (df E : DataFrame) :
  returns (enrich_features dayofyear np_sin np_cos) df E ->
  (exists added, Frame.names E = Frame.names df ++ added) /\
  ((forall n, In n enrich_outputs -> Frame.has_column n df = false) ->
   Frame.names E = Frame.names df ++ enrich_outputs).
Proof.
  intros H. apply returns_enriched_inv, enriched_names in H.
  rewrite H. split; [apply assigned_prefix|].
  intros Hnew. apply assigned_fresh.
  - unfold enrich_outputs. repeat constructor; simpl; intuition discriminate.
  - intros n Hn. apply has_name_not_in. rewrite has_name_names. now apply Hnew.
Qed.

(** The theorem at the six-row sample with its lag features. *)
Lemma enrich_features_column_order_witness :
  exists E,
    enriched sample_dayofyear sample_sin sample_cos
      (generated train_lags train_windows (sample 6)) = Some E /\
    Frame.names E =
    Frame.names (generated train_lags train_windows (sample 6)) ++
    enrich_outputs.
Proof.
  destruct (enriched sample_dayofyear sample_sin sample_cos
              (generated train_lags train_windows (sample 6)))
    as [E|] eqn:HE; [|vm_compute in HE; discriminate].
  exists E. split; [reflexivity|].
  apply (@enrich_features_column_order
           sample_dayofyear sample_sin sample_cos
           (generated train_lags train_windows (sample 6)) E).
  - now apply returns_enriched.
  - intros n Hn. unfold enrich_outputs in Hn. simpl in Hn.
    repeat (destruct Hn as [<-|Hn]; [reflexivity|]). contradiction.
Defined.

(** * Further properties of the sort *)

Lemma sorted_nth_le idx :
  StronglySorted Z.le idx ->
  forall i j, i <= j -> j < length idx ->
    (nth i idx 0 <= nth j idx 0)%Z.
Proof.
  induction 1 as [|t l Hl IH Ht]; intros i j Hij Hj; simpl in Hj; [lia|].
  destruct i as [|i], j as [|j]; simpl; try lia.
  - rewrite Forall_forall in Ht. apply Ht, nth_In. lia.
  - apply IH; lia.
Qed.

Lemma insertions_of_sorted idx :
  StronglySorted Z.le idx ->
  forall m a, a + m = length idx ->
    fold_right (Frame.insert_by (fun p => nth p idx 0%Z)) [] (seq a m) =
    seq a m.
Proof.
  intros Hs. induction m as [|m IH]; intros a Ha; [reflexivity|].
  simpl seq. simpl fold_right. rewrite IH by lia.
  destruct m as [|m]; [reflexivity|].
  simpl seq. simpl Frame.insert_by.
  replace (nth a idx 0 <=? nth (S a) idx 0)%Z with true; [reflexivity|].
  symmetry. apply Z.leb_le. apply sorted_nth_le; [assumption|lia|lia].
Qed.

Lemma argsort_of_sorted idx :
  StronglySorted Z.le idx -> Frame.argsort idx = seq 0 (length idx).
Proof. intros Hs. unfold Frame.argsort. now apply insertions_of_sorted. Qed.

Lemma take_all_rows df :
  well_formed df -> Frame.take_rows (seq 0 (Frame.len df)) df = df.
Proof.
  intros Hwf. destruct df as [idx cols]. unfold Frame.take_rows, Frame.len.
  simpl. f_equal; [apply map_nth_seq|].
  unfold well_formed, Frame.len in Hwf. simpl in Hwf.
  induction cols as [|[n s] rest IH]; simpl; [reflexivity|].
  inversion Hwf as [|? ? Hs Hrest]; subst. simpl in Hs.
  rewrite IH by assumption. f_equal. f_equal.
  rewrite <- Hs. apply (map_nth_seq s None).
Qed.

Lemma sort_index_well_formed df : well_formed (Frame.sort_index df).
Proof.
  unfold well_formed. apply Forall_forall. intros c Hc.
  rewrite len_sort_index. now apply sorted_input_columns.
Qed.

(** X13.  Sorting is idempotent, and on a table whose timestamps are
    already in ascending order it changes nothing: the notebook's
    [df.sort_index()] is then the identity, so the split takes the rows in
    the order of the file. *)
Theorem sort_index_of_sorted (df : DataFrame) :
  Frame.sort_index (Frame.sort_index df) = Frame.sort_index df /\
  (well_formed df -> StronglySorted Z.le (index df) ->
   Frame.sort_index df = df).
Proof.
  assert (Hid : forall d, well_formed d -> StronglySorted Z.le (index d) ->
                          Frame.sort_index d = d).
  { intros d Hwf Hs. unfold Frame.sort_index.
    rewrite argsort_of_sorted by assumption. now apply take_all_rows. }
  split; [|apply Hid].
  apply Hid; [apply sort_index_well_formed|apply sort_index_sorted].
Qed.

(** The theorem at the six-row sample, whose rows are in order. *)
Lemma sort_index_of_sorted_witness :
  Frame.sort_index (sample 6) = sample 6.
Proof.
  apply (sort_index_of_sorted (sample 6)).
  - unfold well_formed. vm_compute. repeat constructor.
  - vm_compute. repeat constructor; discriminate.
Defined.

(** X14.  Sorting moves whole rows: the sorted table is the input read
    through a permutation of its row positions, the same one for the index
    and for every column, so no row is dropped or repeated and every cell
    stays with its timestamp. *)
Theorem sort_index_moves_whole_rows (df : DataFrame) :
  exists p,
    Permutation p (seq 0 (Frame.len df)) /\
    forall j, j < Frame.len df ->
      nth j (index (Frame.sort_index df)) 0%Z =
        nth (nth j p 0) (index df) 0%Z /\
      forall name,
        Frame.value (Frame.sort_index df) name j =
        Frame.value df name (nth j p 0).
Proof.
  exists (Frame.argsort (index df)). split; [apply argsort_perm|].
  intros j Hj. unfold Frame.len in Hj. split.
  - unfold Frame.sort_index. rewrite index_take_rows.
    set (f := fun p => nth p (index df) 0%Z).
    rewrite nth_indep with (d' := f 0)
      by (rewrite length_map, argsort_length; exact Hj).
    now rewrite map_nth.
  - intros name. unfold Frame.sort_index. apply value_take_rows.
    now rewrite argsort_length.
Qed.

(** * Further properties of the whole notebook *)

(** With the columns it reads in the table, the notebook raises nothing:
    the two frames it writes are the enriched training and forecast
    frames. *)
Lemma notebook_run_enriched dayofyear np_sin np_cos df0 sz :
  (forall n, In n raw_inputs -> Frame.has_column n df0 = true) ->
  split_index (Z.of_nat (Frame.len df0)) = Some sz ->
  exists x0 T F,
    Frame.lookup target (columns df0) = Some x0 /\
    enriched dayofyear np_sin np_cos
      (train_frame (Nat.min (Z.to_nat sz) (Frame.len df0)) df0) = Some T /\
    enriched dayofyear np_sin np_cos
      (forecast_frame (Nat.min (Z.to_nat sz) (Frame.len df0)) df0) = Some F /\
    notebook_run dayofyear np_sin np_cos df0 = Ok (T, F).
Proof.
  intros Hcols Hsz.
  assert (Hx : exists x0, Frame.lookup target (columns df0) = Some x0).
  { specialize (Hcols target (or_introl eq_refl)).
    unfold Frame.has_column in Hcols.
    destruct (Frame.lookup target (columns df0)); [eauto|discriminate]. }
  destruct Hx as [x0 Hx].
  set (s := Nat.min (Z.to_nat sz) (Frame.len df0)).
  assert (Hs : s <= Frame.len df0) by (unfold s; lia).
  assert (Hraw : forall n, In n enrich_inputs -> n <> "lag_1"%string ->
                           Frame.has_column n df0 = true).
  { intros n Hn Hne. apply Hcols. unfold raw_inputs, enrich_inputs in *.
    right. apply in_app_or in Hn. apply in_or_app.
    destruct Hn as [Hn|Hn]; [now left|right].
    simpl in Hn |- *. intuition congruence. }
  assert (HinT : forall n, In n enrich_inputs ->
                           Frame.has_column n (train_frame s df0) = true).
  { intros n Hn. destruct (string_dec n "lag_1") as [->|Hne].
    - unfold Frame.has_column.
      change "lag_1"%string with (lag_name 1).
      rewrite (@lag_features_lag _ _ _ _ _ (@lookup_target_T0 df0 x0 s Hx)
                 (@T_lag_features df0 x0 s Hx) 1); [reflexivity|].
      unfold train_lags. simpl. tauto.
    - apply has_column_train_frame. now apply Hraw. }
  assert (HinF : forall n, In n enrich_inputs ->
                           Frame.has_column n (forecast_frame s df0) = true).
  { intros n Hn. destruct (string_dec n "lag_1") as [->|Hne].
    - unfold forecast_frame, keep_new, Frame.loc.
      rewrite has_column_take_rows. unfold Frame.has_column.
      change "lag_1"%string with (lag_name 1).
      rewrite (@lag_features_lag _ _ _ _ _ (@lookup_target_FI df0 x0 s Hx Hs)
                 (@F1_lag_features df0 x0 s Hx Hs) 1); [reflexivity|].
      unfold forecast_lags. simpl. tauto.
    - apply has_column_forecast_frame. now apply Hraw. }
  destruct (@enriched_some dayofyear np_sin np_cos _ HinT) as [T' HT'].
  destruct (@enriched_some dayofyear np_sin np_cos _ HinF) as [F' HF'].
  exists x0, T', F'.
  repeat (split; [assumption|]).
  apply notebook_run_frames with (x0 := x0) (sz := sz); try assumption.
  - now rewrite <- train_frame_clamp.
  - now rewrite <- forecast_frame_clamp.
Qed.

(** ** The columns of the two frames *)

Lemma names_map_columns f cols :
  map fst (Frame.map_columns f cols) = map fst cols.
Proof.
  unfold Frame.map_columns. rewrite map_map. reflexivity.
Qed.

Lemma names_take_rows ps d : Frame.names (Frame.take_rows ps d) = Frame.names d.
Proof. apply names_map_columns. Qed.

Lemma names_iloc_to s d : Frame.names (Frame.iloc_to s d) = Frame.names d.
Proof. apply names_map_columns. Qed.

Lemma names_iloc_from s d : Frame.names (Frame.iloc_from s d) = Frame.names d.
Proof. apply names_map_columns. Qed.

Lemma names_filter (A : Type) (f : string -> bool) (cols : list (string * A)) :
  map fst (filter (fun c => f (fst c)) cols) = filter f (map fst cols).
Proof.
  induction cols as [|c rest IH]; simpl; [reflexivity|].
  destruct (f (fst c)); simpl; now rewrite IH.
Qed.

Lemma names_concat a b :
  Frame.names (Frame.concat a b) =
  Frame.names a ++
  filter (fun n => negb (Frame.has_column n a)) (Frame.names b).
Proof.
  unfold Frame.names, Frame.concat. simpl columns.
  rewrite map_app, !map_map. simpl. f_equal.
  apply (names_filter (fun n => negb (Frame.has_column n a))).
Qed.

Lemma names_generated lags wins d :
  Frame.has_column target d = true ->
  Frame.names (generated lags wins d) =
  assigned (Frame.names d) (map lag_name lags ++ map roll_name wins).
Proof.
  intros H. unfold Frame.has_column in H.
  destruct (Frame.lookup target (columns d)) as [x|] eqn:Hx; [|discriminate].
  apply lag_features_names. now apply generated_some with (x := x).
Qed.

Lemma assigned_keeps new : forall names n,
  In n names -> In n (assigned names new).
Proof.
  intros names n H. destruct (assigned_prefix new names) as [added ->].
  apply in_or_app. now left.
Qed.

Lemma assigned_holds new : forall names n,
  In n new -> In n (assigned names new).
Proof.
  induction new as [|a rest IH]; intros names n H; simpl; [contradiction|].
  destruct H as [<-|H]; [|now apply IH].
  apply assigned_keeps.
  destruct (has_name a names) eqn:E.
  - now apply has_name_in.
  - apply in_or_app. right. now left.
Qed.

Lemma names_train_frame s df0 :
  Frame.has_column target df0 = true ->
  Frame.names (train_frame s df0) = assigned (Frame.names df0) feature_names.
Proof.
  intros H. unfold train_frame.
  rewrite names_generated.
  - unfold train_rows, sorted_input, Frame.sort_index.
    now rewrite names_iloc_to, names_take_rows.
  - unfold train_rows, sorted_input, Frame.sort_index.
    now rewrite has_column_iloc_to, has_column_take_rows.
Qed.

(** The forecast frame takes over the columns of the training frame, the
    lag and rolling columns of the training call included. *)
Lemma names_forecast_frame s df0 :
  Frame.has_column target df0 = true ->
  Frame.names (forecast_frame s df0) = Frame.names (train_frame s df0).
Proof.
  intros H.
  assert (HT : Frame.has_column target (train_frame s df0) = true)
    by now apply has_column_train_frame.
  unfold forecast_frame, keep_new, Frame.loc. rewrite names_take_rows.
  unfold forecast_features. rewrite names_generated.
  2:{ unfold forecast_input. rewrite has_column_concat.
      unfold Frame.tail. now rewrite has_column_iloc_from, HT. }
  assert (E : Frame.names (forecast_input (train_frame s df0)
                             (forecast_rows s df0)) =
              Frame.names (train_frame s df0)).
  { unfold forecast_input. rewrite names_concat.
    unfold Frame.tail at 1. rewrite names_iloc_from.
    rewrite filter_none; [apply app_nil_r|].
    intros n Hn. apply negb_false_iff.
    unfold Frame.tail. rewrite has_column_iloc_from.
    rewrite <- has_name_names. apply has_name_in.
    rewrite names_train_frame by assumption. apply assigned_keeps.
    unfold forecast_rows, sorted_input, Frame.sort_index in Hn.
    now rewrite names_iloc_from, names_take_rows in Hn. }
  rewrite E. apply assigned_present.
  intros n Hn. rewrite names_train_frame by assumption.
  apply assigned_holds. unfold feature_names.
  unfold forecast_lags, forecast_windows in Hn.
  unfold train_lags, train_windows. simpl in Hn |- *. tauto.
Qed.

(** X15.  The two frames the notebook writes have the same columns in the
    same order: the columns of the table, then the new names among the
    eleven lag and rolling columns of the training call, then the new
    names among the nine enrichment columns.  The forecast frame thus
    carries [lag_6], [lag_12], [lag_24], [lag_48] and [roll_mean_24] too,
    which its own call never writes. *)
Theorem notebook_frames_share_columns
  (dayofyear : Z -> Z) (np_sin np_cos : Q -> Q) (df0 : DataFrame) (sz : Z) :
  (forall n, In n raw_inputs -> Frame.has_column n df0 = true) ->
  split_index (Z.of_nat (Frame.len df0)) = Some sz ->
  exists T F,
    notebook_run dayofyear np_sin np_cos df0 = Ok (T, F) /\
    Frame.names F = Frame.names T /\
    Frame.names T =
      assigned (assigned (Frame.names df0) feature_names) enrich_outputs /\
    (exists added, Frame.names T = Frame.names df0 ++ added) /\
    (forall n, In n (feature_names ++ enrich_outputs) ->
               Frame.has_column n T = true /\ Frame.has_column n F = true).
Proof.
  intros Hcols Hsz.
  destruct (@notebook_run_enriched dayofyear np_sin np_cos df0 sz Hcols Hsz)
    as [x0 [T [F [Hx [HT [HF Hrun]]]]]].
  assert (Ht : Frame.has_column target df0 = true)
    by (apply Hcols; now left).
  exists T, F. split; [exact Hrun|].
  apply enriched_names in HT. apply enriched_names in HF.
  rewrite names_forecast_frame in HF by assumption.
  rewrite names_train_frame in HT by assumption.
  rewrite names_train_frame in HF by assumption.
  split; [congruence|]. split; [exact HT|]. split.
  - rewrite HT.
    destruct (assigned_prefix feature_names (Frame.names df0)) as [a1 ->].
    destruct (assigned_prefix enrich_outputs (Frame.names df0 ++ a1))
      as [a2 ->].
    exists (a1 ++ a2). now rewrite app_assoc.
  - intros n Hn.
    assert (Hin : In n (assigned (assigned (Frame.names df0) feature_names)
                          enrich_outputs)).
    { apply in_app_or in Hn. destruct Hn as [Hn|Hn].
      - apply assigned_keeps. now apply assigned_holds.
      - now apply assigned_holds. }
    rewrite <- !has_name_names. rewrite HT, HF.
    split; apply has_name_in; exact Hin.
Qed.

(** The theorem at the twenty-row sample: the forecast frame has the
    column [lag_48] of the training call. *)
Lemma notebook_frames_share_columns_witness :
  exists T F,
    notebook_run sample_dayofyear sample_sin sample_cos (sample 20) =
      Ok (T, F) /\
    Frame.names F = Frame.names T /\
    Frame.has_column "lag_48" F = true.
Proof.
  destruct (@notebook_frames_share_columns
              sample_dayofyear sample_sin sample_cos (sample 20) 18%Z)
    as [T [F [Hrun [Hn [_ [_ Hall]]]]]].
  - intros n Hn. unfold raw_inputs, appliance_cols in Hn. simpl in Hn.
    repeat (destruct Hn as [<-|Hn]; [vm_compute; reflexivity|]).
    contradiction.
  - vm_compute. reflexivity.
  - exists T, F. split; [exact Hrun|]. split; [exact Hn|].
    apply (Hall "lag_48"%string). unfold feature_names. simpl. tauto.
Defined.

Lemma feature_names_nodup : NoDup feature_names.
Proof.
  unfold feature_names. apply NoDup_app.
  - apply nodup_map_inj; [apply lag_name_inj|].
    unfold train_lags. repeat constructor; simpl; intuition discriminate.
  - apply nodup_map_inj; [apply roll_name_inj|].
    unfold train_windows. repeat constructor; simpl; intuition discriminate.
  - intros n Hn Hn'. apply in_map_iff in Hn. apply in_map_iff in Hn'.
    destruct Hn as [k [<- _]]. destruct Hn' as [w [E _]].
    pose proof (roll_not_lag k w) as Hne. apply String.eqb_neq in Hne.
    contradiction.
Qed.

Lemma enrich_outputs_nodup : NoDup enrich_outputs.
Proof.
  unfold enrich_outputs. repeat constructor; simpl; intuition discriminate.
Qed.

Lemma enrich_outputs_not_features n :
  In n enrich_outputs -> ~ In n feature_names.
Proof.
  intros Hn Hf. unfold feature_names in Hf. apply in_app_or in Hf.
  assert (Hl : forall k, String.eqb n (lag_name k) = false).
  { intros k. unfold enrich_outputs in Hn. simpl in Hn.
    repeat (destruct Hn as [<-|Hn]; [reflexivity|]). contradiction. }
  assert (Hr : forall w, String.eqb n (roll_name w) = false).
  { intros w. unfold enrich_outputs in Hn. simpl in Hn.
    repeat (destruct Hn as [<-|Hn]; [reflexivity|]). contradiction. }
  destruct Hf as [Hf|Hf]; apply in_map_iff in Hf; destruct Hf as [k [E _]].
  - specialize (Hl k). apply String.eqb_neq in Hl. congruence.
  - specialize (Hr k). apply String.eqb_neq in Hr. congruence.
Qed.

(** X16.  The shapes the last cell prints.  On a table of [N] rows with
    unique timestamps and [c] columns, none of them carrying a generated
    name, the training frame has [floor(9 N / 10)] rows, the forecast
    frame the remaining ones, and both have [c + 20] columns: the columns
    of the table followed by the eleven lag and rolling columns and the
    nine enrichment columns.  A table of 8399 rows and 40 columns gives the
    shapes (7559, 60) and (840, 60) recorded in the notebook. *)
Theorem notebook_shapes
  (dayofyear : Z -> Z) (np_sin np_cos : Q -> Q) (df0 : DataFrame) :
  NoDup (index df0) ->
  (forall n, In n raw_inputs -> Frame.has_column n df0 = true) ->
  (forall n, In n (feature_names ++ enrich_outputs) ->
             Frame.has_column n df0 = false) ->
  (Z.of_nat (Frame.len df0) < 1250999896491811)%Z ->
  exists T F,
    notebook_run dayofyear np_sin np_cos df0 = Ok (T, F) /\
    Frame.names T = Frame.names df0 ++ feature_names ++ enrich_outputs /\
    Frame.names F = Frame.names T /\
    shape T = (Frame.len df0 * 9 / 10, length (columns df0) + 20) /\
    shape F = (Frame.len df0 - Frame.len df0 * 9 / 10,
               length (columns df0) + 20) /\
    (Z.of_nat (Frame.len df0) = 8399%Z -> length (columns df0) = 40 ->
     Z.of_nat (fst (shape T)) = 7559%Z /\ snd (shape T) = 60 /\
     Z.of_nat (fst (shape F)) = 840%Z /\ snd (shape F) = 60).
Proof.
  intros Hnd Hcols Hnew Hn.
  assert (Hsz : split_index (Z.of_nat (Frame.len df0)) =
                Some (Z.of_nat (Frame.len df0) * 9 / 10)%Z)
    by (apply split_index_exact; lia).
  assert (Es : Z.to_nat (Z.of_nat (Frame.len df0) * 9 / 10) =
               Frame.len df0 * 9 / 10).
  { rewrite <- (Nat2Z.id (Frame.len df0 * 9 / 10)). f_equal.
    rewrite Nat2Z.inj_div, Nat2Z.inj_mul. reflexivity. }
  destruct (@notebook_run_enriched dayofyear np_sin np_cos df0 _ Hcols Hsz)
    as [x0 [T [F [Hx [HT [HF Hrun]]]]]].
  rewrite Es in HT, HF.
  set (s := Frame.len df0 * 9 / 10) in *.
  assert (Hs : s <= Frame.len df0).
  { unfold s. apply Nat.Div0.div_le_upper_bound. lia. }
  rewrite Nat.min_l in HT, HF by exact Hs.
  assert (Ht : Frame.has_column target df0 = true)
    by (apply Hcols; now left).
  assert (HnT : Frame.names T =
                Frame.names df0 ++ feature_names ++ enrich_outputs).
  { rewrite (@enriched_names dayofyear np_sin np_cos _ T HT).
    rewrite names_train_frame by assumption.
    rewrite (@assigned_fresh feature_names _ feature_names_nodup).
    2:{ intros n Hf. apply has_name_not_in. rewrite has_name_names.
        apply Hnew. apply in_or_app. now left. }
    rewrite (@assigned_fresh enrich_outputs _ enrich_outputs_nodup).
    - now rewrite <- app_assoc.
    - intros n Ho Hin. apply in_app_or in Hin. destruct Hin as [Hin|Hin].
      + apply has_name_in in Hin. rewrite has_name_names in Hin.
        rewrite Hnew in Hin; [discriminate|]. apply in_or_app. now right.
      + now apply (@enrich_outputs_not_features n Ho). }
  assert (HnF : Frame.names F = Frame.names T).
  { rewrite (@enriched_names dayofyear np_sin np_cos _ F HF).
    rewrite (@enriched_names dayofyear np_sin np_cos _ T HT).
    now rewrite names_forecast_frame. }
  assert (HcT : length (columns T) = length (columns df0) + 20).
  { rewrite <- (length_map fst (columns T)).
    change (map fst (columns T)) with (Frame.names T).
    rewrite HnT, !length_app. unfold Frame.names. rewrite length_map.
    reflexivity. }
  assert (HcF : length (columns F) = length (columns df0) + 20).
  { rewrite <- (length_map fst (columns F)).
    change (map fst (columns F)) with (Frame.names F).
    rewrite HnF. unfold Frame.names. now rewrite length_map. }
  assert (HlT : Frame.len T = s).
  { unfold Frame.len.
    destruct (@enriched_keeps dayofyear np_sin np_cos _ T HT) as [-> _].
    exact (@len_T df0 x0 s Hx Hs). }
  assert (HlF : Frame.len F = Frame.len df0 - s).
  { unfold Frame.len.
    destruct (@enriched_keeps dayofyear np_sin np_cos _ F HF) as [-> _].
    exact (@len_F df0 x0 s Hnd Hx Hs). }
  exists T, F. unfold shape.
  rewrite HlT, HlF, HcT, HcF.
  repeat (split; [first [assumption | reflexivity]|]).
  intros EN Ec. simpl fst. simpl snd. rewrite Ec.
  assert (Ez : Z.of_nat s = (Z.of_nat (Frame.len df0) * 9 / 10)%Z).
  { rewrite <- Es. rewrite Z2Nat.id; [reflexivity|].
    apply Z.div_pos; lia. }
  rewrite EN in Ez. change (8399 * 9 / 10)%Z with 7559%Z in Ez.
  repeat split; try reflexivity; lia.
Qed.

(** The theorem at the twenty-row sample, which has twelve columns. *)
Lemma notebook_shapes_witness :
  exists T F,
    notebook_run sample_dayofyear sample_sin sample_cos (sample 20) =
      Ok (T, F) /\
    shape T = (18, 32) /\ shape F = (2, 32).
Proof.
  destruct (@notebook_shapes
              sample_dayofyear sample_sin sample_cos (sample 20))
    as [T [F [Hrun [_ [_ [HT [HF _]]]]]]].
  - apply uniqueb_sound. vm_compute. reflexivity.
  - intros n Hn. unfold raw_inputs, appliance_cols in Hn. simpl in Hn.
    repeat (destruct Hn as [<-|Hn]; [vm_compute; reflexivity|]).
    contradiction.
  - intros n Hn. unfold feature_names, enrich_outputs in Hn. simpl in Hn.
    repeat (destruct Hn as [<-|Hn]; [vm_compute; reflexivity|]).
    contradiction.
  - vm_compute. reflexivity.
  - exists T, F. split; [exact Hrun|]. split; [exact HT|exact HF].
Defined.

(** ** Timestamps that occur more than once *)

Lemma in_insert_unique t l x :
  In x (Frame.insert_unique t l) <-> x = t \/ In x l.
Proof.
  induction l as [|u rest IH]; simpl.
  - intuition.
  - destruct (Z.ltb_spec t u); [simpl; intuition|].
    destruct (Z.eqb_spec t u) as [->|Hne]; simpl.
    + intuition.
    + rewrite IH. intuition.
Qed.

Lemma in_unique_sorted l x : In x (Frame.unique_sorted l) <-> In x l.
Proof.
  unfold Frame.unique_sorted. induction l as [|t rest IH]; simpl.
  - reflexivity.
  - rewrite in_insert_unique, IH. intuition.
Qed.

Lemma insert_unique_strict t l :
  StronglySorted Z.lt l -> StronglySorted Z.lt (Frame.insert_unique t l).
Proof.
  induction 1 as [|u rest Hrest IH Hu]; simpl.
  - repeat constructor.
  - destruct (Z.ltb_spec t u) as [Hlt|Hge].
    + constructor; [now constructor|].
      constructor; [assumption|].
      rewrite Forall_forall in Hu |- *. intros y Hy. specialize (Hu y Hy). lia.
    + destruct (Z.eqb_spec t u) as [->|Hne]; [now constructor|].
      constructor; [assumption|].
      rewrite Forall_forall in Hu |- *. intros y Hy.
      apply in_insert_unique in Hy. destruct Hy as [->|Hy]; [lia|now apply Hu].
Qed.

Lemma unique_sorted_sorted l : StronglySorted Z.lt (Frame.unique_sorted l).
Proof.
  unfold Frame.unique_sorted. induction l as [|t rest IH]; simpl.
  - constructor.
  - now apply insert_unique_strict.
Qed.

Lemma in_positions idx t p :
  In p (Frame.positions idx t) <-> p < length idx /\ nth p idx 0%Z = t.
Proof.
  unfold Frame.positions. rewrite filter_In, in_seq, Z.eqb_eq. intuition lia.
Qed.

(** The timestamps of [df.loc[labels]]: the labels that occur in the
    frame. *)
Lemma in_index_loc labels d t :
  In t (index (Frame.loc labels d)) <-> In t labels /\ In t (index d).
Proof.
  unfold Frame.loc. rewrite index_take_rows, in_map_iff. split.
  - intros [p [E Hp]]. apply in_flat_map in Hp. destruct Hp as [l [Hl Hp]].
    apply in_positions in Hp. destruct Hp as [Hlt El].
    assert (Elt : l = t) by (simpl in E; congruence). rewrite Elt in Hl.
    split; [exact Hl|]. rewrite <- E. now apply nth_In.
  - intros [Hl Hin]. apply In_nth with (d := 0%Z) in Hin.
    destruct Hin as [p [Hp E]]. exists p. split; [exact E|].
    apply in_flat_map. exists t. split; [assumption|].
    apply in_positions. auto.
Qed.

Lemma filter_of_map (A B : Type) (f : B -> bool) (g : A -> B) l :
  filter f (map g l) = map g (filter (fun a => f (g a)) l).
Proof.
  induction l as [|a l IH]; simpl; [reflexivity|].
  destruct (f (g a)); simpl; now rewrite IH.
Qed.

Lemma length_positions idx t :
  length (Frame.positions idx t) = length (filter (fun u => (u =? t)%Z) idx).
Proof.
  unfold Frame.positions.
  transitivity (length (filter (fun u => (u =? t)%Z)
                          (map (fun p => nth p idx 0%Z)
                               (seq 0 (length idx))))).
  - now rewrite filter_of_map, length_map.
  - now rewrite map_nth_seq.
Qed.

Lemma length_filter_or (A : Type) (f g : A -> bool) l :
  (forall x, In x l -> f x && g x = false) ->
  length (filter (fun x => f x || g x) l) =
  length (filter f l) + length (filter g l).
Proof.
  induction l as [|a l IH]; simpl; intros H; [reflexivity|].
  assert (Ha := H a (or_introl eq_refl)).
  assert (IH' := IH (fun x Hx => H x (or_intror Hx))).
  destruct (f a), (g a); simpl in *; try discriminate; lia.
Qed.

(** The number of rows [df.loc[labels]] returns for labels without
    repetition: the rows whose timestamp is one of the labels. *)
Lemma length_rows_of_labels idx labels :
  NoDup labels ->
  length (flat_map (Frame.positions idx) labels) =
  length (filter (fun t => Frame.mem t labels) idx).
Proof.
  induction 1 as [|l rest Hl Hrest IH]; simpl.
  - now rewrite filter_none.
  - rewrite length_app, IH, length_positions.
    rewrite <- length_filter_or.
    + reflexivity.
    + intros t _. destruct (Z.eqb_spec t l) as [->|]; [|reflexivity].
      simpl. apply not_true_is_false. intros Hm. apply mem_in in Hm.
      contradiction.
Qed.

Lemma length_filter_all (A : Type) (f : A -> bool) l :
  length (filter f l) = length l <-> forall x, In x l -> f x = true.
Proof.
  induction l as [|a l IH]; simpl.
  - intuition.
  - pose proof (filter_length_le f l) as Hle.
    destruct (f a) eqn:E; simpl; split.
    + intros H x [<-|Hx]; [assumption|]. apply IH; [lia|assumption].
    + intros H. f_equal. apply IH. intros x Hx. apply H. now right.
    + intros H. lia.
    + intros H. specialize (H a (or_introl eq_refl)). congruence.
Qed.

Lemma index_generated lags wins d : index (generated lags wins d) = index d.
Proof.
  unfold generated.
  destruct (lag_features lags wins d) as [d'|] eqn:E; [|reflexivity].
  now destruct (@lag_features_keeps lags wins d d' E).
Qed.

(** X17.  What the notebook keeps for the forecast when timestamps are
    not unique.  Whatever the table, the forecast frame holds exactly the
    rows of the forecast segment whose timestamp is not a training
    timestamp, so no timestamp is in both frames; a row of the forecast
    segment that carries a training timestamp is dropped.  The two frames
    together have all rows of the table exactly when no timestamp of the
    forecast segment is a training timestamp. *)
Theorem forecast_rows_with_training_timestamps
  (df0 : DataFrame) (x0 : list (option Q)) (sz : Z) :
  Frame.lookup target (columns df0) = Some x0 ->
  split_index (Z.of_nat (Frame.len df0)) = Some sz ->
  exists T0 F0 T F,
    split_run df0 = Ok (T0, F0) /\
    lag_run df0 = Ok (T, F) /\
    index T = index T0 /\
    (forall t, In t (index F) <-> In t (index F0) /\ ~ In t (index T)) /\
    Frame.len F =
      length (filter (fun t => negb (Frame.mem t (index T))) (index F0)) /\
    (Frame.len T + Frame.len F = Frame.len df0 <->
     disjoint (index F0) (index T)).
Proof.
  intros Hx Hsz.
  set (s := Z.to_nat sz).
  exists (train_rows s df0), (forecast_rows s df0),
         (train_frame s df0), (forecast_frame s df0).
  split; [now apply split_run_unfold|].
  split; [now apply lag_run_frames with (x0 := x0)|].
  set (L := index (sorted_input df0)).
  assert (HiT : index (train_frame s df0) = firstn s L)
    by exact (@index_T df0 x0 s Hx).
  assert (HiF0 : index (forecast_rows s df0) = skipn s L) by reflexivity.
  split; [exact HiT|].
  set (T := train_frame s df0) in *.
  set (B := index (forecast_rows s df0)) in *.
  set (A := index (Frame.tail spillover T)).
  assert (HA : forall t, In t A -> In t (index T)).
  { intros t Ht. unfold A in Ht. rewrite index_tail in Ht.
    now apply in_skipn in Ht. }
  assert (Hi1 : index (forecast_features s df0) = A ++ B).
  { unfold forecast_features. rewrite index_generated.
    unfold forecast_input. now rewrite index_concat. }
  set (labels := Frame.difference (A ++ B) (index T)).
  assert (Hlab : forall t, In t labels <-> In t B /\ ~ In t (index T)).
  { intros t. unfold labels, Frame.difference.
    rewrite in_unique_sorted, filter_In, in_app_iff, negb_true_iff.
    rewrite <- not_true_iff_false, mem_in.
    split; [|tauto]. intros [[Ha|Hb] Hn]; [|tauto].
    exfalso. now apply Hn, HA. }
  assert (Hnd : NoDup labels).
  { apply strict_nodup. unfold labels, Frame.difference.
    apply unique_sorted_sorted. }
  assert (HF : forecast_frame s df0 =
               Frame.loc labels (forecast_features s df0)).
  { unfold forecast_frame, keep_new, labels. now rewrite Hi1. }
  assert (Hlen : Frame.len (forecast_frame s df0) =
                 length (filter (fun t => negb (Frame.mem t (index T))) B)).
  { rewrite HF. unfold Frame.len, Frame.loc.
    rewrite index_take_rows, length_map, Hi1.
    rewrite length_rows_of_labels by assumption.
    rewrite filter_app, length_app.
    rewrite filter_none.
    2:{ intros t Ht. apply not_true_is_false. intros Hm.
        apply mem_in, Hlab in Hm. destruct Hm as [_ Hm]. now apply Hm, HA. }
    simpl. f_equal. apply filter_ext_in. intros t Ht.
    destruct (Frame.mem t (index T)) eqn:Em; simpl.
    - apply not_true_is_false. intros Hm. apply mem_in, Hlab in Hm.
      destruct Hm as [_ Hm]. apply Hm. now apply mem_in.
    - apply mem_in, Hlab. split; [assumption|].
      intros Hin. apply mem_in in Hin. congruence. }
  split; [|split; [exact Hlen|]].
  - intros t. rewrite HF, in_index_loc, Hlab, Hi1, in_app_iff. tauto.
  - rewrite Hlen.
    assert (HlT : Frame.len T + length B = Frame.len df0).
    { unfold Frame.len at 1. rewrite HiT, HiF0.
      rewrite <- (len_sorted_input df0). unfold Frame.len. fold L.
      rewrite <- (firstn_skipn s L) at 3. now rewrite length_app. }
    pose proof (filter_length_le
                  (fun t => negb (Frame.mem t (index T))) B) as Hle.
    split.
    + intros E t Ht Hin.
      assert (Hall : length (filter (fun t => negb (Frame.mem t (index T))) B)
                     = length B) by lia.
      pose proof (proj1 (length_filter_all _ B) Hall t Ht) as Hm.
      apply negb_true_iff in Hm. apply mem_in in Hin. congruence.
    + intros Hd.
      assert (Hall : length (filter (fun t => negb (Frame.mem t (index T))) B)
                     = length B).
      { apply length_filter_all. intros t Ht. apply negb_true_iff.
        apply not_true_is_false. intros Hm. apply mem_in in Hm.
        now apply (Hd t Ht). }
      lia.
Qed.

(** The theorem at the twenty-row sample in which row 18, the first of
    the forecast segment, repeats the timestamp of row 17: the forecast
    frame keeps one row of two. *)
Lemma forecast_rows_with_training_timestamps_witness :
  exists T F,
    lag_run sample_repeated = Ok (T, F) /\
    Frame.len T = 18 /\ Frame.len F = 1.
Proof.
  destruct (@forecast_rows_with_training_timestamps
              sample_repeated (series_of target sample_repeated) 18%Z)
    as [T0 [F0 [T [F [Hsplit [Hrun [HiT [_ [HlF _]]]]]]]]].
  - reflexivity.
  - vm_compute. reflexivity.
  - exists T, F. split; [exact Hrun|].
    assert (E : split_run sample_repeated =
                Ok (train_rows 18 sample_repeated,
                    forecast_rows 18 sample_repeated))
      by (apply split_run_unfold with (sz := 18%Z); vm_compute; reflexivity).
    rewrite Hsplit in E.
    assert (E0 : index T0 = index (train_rows 18 sample_repeated)).
    { apply (f_equal (fun r => match r with
                               | Ok (t, _) => index t
                               | Raise _ => []
                               end)) in E. exact E. }
    assert (E1 : index F0 = index (forecast_rows 18 sample_repeated)).
    { apply (f_equal (fun r => match r with
                               | Ok (_, f) => index f
                               | Raise _ => []
                               end)) in E. exact E. }
    split.
    + unfold Frame.len. rewrite HiT, E0. vm_compute. reflexivity.
    + rewrite HlF, HiT, E0, E1. vm_compute. reflexivity.
Defined.

(** ** Short tables *)

(** X18.  The split of short tables.  The forecast frame gets
    [ceil(N / 10)] rows, so it is empty only for the empty table, while
    the training frame is empty for a table of one row: the single row
    goes to the forecast. *)
Theorem split_of_short_tables (df0 : DataFrame) :
  (Z.of_nat (Frame.len df0) < 1250999896491811)%Z ->
  exists T F,
    split_run df0 = Ok (T, F) /\
    Frame.len F = (Frame.len df0 + 9) / 10 /\
    (Frame.len F = 0 <-> Frame.len df0 = 0) /\
    (Frame.len T = 0 <-> Frame.len df0 <= 1).
Proof.
  intros Hn.
  assert (Hsz : split_index (Z.of_nat (Frame.len df0)) =
                Some (Z.of_nat (Frame.len df0) * 9 / 10)%Z)
    by (apply split_index_exact; lia).
  assert (Es : Z.to_nat (Z.of_nat (Frame.len df0) * 9 / 10) =
               Frame.len df0 * 9 / 10).
  { rewrite <- (Nat2Z.id (Frame.len df0 * 9 / 10)). f_equal.
    rewrite Nat2Z.inj_div, Nat2Z.inj_mul. reflexivity. }
  rewrite (@split_run_unfold df0 _ Hsz), Es.
  exists (train_rows (Frame.len df0 * 9 / 10) df0),
         (forecast_rows (Frame.len df0 * 9 / 10) df0).
  split; [reflexivity|].
  rewrite len_train_rows, len_forecast_rows.
  set (N := Frame.len df0).
  pose proof (Nat.div_mod_eq (N * 9) 10) as H1.
  pose proof (Nat.mod_upper_bound (N * 9) 10 ltac:(lia)) as H2.
  pose proof (Nat.div_mod_eq (N + 9) 10) as H3.
  pose proof (Nat.mod_upper_bound (N + 9) 10 ltac:(lia)) as H4.
  repeat split; lia.
Qed.

(** The theorem at the one-row sample. *)
Lemma split_of_short_tables_witness :
  exists T F,
    split_run (sample 1) = Ok (T, F) /\ Frame.len T = 0 /\ Frame.len F = 1.
Proof.
  destruct (@split_of_short_tables (sample 1))
    as [T [F [Hrun [HF [_ HT]]]]].
  - vm_compute. reflexivity.
  - exists T, F. split; [exact Hrun|]. split.
    + apply HT. unfold Frame.len. simpl. lia.
    + rewrite HF. reflexivity.
Defined.

(** ** The features of the training frame *)

(** X19.  The lag and rolling columns of the training frame are computed
    from the training rows alone.  With [Xt] the target over the training
    rows of the sorted table, [lag_k] of training row [i] is missing on the
    first [k] rows and is otherwise [Xt] at row [i - k], and [roll_mean_w]
    is missing on the first [w] rows and is otherwise the mean of [Xt] over
    the rows [i - w] to [i - 1]: no row of the forecast segment is read. *)
Theorem training_features_from_training_rows
  (df0 : DataFrame) (x0 : list (option Q)) (sz : Z) :
  NoDup (index df0) ->
  Frame.lookup target (columns df0) = Some x0 ->
  split_index (Z.of_nat (Frame.len df0)) = Some sz ->
  exists T F,
    lag_run df0 = Ok (T, F) /\
    forall i, i < Frame.len T ->
      let Xt := firstn (Frame.len T)
                  (series_of target (Frame.sort_index df0)) in
      (forall k, In k train_lags ->
         Frame.value T (lag_name k) i =
         if i <? k then None else at_ Xt (i - k)) /\
      (forall w, In w train_windows ->
         Frame.value T (roll_name w) i =
         if i <? w then None else mean_of (previous w Xt i)).
Proof.
  intros _ Hx Hsz.
  set (s := Nat.min (Z.to_nat sz) (Frame.len df0)).
  assert (Hs : s <= Frame.len df0) by (unfold s; lia).
  exists (train_frame s df0), (forecast_frame s df0).
  split; [now apply lag_run_clamped with (x0 := x0)|].
  rewrite (@len_T df0 x0 s Hx Hs).
  intros i Hi Xt.
  pose proof (@lookup_target_T0 df0 x0 s Hx) as Ht. fold Xt in Ht.
  pose proof (@T_lag_features df0 x0 s Hx) as HT.
  assert (Hlen : length Xt = s).
  { unfold Xt. rewrite length_firstn.
    change (Frame.sort_index df0) with (sorted_input df0).
    rewrite (@X_length df0 x0 Hx). lia. }
  split.
  - intros k Hk. unfold Frame.value.
    rewrite (@lag_features_lag _ _ _ _ _ Ht HT k Hk).
    apply at_shift. lia.
  - intros w Hw. unfold Frame.value.
    rewrite (@lag_features_roll _ _ _ _ _ Ht HT w Hw).
    apply at_rolling_shift. lia.
Qed.

(** The theorem at the twenty-row sample: on training row 5, [lag_3] is
    the target of row 2. *)
Lemma training_features_from_training_rows_witness :
  exists T F,
    lag_run (sample 20) = Ok (T, F) /\
    Frame.value T (lag_name 3) 5 = Some (inject_Z 20).
Proof.
  destruct (@training_features_from_training_rows
              (sample 20) (series_of target (sample 20)) 18%Z)
    as [T [F [Hrun H]]].
  - apply uniqueb_sound. vm_compute. reflexivity.
  - reflexivity.
  - vm_compute. reflexivity.
  - exists T, F. split; [exact Hrun|].
    assert (E : lag_run (sample 20) =
                Ok (train_frame 18 (sample 20), forecast_frame 18 (sample 20))).
    { apply lag_run_frames
        with (x0 := series_of target (sample 20)) (sz := 18%Z);
        vm_compute; reflexivity. }
    rewrite Hrun in E.
    assert (ElT : Frame.len T = 18).
    { apply (f_equal (fun r => match r with
                               | Ok (t, _) => Frame.len t
                               | Raise _ => 0
                               end)) in E.
      rewrite E. vm_compute. reflexivity. }
    destruct (H 5 ltac:(lia)) as [Hlag _].
    rewrite (Hlag 3) by (unfold train_lags; simpl; tauto).
    rewrite ElT. vm_compute. reflexivity.
Defined.

(** ** Rows through the whole notebook *)

Lemma well_formed_assign n v cols len :
  Forall (fun c : string * list (option Q) => length (snd c) = len) cols ->
  length v = len ->
  Forall (fun c => length (snd c) = len) (Frame.assign n v cols).
Proof.
  intros Hc Hv. induction Hc as [|[m x] rest Hx Hrest IH]; simpl.
  - repeat constructor. exact Hv.
  - destruct (String.eqb n m); constructor; assumption.
Qed.

Lemma well_formed_with_column n v d :
  well_formed d -> length v = Frame.len d ->
  well_formed (Frame.with_column n v d).
Proof. intros Hd Hv. now apply well_formed_assign. Qed.

Lemma well_formed_map_columns f cols len len' :
  Forall (fun c : string * list (option Q) => length (snd c) = len) cols ->
  (forall s : list (option Q), length s = len -> length (f s) = len') ->
  Forall (fun c => length (snd c) = len') (Frame.map_columns f cols).
Proof.
  intros Hc Hf. unfold Frame.map_columns. apply Forall_map.
  apply Forall_impl with (2 := Hc). intros c Hl. simpl. now apply Hf.
Qed.

Lemma well_formed_iloc_to s d :
  well_formed d -> well_formed (Frame.iloc_to s d).
Proof.
  intros Hd. unfold well_formed. rewrite len_iloc_to.
  apply well_formed_map_columns with (len := Frame.len d); [exact Hd|].
  intros x Hx. rewrite length_firstn. lia.
Qed.

Lemma well_formed_take_rows ps d : well_formed (Frame.take_rows ps d).
Proof.
  unfold well_formed, Frame.take_rows, Frame.len, Frame.map_columns. simpl.
  apply Forall_map, Forall_forall. intros c _. simpl.
  now rewrite !length_map.
Qed.

Lemma well_formed_generated lags wins d :
  well_formed d -> well_formed (generated lags wins d).
Proof.
  intros Hd. unfold generated.
  destruct (lag_features lags wins d) as [d'|] eqn:E; [|assumption].
  destruct (Frame.lookup target (columns d)) as [x|] eqn:Hx.
  - rewrite (@lag_features_unfold lags wins d d' x Hx E).
    pose proof (@well_formed_lookup d target x Hd Hx) as Hlen.
    assert (Hl : forall l d0, well_formed d0 -> Frame.len d0 = Frame.len d ->
                   well_formed (fold_left (add_lag x) l d0) /\
                   Frame.len (fold_left (add_lag x) l d0) = Frame.len d).
    { induction l as [|a l IH]; intros d0 H0 L0; simpl; [now split|].
      apply IH; [|exact L0]. unfold add_lag.
      apply well_formed_with_column; [exact H0|].
      rewrite shift_length. congruence. }
    assert (Hw : forall l d0, well_formed d0 -> Frame.len d0 = Frame.len d ->
                   well_formed (fold_left (add_roll x) l d0)).
    { induction l as [|a l IH]; intros d0 H0 L0; simpl; [assumption|].
      apply IH; [|exact L0]. unfold add_roll.
      apply well_formed_with_column; [exact H0|].
      rewrite rolling_mean_length, shift_length. congruence. }
    destruct (Hl lags d Hd eq_refl) as [H1 H2]. now apply Hw.
  - unfold lag_features in E. rewrite Hx in E.
    destruct lags; [|discriminate]. destruct wins; [|discriminate].
    now inversion E; subst.
Qed.

Lemma well_formed_train_frame s df0 : well_formed (train_frame s df0).
Proof.
  unfold train_frame, train_rows.
  apply well_formed_generated, well_formed_iloc_to.
  unfold sorted_input. apply sort_index_well_formed.
Qed.

Lemma well_formed_forecast_frame s df0 : well_formed (forecast_frame s df0).
Proof.
  unfold forecast_frame, keep_new, Frame.loc. apply well_formed_take_rows.
Qed.

(** The columns of the table that [enrich_features] reads on the row it
    writes. *)
Lemma row_inputs_not_features n :
  In n (appliance_cols ++
        ["furnace"; "hour"; "wd_Saturday"; "wd_Sunday"]%string) ->
  ~ In n feature_names.
Proof.
  intros Hn Hf. unfold feature_names in Hf. apply in_app_or in Hf.
  assert (Hl : forall k, String.eqb n (lag_name k) = false).
  { intros k. unfold appliance_cols in Hn. simpl in Hn.
    repeat (destruct Hn as [<-|Hn]; [reflexivity|]). contradiction. }
  assert (Hr : forall w, String.eqb n (roll_name w) = false).
  { intros w. unfold appliance_cols in Hn. simpl in Hn.
    repeat (destruct Hn as [<-|Hn]; [reflexivity|]). contradiction. }
  destruct Hf as [Hf|Hf]; apply in_map_iff in Hf; destruct Hf as [k [E _]].
  - specialize (Hl k). apply String.eqb_neq in Hl. congruence.
  - specialize (Hr k). apply String.eqb_neq in Hr. congruence.
Qed.

Lemma row_inputs_or_solar_not_features n :
  In n (appliance_cols ++
        ["furnace"; "generated_solar"; "hour"; "wd_Saturday";
         "wd_Sunday"]%string) ->
  ~ In n feature_names.
Proof.
  intros Hn Hf. unfold feature_names in Hf. apply in_app_or in Hf.
  assert (Hl : forall k, String.eqb n (lag_name k) = false).
  { intros k. unfold appliance_cols in Hn. simpl in Hn.
    repeat (destruct Hn as [<-|Hn]; [reflexivity|]). contradiction. }
  assert (Hr : forall w, String.eqb n (roll_name w) = false).
  { intros w. unfold appliance_cols in Hn. simpl in Hn.
    repeat (destruct Hn as [<-|Hn]; [reflexivity|]). contradiction. }
  destruct Hf as [Hf|Hf]; apply in_map_iff in Hf; destruct Hf as [k [E _]].
  - specialize (Hl k). apply String.eqb_neq in Hl. congruence.
  - specialize (Hr k). apply String.eqb_neq in Hr. congruence.
Qed.

(** Each row of an enriched frame is derived from the same row of the
    frame passed in. *)
Lemma enriched_row dayofyear np_sin np_cos d E i :
  enriched dayofyear np_sin np_cos d = Some E ->
  well_formed d -> i < Frame.len d ->
  enriched_from dayofyear E i d i.
Proof.
  intros H Hwf Hi.
  destruct (@enriched_outputs dayofyear np_sin np_cos d E H)
    as [apps [furnace [hour [wd
         [Ha [Hf [Hh [Hw [Hsum [Hon [Hb [Hwe Hn]]]]]]]]]]]].
  destruct (@enriched_seasonal dayofyear np_sin np_cos d E H) as [Hd _].
  destruct (@enriched_keeps dayofyear np_sin np_cos d E H) as [Hidx _].
  pose proof (@well_formed_lookup d "furnace" furnace Hwf Hf) as Lf.
  pose proof (@well_formed_lookup d "hour" hour Hwf Hh) as Lh.
  unfold enriched_from. rewrite Hidx.
  split; [reflexivity|].
  unfold Frame.value at 1. rewrite Hsum, at_row_sum by assumption.
  rewrite (@lookups_values appliance_cols d apps i Ha).
  split; [reflexivity|].
  unfold Frame.value at 1. unfold Frame.value at 1. rewrite Hon, Hf.
  split; [apply at_map; lia|].
  unfold Frame.value at 1. unfold Frame.value at 1. rewrite Hb, Hh.
  split; [apply at_map; lia|].
  unfold Frame.value at 1. rewrite Hwe.
  rewrite at_map by (rewrite row_sum_length; exact Hi).
  rewrite at_row_sum by assumption.
  rewrite (@lookups_values _ d wd i Hw).
  split; [reflexivity|].
  unfold Frame.value at 1. unfold Frame.value at 1. rewrite Hn, Hh.
  split; [apply at_map; lia|].
  unfold Frame.value. rewrite Hd.
  unfold at_, dayofyear_column.
  set (g := fun t => Some (inject_Z (dayofyear t))).
  rewrite nth_indep with (d' := g 0%Z) by (rewrite length_map; exact Hi).
  now rewrite map_nth.
Qed.

(** The derivation read on another table that has the same row. *)
Lemma enriched_from_same_row dayofyear E i d S r :
  enriched_from dayofyear E i d i ->
  nth i (index d) 0%Z = nth r (index S) 0%Z ->
  (forall n, In n (appliance_cols ++
                   ["furnace"; "hour"; "wd_Saturday"; "wd_Sunday"]%string) ->
             Frame.value d n i = Frame.value S n r) ->
  enriched_from dayofyear E i S r.
Proof.
  unfold enriched_from.
  intros [H1 [H2 [H3 [H4 [H5 [H6 H7]]]]]] Hidx Hv.
  rewrite <- Hidx.
  assert (Ea : map (fun n => Frame.value S n r) appliance_cols =
               map (fun n => Frame.value d n i) appliance_cols).
  { apply map_ext_in. intros n Hn. symmetry. apply Hv.
    apply in_or_app. now left. }
  assert (Ew : map (fun n => Frame.value S n r)
                   ["wd_Saturday"; "wd_Sunday"]%string =
               map (fun n => Frame.value d n i)
                   ["wd_Saturday"; "wd_Sunday"]%string).
  { apply map_ext_in. intros n Hn. symmetry. apply Hv.
    apply in_or_app. right. simpl in Hn |- *. tauto. }
  rewrite Ea, Ew.
  rewrite <- (Hv "furnace"%string) by (apply in_or_app; right; simpl; tauto).
  rewrite <- (Hv "hour"%string) by (apply in_or_app; right; simpl; tauto).
  repeat split; assumption.
Qed.

(** A column of the table that no call writes, on the training rows. *)
Lemma train_input_column s df0 x0 name i :
  Frame.lookup target (columns df0) = Some x0 ->
  ~ In name feature_names -> i < s ->
  Frame.value (train_frame s df0) name i =
  Frame.value (sorted_input df0) name i.
Proof.
  intros Hx Hn Hi.
  destruct (@lag_features_keeps train_lags train_windows
              (train_rows s df0) (train_frame s df0)
              (@T_lag_features df0 x0 s Hx)) as [_ [_ Hk]].
  unfold Frame.value. rewrite (Hk name Hn).
  unfold train_rows. rewrite columns_iloc_to, lookup_map_columns.
  destruct (Frame.lookup name (columns (sorted_input df0))) as [c|];
    [|reflexivity].
  simpl. now apply at_firstn.
Qed.

(** X20.  Every row of the two frames the notebook writes is derived from
    one row of the sorted table and from that row only: training row [i]
    from sorted row [i], forecast row [j] from sorted row [|train| + j].
    The row has that row's timestamp, and [appliance_sum], [furnace_on],
    [hour_block], [is_weekend], [is_night] and [dayofyear] are computed
    from that row's cells: the concatenation with the spillover rows and
    the selection by label do not shift the forecast rows. *)
Theorem rows_stay_with_their_timestamp
  (dayofyear : Z -> Z) (np_sin np_cos : Q -> Q) (df0 : DataFrame) (sz : Z) :
  NoDup (index df0) ->
  (forall n, In n raw_inputs -> Frame.has_column n df0 = true) ->
  split_index (Z.of_nat (Frame.len df0)) = Some sz ->
  exists T F,
    notebook_run dayofyear np_sin np_cos df0 = Ok (T, F) /\
    (forall i, i < Frame.len T ->
       enriched_from dayofyear T i (Frame.sort_index df0) i) /\
    (forall j, j < Frame.len F ->
       enriched_from dayofyear F j (Frame.sort_index df0) (Frame.len T + j)).
Proof.
  intros Hnd Hcols Hsz.
  destruct (@notebook_run_enriched dayofyear np_sin np_cos df0 sz Hcols Hsz)
    as [x0 [T [F [Hx [HT [HF Hrun]]]]]].
  set (s := Nat.min (Z.to_nat sz) (Frame.len df0)) in *.
  assert (Hs : s <= Frame.len df0) by (unfold s; lia).
  exists T, F. split; [exact Hrun|].
  assert (HlT : Frame.len T = s).
  { unfold Frame.len.
    destruct (@enriched_keeps dayofyear np_sin np_cos _ T HT) as [-> _].
    exact (@len_T df0 x0 s Hx Hs). }
  assert (HlF : Frame.len F = Frame.len df0 - s).
  { unfold Frame.len.
    destruct (@enriched_keeps dayofyear np_sin np_cos _ F HF) as [-> _].
    exact (@len_F df0 x0 s Hnd Hx Hs). }
  rewrite HlT, HlF.
  change (Frame.sort_index df0) with (sorted_input df0).
  split.
  - intros i Hi.
    apply enriched_from_same_row with (d := train_frame s df0).
    + apply (@enriched_row dayofyear np_sin np_cos _ T i HT).
      * apply well_formed_train_frame.
      * now rewrite (@len_T df0 x0 s Hx Hs).
    + rewrite (@index_T df0 x0 s Hx). rewrite nth_firstn.
      now replace (i <? s) with true by (symmetry; apply Nat.ltb_lt; lia).
    + intros n Hn. apply train_input_column with (x0 := x0);
        [assumption|now apply row_inputs_not_features|assumption].
  - intros j Hj.
    apply enriched_from_same_row with (d := forecast_frame s df0).
    + apply (@enriched_row dayofyear np_sin np_cos _ F j HF).
      * apply well_formed_forecast_frame.
      * now rewrite (@len_F df0 x0 s Hnd Hx Hs).
    + rewrite (@index_F df0 x0 s Hnd Hx Hs). now rewrite nth_skipn.
    + intros n Hn.
      apply (@F_input_column df0 x0 s Hnd Hx Hs n j);
        [now apply row_inputs_not_features|assumption].
Qed.

(** The theorem at the twenty-row sample delivered latest first: the
    first forecast row is derived from row 18 of the sorted table. *)
Lemma rows_stay_with_their_timestamp_witness :
  exists T F,
    notebook_run sample_dayofyear sample_sin sample_cos (sample_reversed 20)
      = Ok (T, F) /\
    enriched_from sample_dayofyear F 0
      (Frame.sort_index (sample_reversed 20)) 18.
Proof.
  destruct (@rows_stay_with_their_timestamp
              sample_dayofyear sample_sin sample_cos (sample_reversed 20) 18%Z)
    as [T [F [Hrun [_ HF]]]].
  - apply uniqueb_sound. vm_compute. reflexivity.
  - intros n Hn. unfold raw_inputs, appliance_cols in Hn. simpl in Hn.
    repeat (destruct Hn as [<-|Hn]; [vm_compute; reflexivity|]).
    contradiction.
  - vm_compute. reflexivity.
  - exists T, F. split; [exact Hrun|].
    assert (E : notebook_run sample_dayofyear sample_sin sample_cos
                  (sample_reversed 20) =
                Ok (match enriched sample_dayofyear sample_sin sample_cos
                            (train_frame 18 (sample_reversed 20)) with
                    | Some d => d | None => sample 0 end,
                    match enriched sample_dayofyear sample_sin sample_cos
                            (forecast_frame 18 (sample_reversed 20)) with
                    | Some d => d | None => sample 0 end)).
    { apply notebook_run_frames
        with (x0 := series_of target (sample_reversed 20)) (sz := 18%Z);
        vm_compute; reflexivity. }
    rewrite Hrun in E.
    assert (ElT : Frame.len T = 18).
    { apply (f_equal (fun r => match r with
                               | Ok (t, _) => Frame.len t
                               | Raise _ => 0
                               end)) in E.
      rewrite E. vm_compute. reflexivity. }
    assert (ElF : Frame.len F = 2).
    { apply (f_equal (fun r => match r with
                               | Ok (_, f) => Frame.len f
                               | Raise _ => 0
                               end)) in E.
      rewrite E. vm_compute. reflexivity. }
    specialize (HF 0). rewrite ElT, ElF in HF. apply HF. lia.
Defined.

(** ** Missing columns *)

Lemma notebook_run_without_target dayofyear np_sin np_cos df0 sz :
  split_index (Z.of_nat (Frame.len df0)) = Some sz ->
  Frame.has_column target df0 = false ->
  notebook_run dayofyear np_sin np_cos df0 = Raise (KeyError target).
Proof.
  intros Hs Ht.
  unfold notebook_run, frames, load, notebook, split.
  run_heap. rewrite len_sort_index, Hs. run_heap.
  unfold lag_cell. run_heap.
  erewrite create_lag_features_run by reflexivity.
  fold (sorted_input df0). fold (train_rows (Z.to_nat sz) df0).
  assert (E : lag_features train_lags train_windows
                (train_rows (Z.to_nat sz) df0) = None).
  { unfold lag_features.
    assert (Hc : Frame.has_column target (train_rows (Z.to_nat sz) df0)
                 = false).
    { unfold train_rows, sorted_input, Frame.sort_index.
      now rewrite has_column_iloc_to, has_column_take_rows. }
    unfold Frame.has_column in Hc.
    destruct (Frame.lookup target (columns (train_rows (Z.to_nat sz) df0)));
      [discriminate|reflexivity]. }
  rewrite E. reflexivity.
Qed.

Lemma notebook_run_enrich_raises dayofyear np_sin np_cos df0 x0 sz :
  Frame.lookup target (columns df0) = Some x0 ->
  split_index (Z.of_nat (Frame.len df0)) = Some sz ->
  enriched dayofyear np_sin np_cos (train_frame (Z.to_nat sz) df0) = None ->
  exists name,
    notebook_run dayofyear np_sin np_cos df0 = Raise (KeyError name).
Proof.
  intros Hx Hs Hnone.
  pose proof (@lookup_target_T0 df0 x0 (Z.to_nat sz) Hx) as HT0.
  pose proof (@generated_some train_lags train_windows _ _ HT0) as HT.
  fold (train_frame (Z.to_nat sz) df0) in HT.
  pose proof (@lag_features_target _ _ _ _ _ HT0 HT) as Ht.
  assert (HF : exists F1,
            lag_features forecast_lags forecast_windows
              (forecast_input (train_frame (Z.to_nat sz) df0)
                 (forecast_rows (Z.to_nat sz) df0)) = Some F1).
  { assert (exists y, Frame.lookup target
              (columns (forecast_input (train_frame (Z.to_nat sz) df0)
                          (forecast_rows (Z.to_nat sz) df0))) = Some y)
      as [y Hy].
    { unfold forecast_input. rewrite lookup_concat.
      unfold Frame.tail at 1. rewrite columns_iloc_from, lookup_map_columns.
      rewrite Ht. simpl. eauto. }
    eexists. exact (@generated_some _ _ _ _ Hy). }
  destruct HF as [F1 HF].
  unfold notebook_run, frames, load, notebook, split.
  run_heap. rewrite len_sort_index, Hs. run_heap.
  unfold lag_cell. run_heap.
  erewrite create_lag_features_run by reflexivity.
  fold (sorted_input df0). fold (train_rows (Z.to_nat sz) df0).
  rewrite HT. run_heap.
  unfold spillover_input. run_heap.
  erewrite create_lag_features_run by reflexivity.
  fold (forecast_rows (Z.to_nat sz) df0).
  fold (forecast_input (train_frame (Z.to_nat sz) df0)
          (forecast_rows (Z.to_nat sz) df0)).
  rewrite HF. run_heap.
  unfold keep_new_rows. run_heap.
  unfold enrich_cell. run_heap.
  match goal with
  | |- context [enrich_features dayofyear np_sin np_cos ?r ?h] =>
      destruct (@enrich_features_raises dayofyear np_sin np_cos h r
                  (train_frame (Z.to_nat sz) df0) eq_refl Hnone)
        as [name [d Hd]];
      rewrite Hd
  end.
  exists name. reflexivity.
Qed.

Lemma has_column_train_frame_raw s df0 x0 n :
  Frame.lookup target (columns df0) = Some x0 ->
  ~ In n feature_names ->
  Frame.has_column n (train_frame s df0) = Frame.has_column n df0.
Proof.
  intros Hx Hn.
  destruct (@lag_features_keeps train_lags train_windows
              (train_rows s df0) (train_frame s df0)
              (@T_lag_features df0 x0 s Hx)) as [_ [_ Hk]].
  unfold Frame.has_column at 1. rewrite (Hk n Hn).
  fold (Frame.has_column n (train_rows s df0)).
  unfold train_rows, sorted_input, Frame.sort_index.
  now rewrite has_column_iloc_to, has_column_take_rows.
Qed.

(** X21.  The notebook and its input columns.  On a table whose split
    point is defined the notebook returns its two frames exactly when the
    table has the twelve columns read: the target, the six appliance
    columns, [furnace], [generated_solar], [hour], [wd_Saturday] and
    [wd_Sunday].  With one of them missing it raises [KeyError]; without
    the target the error comes from the first call of
    [create_lag_features] and names [use_house_overall]. *)
Theorem notebook_needs_raw_columns
  (dayofyear : Z -> Z) (np_sin np_cos : Q -> Q) (df0 : DataFrame) (sz : Z) :
  split_index (Z.of_nat (Frame.len df0)) = Some sz ->
  ((exists T F, notebook_run dayofyear np_sin np_cos df0 = Ok (T, F)) <->
   (forall n, In n raw_inputs -> Frame.has_column n df0 = true)) /\
  ((exists n, In n raw_inputs /\ Frame.has_column n df0 = false) ->
   exists name,
     notebook_run dayofyear np_sin np_cos df0 = Raise (KeyError name)) /\
  (Frame.has_column target df0 = false ->
   notebook_run dayofyear np_sin np_cos df0 = Raise (KeyError target)).
Proof.
  intros Hsz.
  assert (Hmiss : (exists n, In n raw_inputs /\
                             Frame.has_column n df0 = false) ->
                  exists name,
                    notebook_run dayofyear np_sin np_cos df0 =
                    Raise (KeyError name)).
  { intros [n [Hn Hc]].
    destruct (Frame.lookup target (columns df0)) as [x0|] eqn:Hx.
    - apply notebook_run_enrich_raises with (x0 := x0) (sz := sz);
        try assumption.
      destruct (enriched dayofyear np_sin np_cos
                  (train_frame (Z.to_nat sz) df0)) as [T|] eqn:E;
        [|reflexivity].
      exfalso.
      assert (Hne : n <> target).
      { intros ->. unfold Frame.has_column in Hc. rewrite Hx in Hc.
        discriminate. }
      assert (Hin : In n enrich_inputs).
      { unfold raw_inputs in Hn. destruct Hn as [Hn|Hn]; [congruence|].
        unfold enrich_inputs. apply in_app_or in Hn. apply in_or_app.
        destruct Hn as [Hn|Hn]; [now left|right].
        simpl in Hn |- *. tauto. }
      pose proof (@enriched_inputs dayofyear np_sin np_cos _ T E n Hin) as Hp.
      rewrite (@has_column_train_frame_raw (Z.to_nat sz) df0 x0 n Hx) in Hp.
      + congruence.
      + unfold raw_inputs in Hn. destruct Hn as [Hn|Hn]; [congruence|].
        apply row_inputs_or_solar_not_features. exact Hn.
    - exists target. apply notebook_run_without_target with (sz := sz);
        [assumption|].
      unfold Frame.has_column. now rewrite Hx. }
  split; [split|split].
  - intros [T [F Hok]] n Hn.
    destruct (Frame.has_column n df0) eqn:Hc; [reflexivity|].
    destruct Hmiss as [name Hr]; [now exists n|].
    rewrite Hr in Hok. discriminate.
  - intros Hall.
    destruct (@notebook_run_enriched dayofyear np_sin np_cos df0 sz Hall Hsz)
      as [x0 [T [F [_ [_ [_ Hrun]]]]]].
    now exists T, F.
  - exact Hmiss.
  - intros Ht. now apply notebook_run_without_target with (sz := sz).
Qed.

(** The theorem at the twenty-row sample without its [hour] column. *)
Lemma notebook_needs_raw_columns_witness :
  let df0 := mkDataFrame (index (sample 20))
               (filter (fun c => negb (String.eqb (fst c) "hour"))
                       (columns (sample 20))) in
  exists name,
    notebook_run sample_dayofyear sample_sin sample_cos df0 =
    Raise (KeyError name).
Proof.
  intros df0.
  destruct (@notebook_needs_raw_columns
              sample_dayofyear sample_sin sample_cos df0 18%Z)
    as [_ [H _]].
  - vm_compute. reflexivity.
  - apply H. exists "hour"%string. split.
    + unfold raw_inputs, appliance_cols. simpl. tauto.
    + vm_compute. reflexivity.
Defined.

(** ** The columns only the training call writes *)

(** X22.  The forecast frame has the columns [lag_6], [lag_12], [lag_24],
    [lag_48] and [roll_mean_24], taken over from the spillover rows of the
    training frame, but no value in them: the call for the forecast
    segment does not write these columns, the concatenation fills them
    with NaN on the forecast rows, and only the forecast rows are kept.
    Each of the five columns is missing on every row of the forecast frame
    (unless the table itself came with a column of that name). *)
Theorem forecast_training_only_columns_are_missing
  (dayofyear : Z -> Z) (np_sin np_cos : Q -> Q) (df0 : DataFrame) (sz : Z) :
  NoDup (index df0) ->
  (forall n, In n raw_inputs -> Frame.has_column n df0 = true) ->
  split_index (Z.of_nat (Frame.len df0)) = Some sz ->
  exists T F,
    notebook_run dayofyear np_sin np_cos df0 = Ok (T, F) /\
    forall name,
      In name ["lag_6"; "lag_12"; "lag_24"; "lag_48"; "roll_mean_24"]%string ->
      Frame.has_column name df0 = false ->
      Frame.has_column name F = true /\
      forall j, j < Frame.len F -> Frame.value F name j = None.
Proof.
  intros Hnd Hcols Hsz.
  destruct (@notebook_run_enriched dayofyear np_sin np_cos df0 sz Hcols Hsz)
    as [x0 [T [F [Hx [HT [HF Hrun]]]]]].
  set (s := Nat.min (Z.to_nat sz) (Frame.len df0)) in *.
  assert (Hs : s <= Frame.len df0) by (unfold s; lia).
  assert (Ht : Frame.has_column target df0 = true)
    by (apply Hcols; now left).
  exists T, F. split; [exact Hrun|].
  intros name Hname Hnone.
  assert (Hfeat : In name feature_names).
  { unfold feature_names. simpl in Hname |- *. tauto. }
  assert (Hnotf : ~ In name forecast_feature_names).
  { unfold forecast_feature_names. simpl in Hname |- *.
    intuition (subst; discriminate). }
  assert (Hnote : ~ In name enrich_outputs).
  { intros Ho. now apply (@enrich_outputs_not_features name Ho). }
  destruct (@enriched_keeps dayofyear np_sin np_cos _ F HF)
    as [Hidx [_ Hsame]].
  split.
  - rewrite <- has_name_names. apply has_name_in.
    rewrite (@enriched_names dayofyear np_sin np_cos _ F HF).
    apply assigned_keeps.
    rewrite names_forecast_frame, names_train_frame by assumption.
    now apply assigned_holds.
  - intros j Hj. unfold Frame.value. rewrite (Hsame name Hnote).
    apply (@F_stale df0 x0 s Hnd Hx Hs name j); try assumption.
    + unfold Frame.has_column in Hnone.
      destruct (Frame.lookup name (columns df0)); [discriminate|reflexivity].
    + unfold Frame.len in Hj. rewrite Hidx in Hj.
      fold (Frame.len (forecast_frame s df0)) in Hj.
      now rewrite (@len_F df0 x0 s Hnd Hx Hs) in Hj.
Qed.

(** The theorem at the twenty-row sample: [lag_6] is missing on both
    forecast rows. *)
Lemma forecast_training_only_columns_are_missing_witness :
  exists T F,
    notebook_run sample_dayofyear sample_sin sample_cos (sample 20) =
      Ok (T, F) /\
    Frame.has_column "lag_6" F = true /\
    Frame.value F "lag_6" 0 = None /\ Frame.value F "lag_6" 1 = None.
Proof.
  destruct (@forecast_training_only_columns_are_missing
              sample_dayofyear sample_sin sample_cos (sample 20) 18%Z)
    as [T [F [Hrun H]]].
  - apply uniqueb_sound. vm_compute. reflexivity.
  - intros n Hn. unfold raw_inputs, appliance_cols in Hn. simpl in Hn.
    repeat (destruct Hn as [<-|Hn]; [vm_compute; reflexivity|]).
    contradiction.
  - vm_compute. reflexivity.
  - exists T, F. split; [exact Hrun|].
    assert (E : notebook_run sample_dayofyear sample_sin sample_cos
                  (sample 20) =
                Ok (match enriched sample_dayofyear sample_sin sample_cos
                            (train_frame 18 (sample 20)) with
                    | Some d => d | None => sample 0 end,
                    match enriched sample_dayofyear sample_sin sample_cos
                            (forecast_frame 18 (sample 20)) with
                    | Some d => d | None => sample 0 end)).
    { apply notebook_run_frames
        with (x0 := series_of target (sample 20)) (sz := 18%Z);
        vm_compute; reflexivity. }
    rewrite Hrun in E.
    assert (ElF : Frame.len F = 2).
    { apply (f_equal (fun r => match r with
                               | Ok (_, f) => Frame.len f
                               | Raise _ => 0
                               end)) in E.
      rewrite E. vm_compute. reflexivity. }
    destruct (H "lag_6"%string) as [Hc Hv].
    + simpl. tauto.
    + vm_compute. reflexivity.
    + split; [exact Hc|]. split; apply Hv; lia.
Defined.
